(** * CloudFormation-init document assembly ([cfn-init.ts])

    A shallow embedding of [packages/@aws-cdk/aws-ec2/lib/cfn-init.ts]:
    the [deepMerge] reducer, [mapValues], the [InitConfig] binding protocol
    and the [CloudFormationInit] registry, followed by the properties
    established about them.

    Modelling conventions.
    - JavaScript values are trees: primitives, arrays and plain objects.
      An object is the list of its own enumerable string-keyed properties
      in enumeration order (array-index keys first, ascending; then the
      other keys in creation order).  Its prototype is [Object.prototype],
      taken to be as the language defines it: a lookup [o[k]] that finds
      no own property finds the members of [Object.prototype]
      ([toString], [constructor], [__proto__], ...), and an assignment to
      [__proto__] reaches the accessor of that name instead of adding a
      property.
    - Numbers are the integer-valued ones.
    - [deepMerge] never reads the contents of an array element, it only
      compares elements for identity through [new Set].  An element that is
      itself an object is therefore represented by its reference
      ([ARef]); primitives are compared by value, as [SameValueZero] does.
    - [deepMerge] updates [target] in place and returns it; the embedding
      returns the updated value.  Fragments handed out by different
      elements are assumed not to share structure.
    - Code that throws returns [Throw]; the paths that leave the tree
      universe return [OutOfModel], about which nothing is claimed: adding
      a property to an array, merging into a built-in function, assigning
      to [__proto__] through the inherited accessor, reading a member of
      the prototype of a string, number or boolean. *)

From Stdlib Require Import List String Ascii ZArith NArith Bool Arith Lia Sorted FinFun.
Import ListNotations.
Local Open Scope string_scope.
Local Open Scope list_scope.

Set Implicit Arguments.

(** ** JavaScript values *)

Inductive prim : Type :=
| PUndefined
| PNull
| PBool (b : bool)
| PNumber (z : Z)
| PString (s : string).

Definition loc := nat.

(** Array elements: a primitive, or the reference of an object. *)
Inductive atom : Type :=
| APrim (p : prim)
| ARef (l : loc).

#[warnings="-register-all"]
Inductive value : Type :=
| VPrim (p : prim)
| VArray (items : list atom)
| VObject (fields : list (string * value)).

Abbreviation undefined := (VPrim PUndefined).
Abbreviation null := (VPrim PNull).
Definition VString (s : string) : value := VPrim (PString s).
Definition AString (s : string) : atom := APrim (PString s).

Definition prim_eqb (p q : prim) : bool :=
  match p, q with
  | PUndefined, PUndefined => true
  | PNull, PNull => true
  | PBool a, PBool b => Bool.eqb a b
  | PNumber a, PNumber b => Z.eqb a b
  | PString a, PString b => String.eqb a b
  | _, _ => false
  end.

(** [SameValueZero], the equality used by [Set]. *)
Definition sameValueZero (a b : atom) : bool :=
  match a, b with
  | APrim p, APrim q => prim_eqb p q
  | ARef l, ARef m => Nat.eqb l m
  | _, _ => false
  end.

(** [x == null] *)
Definition is_nullish (v : value) : bool :=
  match v with
  | VPrim PUndefined | VPrim PNull => true
  | _ => false
  end.

(** [a ?? b] *)
Definition nullish_or (a b : value) : value :=
  if is_nullish a then b else a.

(** [Array.isArray(v)] *)
Definition isArray (v : value) : bool :=
  match v with
  | VArray _ => true
  | _ => false
  end.

(** Truthiness, as tested by [if (v)] and [v && ...]. *)
Definition truthy (v : value) : bool :=
  match v with
  | VPrim PUndefined | VPrim PNull => false
  | VPrim (PBool b) => b
  | VPrim (PNumber z) => negb (Z.eqb z 0)
  | VPrim (PString s) => negb (String.eqb s "")
  | VArray _ | VObject _ => true
  end.

(** ** Errors and outcomes *)

Inductive error : Type :=
| MergeArrayIntoNonArray (items : list atom) (found : value)
    (* Error(`Trying to merge array [...] into a non-array '...'`) *)
| MergeArrayIntoInherited (items : list atom) (key : string)
    (* the same Error, the non-array being the member of [Object.prototype]
       that the target inherits under [key] *)
| TypeError_notIterable (v : value)
| TypeError_cannotCreateProperty (key : string) (on : value)
| DuplicateConfig (configName : string)
    (* Error(`CloudFormationInit already contains a config named '...'`) *)
| DuplicateConfigSet (configSetName : string)
    (* Error(`CloudFormationInit already contains a configSet named '...'`) *)
| UnknownConfigs (configSetName : string) (unk : list string).
    (* Error(`Unknown configs referenced in definition of '...': ...`) *)

Inductive outcome (A : Type) : Type :=
| Ok (a : A)
| Throw (e : error)
| OutOfModel.

Arguments Ok {A} a.
Arguments Throw {A} e.
Arguments OutOfModel {A}.

Definition obind {A B : Type} (m : outcome A) (f : A -> outcome B) : outcome B :=
  match m with
  | Ok a => f a
  | Throw e => Throw e
  | OutOfModel => OutOfModel
  end.

(** Template literals are concatenations. *)
Infix "+++" := String.append (at level 60, right associativity).

Declare Scope outcome_scope.
Delimit Scope outcome_scope with outcome.
Notation "'let!' x ':=' m 'in' k" := (obind m (fun x => k))
  (at level 10, x name, m at level 100, k at level 200) : outcome_scope.
Local Open Scope outcome_scope.

(** ** Objects as property lists *)

Definition obj (A : Type) : Type := list (string * A).

(** The names of the members of [Object.prototype].  All hold functions,
    except the accessor [__proto__], which yields the prototype itself: on
    an object without an own property of that name, a lookup of any of
    them finds a truthy value that is not an array. *)
Definition Object_prototype_names : list string :=
  ["constructor"; "__defineGetter__"; "__defineSetter__"; "hasOwnProperty";
   "__lookupGetter__"; "__lookupSetter__"; "isPrototypeOf"; "propertyIsEnumerable";
   "toString"; "valueOf"; "__proto__"; "toLocaleString"].

Definition inherited_name (k : string) : bool :=
  existsb (String.eqb k) Object_prototype_names.

Section Objects.
Variable A : Type.

(** [o[k]] on own properties. *)
Fixpoint obj_get (k : string) (o : obj A) : option A :=
  match o with
  | [] => None
  | (k', v) :: o' => if String.eqb k k' then Some v else obj_get k o'
  end.

Definition obj_has (k : string) (o : obj A) : bool :=
  match obj_get k o with
  | Some _ => true
  | None => false
  end.

(** [o[k]] finds something, on an object whose own properties hold
    objects: an own property, or a member of [Object.prototype].  What it
    finds is truthy and not [undefined]. *)
Definition obj_in (k : string) (o : obj A) : bool :=
  obj_has k o || inherited_name k.

Definition keys (o : obj A) : list string := map fst o.

(** [Object.values(o)] *)
Definition Object_values (o : obj A) : list A := map snd o.

Fixpoint obj_replace (k : string) (v : A) (o : obj A) : obj A :=
  match o with
  | [] => []
  | (k', v') :: o' =>
      if String.eqb k k' then (k', v) :: o' else (k', v') :: obj_replace k v o'
  end.
End Objects.

(** A key is an array index when it is the canonical decimal form of an
    integer in [0, 2^32 - 2]. *)
Definition digit_of (c : ascii) : option N :=
  let n := N_of_ascii c in
  if (48 <=? n)%N && (n <=? 57)%N then Some (n - 48)%N else None.

Fixpoint digits_value (s : string) (acc : N) : option N :=
  match s with
  | EmptyString => Some acc
  | String c s' =>
      match digit_of c with
      | Some d => digits_value s' (acc * 10 + d)%N
      | None => None
      end
  end.

Definition array_index (k : string) : option N :=
  match k with
  | EmptyString => None
  | String "0" EmptyString => Some 0%N
  | String "0" _ => None
  | _ =>
      match digits_value k 0%N with
      | Some n => if (n <=? 4294967294)%N then Some n else None
      | None => None
      end
  end.

Section ObjectUpdate.
Variable A : Type.

(** A new array-index key goes before the first property that is not an
    array index or is a larger one. *)
Fixpoint obj_insert_index (n : N) (k : string) (v : A) (o : obj A) : obj A :=
  match o with
  | [] => [(k, v)]
  | (k', v') :: o' =>
      match array_index k' with
      | Some m =>
          if (m <? n)%N then (k', v') :: obj_insert_index n k v o'
          else (k, v) :: o
      | None => (k, v) :: o
      end
  end.

(** [o[k] = v] *)
Definition obj_set (k : string) (v : A) (o : obj A) : obj A :=
  if obj_has k o then obj_replace k v o
  else match array_index k with
       | Some n => obj_insert_index n k v o
       | None => o ++ [(k, v)]
       end.
End ObjectUpdate.

(** ** Property access on values *)

(** The characters of a string, as [string[i]] and [...string] yield them. *)
Fixpoint chars (s : string) : list string :=
  match s with
  | EmptyString => []
  | String c s' => String c EmptyString :: chars s'
  end.

(** The own property [key] of a value, [undefined] when it has none: a
    property of the object, a character or the length of a string.  This
    is what [Object.entries], a spread and a serialization see. *)
Definition get_prop (target : value) (key : string) : value :=
  match target with
  | VObject fields =>
      match obj_get key fields with
      | Some v => v
      | None => undefined
      end
  | VPrim (PString s) =>
      if String.eqb key "length" then VPrim (PNumber (Z.of_nat (String.length s)))
      else match array_index key with
           | Some i =>
               match nth_error (chars s) (N.to_nat i) with
               | Some c => VString c
               | None => undefined
               end
           | None => undefined
           end
  | _ => undefined
  end.

(** What a lookup [target[key]] finds. *)
Inductive found_prop : Type :=
| Found (v : value)   (* an own property, or [undefined] for none at all *)
| Inherited.          (* a member of [Object.prototype] *)

(** Whether a string has the own property [key]. *)
Definition string_has (s : string) (key : string) : bool :=
  String.eqb key "length"
  || match array_index key with
     | Some i => (N.to_nat i <? String.length s)%nat
     | None => false
     end.

(** [target[key]] as [deepMerge] reads it: own properties first, then the
    members of [Object.prototype], which strings, numbers and booleans
    inherit as well.  Not modelled: the properties of an array (its
    elements, which may be references, and its length), the further
    members of the prototypes of strings, numbers and booleans, and a
    read on [null] or [undefined], which [deepMerge] never makes. *)
Definition read_prop (target : value) (key : string) : outcome found_prop :=
  match target with
  | VObject fields =>
      match obj_get key fields with
      | Some v => Ok (Found v)
      | None => Ok (if inherited_name key then Inherited else Found undefined)
      end
  | VPrim (PString s) =>
      if string_has s key then Ok (Found (get_prop target key))
      else if inherited_name key then Ok Inherited
      else OutOfModel
  | VPrim (PBool _) | VPrim (PNumber _) =>
      if inherited_name key then Ok Inherited else OutOfModel
  | VPrim PUndefined | VPrim PNull => OutOfModel
  | VArray _ => OutOfModel
  end.

(** [target[key] = v].  The module is compiled in strict mode, where
    assigning a property to a primitive throws a [TypeError].  On an
    object without an own property [__proto__], assigning to that name
    calls the accessor of [Object.prototype], which changes the prototype
    or does nothing: that is outside the model, as is an array with a new
    property. *)
Definition set_prop (target : value) (key : string) (v : value) : outcome value :=
  match target with
  | VObject fields =>
      if String.eqb key "__proto__" && negb (obj_has key fields) then OutOfModel
      else Ok (VObject (obj_set key v fields))
  | VPrim _ => Throw (TypeError_cannotCreateProperty key target)
  | VArray _ => OutOfModel
  end.

(** [[...v]] *)
Definition spread (v : value) : outcome (list atom) :=
  match v with
  | VArray items => Ok items
  | VPrim (PString s) => Ok (map AString (chars s))
  | _ => Throw (TypeError_notIterable v)
  end.

(** [Array.from(new Set(xs))]: elements in order of first occurrence. *)
Definition Set_add (set : list atom) (x : atom) : list atom :=
  if existsb (sameValueZero x) set then set else set ++ [x].

Definition Array_from_Set (xs : list atom) : list atom :=
  fold_left Set_add xs [].

(** ** deepMerge *)

(** One iteration of the [for (const [key, value] of Object.entries(src))]
    loop; [recur] is the recursive call. *)
Definition mergeEntry (recur : value -> value -> outcome value)
    (target : value) (key : string) (val : value) : outcome value :=
  match val with
  | VArray items =>
      (* if (Array.isArray(value)) *)
      let! found := read_prop target key in
      match found with
      | Inherited =>
          (* a built-in function or the prototype: truthy, no array *)
          Throw (MergeArrayIntoInherited items key)
      | Found found =>
          if truthy found && negb (isArray found)
          then Throw (MergeArrayIntoNonArray items found)
          else
            let! old := spread (nullish_or found (VArray [])) in
            set_prop target key (VArray (Array_from_Set (old ++ items)))
      end
  | VObject _ =>
      (* if (typeof value === 'object' && value) *)
      let! found := read_prop target key in
      match found with
      | Inherited =>
          (* the recursive call would write into the built-in itself *)
          OutOfModel
      | Found found =>
          let! merged := recur (nullish_or found (VObject [])) val in
          set_prop target key merged
      end
  | VPrim PUndefined => Ok target
  | VPrim _ =>
      (* if (value !== undefined) *)
      set_prop target key val
  end.

(** The loop of [deepMerge], entered once both arguments are known not to
    be null.  [src] is a record by its type, at the top as in the recursive
    call; nothing is said of other sources. *)
Fixpoint deepMergeInto (target : value) (src : value) {struct src} : outcome value :=
  match src with
  | VObject entries =>
      (fix loop (es : list (string * value)) (target : value) {struct es} : outcome value :=
         match es with
         | [] => Ok target
         | (key, val) :: es' =>
             let! target' := mergeEntry deepMergeInto target key val in
             loop es' target'
         end) entries target
  | _ => OutOfModel
  end.

(** The same loop as a function of the entries still to be merged. *)
Fixpoint mergeEntries (es : list (string * value)) (target : value) : outcome value :=
  match es with
  | [] => Ok target
  | (key, val) :: es' =>
      let! target' := mergeEntry deepMergeInto target key val in
      mergeEntries es' target'
  end.

Definition deepMerge (target src : value) : outcome value :=
  if is_nullish target then Ok src
  else if is_nullish src then Ok target
  else deepMergeInto target src.

(** [xs.reduce(deepMerge, acc)] *)
Fixpoint reduce_from (acc : value) (xs : list value) : outcome value :=
  match xs with
  | [] => Ok acc
  | x :: xs' => let! acc' := deepMerge acc x in reduce_from acc' xs'
  end.

(** [xs.reduce(deepMerge, undefined)] *)
Definition reduce_deepMerge (xs : list value) : outcome value :=
  reduce_from undefined xs.

(** ** mapValues and object spread *)

(** [mapValues(xs, fn)]: a result of [None] stands for [undefined], for
    which the key is left out.  The assignment [ret[k] = mapped] adds or
    replaces an own property for every name but [__proto__]; the statements
    about [mapValues] are for objects without a property of that name. *)
Definition mapValues {A B : Type} (xs : obj A) (fn : A -> option B) : obj B :=
  fold_left
    (fun ret kv =>
       match fn (snd kv) with
       | Some mapped => obj_set (fst kv) mapped ret
       | None => ret
       end)
    xs [].

(** [{ ...target, ...source }] and [Object.assign(target, source)] *)
Definition obj_assign {A : Type} (target source : obj A) : obj A :=
  fold_left (fun o kv => obj_set (fst kv) (snd kv) o) source target.

(** A value as the result of a [mapValues] callback. *)
Definition defined (v : value) : option value :=
  match v with
  | VPrim PUndefined => None
  | _ => Some v
  end.

(** ** Elements and effects *)

Inductive InitElementType : Type :=
| PACKAGE | GROUP | USER | SOURCE | FILE | COMMAND | SERVICE.

Inductive InitPlatform : Type :=
| WINDOWS | LINUX.

(** Constructs, roles, user data and resources of the surrounding
    framework are only passed along; they are represented by handles. *)
Definition handle := nat.

Record InitBindOptions : Type := {
  index : nat;
  instanceRole : handle;
  platform : InitPlatform;
  scope : handle
}.

Record InitElementConfig : Type := {
  config : value;
  authentication : value
}.

(** An element of [cfn-init-elements]: its kind and its [_bind], taken to
    be a function of the options it is given.  Each call is logged. *)
Record InitElement : Type := {
  elementType : InitElementType;
  element_bind : InitBindOptions -> InitElementConfig
}.

Definition InitElementType_eqb (a b : InitElementType) : bool :=
  match a, b with
  | PACKAGE, PACKAGE | GROUP, GROUP | USER, USER | SOURCE, SOURCE
  | FILE, FILE | COMMAND, COMMAND | SERVICE, SERVICE => true
  | _, _ => false
  end.

Inductive effect : Type :=
| ElementBind (e : InitElement) (options : InitBindOptions)
| AddMetadata (resource : handle) (key : string) (v : value)
| AddToPolicy (role : handle) (actions resources : list string)
| AddCommands (userData : handle) (commands : list string).

(** Computations that log their effects and may throw; the log survives
    a throw. *)
Definition M (A : Type) : Type := list effect -> outcome A * list effect.

Definition ret {A : Type} (a : A) : M A := fun log => (Ok a, log).

Definition mbind {A B : Type} (m : M A) (f : A -> M B) : M B :=
  fun log =>
    match m log with
    | (Ok a, log') => f a log'
    | (Throw e, log') => (Throw e, log')
    | (OutOfModel, log') => (OutOfModel, log')
    end.

Definition emit (e : effect) : M unit := fun log => (Ok tt, log ++ [e]).

Definition lift {A : Type} (o : outcome A) : M A := fun log => (o, log).

Declare Scope M_scope.
Delimit Scope M_scope with M.
Notation "'do' x <- m ; k" := (mbind m (fun x => k))
  (at level 10, x name, m at level 100, k at level 200) : M_scope.
Notation "m ;; k" := (mbind m (fun _ => k))
  (at level 61, right associativity) : M_scope.

(** [mapValues] with an effectful callback. *)
Fixpoint mapValuesM_from {A B : Type} (fn : A -> M (option B))
    (xs : obj A) (acc : obj B) : M (obj B) :=
  match xs with
  | [] => ret acc
  | (k, v) :: xs' =>
      (do mapped <- fn v;
       mapValuesM_from fn xs'
         match mapped with
         | Some b => obj_set k b acc
         | None => acc
         end)%M
  end.

Definition mapValuesM {A B : Type} (xs : obj A) (fn : A -> M (option B)) : M (obj B) :=
  mapValuesM_from fn xs [].

Module AttachInitOptions.
Record t : Type := {
  instanceRole : handle;
  platform : InitPlatform;
  userData : handle;
  configSets : option (list string);
  embedFingerprint : option bool;
  printLog : option bool;
  ignoreFailures : option bool
}.
End AttachInitOptions.

(** ** InitConfig *)

Module InitConfig.

Record t : Type := { elements : list InitElement }.

Definition isEmpty (this : t) : bool :=
  Nat.eqb (List.length (elements this)) 0.

Definition add (this : t) (new_elements : list InitElement) : t :=
  {| elements := elements this ++ new_elements |}.

(** [new InitConfig(elements)] *)
Definition make (elems : list InitElement) : t :=
  add {| elements := [] |} elems.

(** [elements.map((e, index) => e._bind({ index, ...renderOptions }))];
    [renderOptions] are bind options whose [index] is not read. *)
Fixpoint bindElements (renderOptions : InitBindOptions) (i : nat)
    (es : list InitElement) : M (list InitElementConfig) :=
  match es with
  | [] => ret []
  | e :: es' =>
      let options :=
        {| index := i;
           instanceRole := instanceRole renderOptions;
           platform := platform renderOptions;
           scope := scope renderOptions |} in
      (emit (ElementBind e options) ;;
       do rs <- bindElements renderOptions (S i) es';
       ret (element_bind e options :: rs))%M
  end.

Definition bindForType (this : t) (elementType' : InitElementType)
    (renderOptions : InitBindOptions) : M (option InitElementConfig) :=
  let elems :=
    filter (fun elem => InitElementType_eqb (elementType elem) elementType')
           (elements this) in
  if Nat.eqb (List.length elems) 0 then ret None
  else
    (do bindResults <- bindElements renderOptions 0 elems;
     do c <- lift (reduce_deepMerge (map config bindResults));
     do a <- lift (reduce_deepMerge (map authentication bindResults));
     ret (Some {| config := nullish_or c (VObject []);
                  authentication := a |}))%M.

(** [c?.config] and [c?.authentication] *)
Definition opt_config (c : option InitElementConfig) : value :=
  match c with
  | Some r => config r
  | None => undefined
  end.

Definition opt_authentication (c : option InitElementConfig) : value :=
  match c with
  | Some r => authentication r
  | None => undefined
  end.

Definition _bind (this : t) (scope' : handle) (options : AttachInitOptions.t)
    : M InitElementConfig :=
  let bindOptions :=
    {| index := 0;
       instanceRole := AttachInitOptions.instanceRole options;
       platform := AttachInitOptions.platform options;
       scope := scope' |} in
  (do packageConfig <- bindForType this PACKAGE bindOptions;
   do groupsConfig <- bindForType this GROUP bindOptions;
   do usersConfig <- bindForType this USER bindOptions;
   do sourcesConfig <- bindForType this SOURCE bindOptions;
   do filesConfig <- bindForType this FILE bindOptions;
   do commandsConfig <- bindForType this COMMAND bindOptions;
   do servicesConfig <- bindForType this SERVICE bindOptions;
   do authentication' <-
     lift (reduce_deepMerge
             (map opt_authentication
                [packageConfig; groupsConfig; usersConfig; sourcesConfig;
                 filesConfig; commandsConfig; servicesConfig]));
   ret {| config :=
            VObject
              [("packages", opt_config packageConfig);
               ("groups", opt_config groupsConfig);
               ("users", opt_config usersConfig);
               ("sources", opt_config sourcesConfig);
               ("files", opt_config filesConfig);
               ("commands", opt_config commandsConfig);
               ("services", opt_config servicesConfig)];
          authentication := authentication' |})%M.

End InitConfig.

(** ** CloudFormationInit *)

Record CfnResource : Type := {
  resource : handle;
  stack : handle;
  logicalId : string
}.

Record BindResult : Type := {
  configData : value;
  authData : value
}.

Record ConfigSetProps : Type := {
  props_configSets : obj (list string);
  props_configs : obj InitConfig.t
}.

(** [a ?? b] on an optional option *)
Definition option_or {A : Type} (a : option A) (b : A) : A :=
  match a with
  | Some x => x
  | None => b
  end.

Module CloudFormationInit.

Record t : Type := {
  _configSets : obj (list string);
  _configs : obj InitConfig.t
}.

(** The private constructor.  [Object.assign] assigns property by
    property; a property [__proto__] of its source would go to the
    accessor of [Object.prototype] and change the prototype of the record,
    which is outside the model. *)
Definition make (configSets : obj (list string)) (configs : obj InitConfig.t)
    : outcome t :=
  if obj_has "__proto__" configSets || obj_has "__proto__" configs then OutOfModel
  else Ok {| _configSets := obj_assign [] configSets;
             _configs := obj_assign [] configs |}.

Definition fromConfigSets (props : ConfigSetProps) : outcome t :=
  make (props_configSets props) (props_configs props).

Definition fromConfig (config' : InitConfig.t) : outcome t :=
  fromConfigSets
    {| props_configSets := [("default", ["config"])];
       props_configs := [("config", config')] |}.

Definition fromElements (elems : list InitElement) : outcome t :=
  fromConfig (InitConfig.make elems).

(** The methods that update the registry return the outcome together
    with the registry afterwards.  Their tests [this._configs[name]] and
    [this._configSets[name]] are lookups through the prototype chain. *)
Definition addConfig (configName : string) (config' : InitConfig.t) (this : t)
    : outcome unit * t :=
  if obj_in configName (_configs this)
  then (Throw (DuplicateConfig configName), this)
  else (Ok tt,
        {| _configSets := _configSets this;
           _configs := obj_set configName config' (_configs this) |}).

Definition addConfigSet (configSetName : string) (configNames' : option (list string))
    (this : t) : outcome unit * t :=
  let configNames := option_or configNames' [] in
  if obj_in configSetName (_configSets this)
  then (Throw (DuplicateConfigSet configSetName), this)
  else
    let unk := filter (fun c => negb (obj_in c (_configs this))) configNames in
    if Nat.ltb 0 (List.length unk)
    then (Throw (UnknownConfigs configSetName unk), this)
    else (Ok tt,
          {| _configSets := obj_set configSetName configNames (_configSets this);
             _configs := _configs this |}).

(** The three intermediate objects of [bind]. *)
Definition nonEmptyConfigs (this : t) : obj InitConfig.t :=
  mapValues (_configs this)
    (fun c => if InitConfig.isEmpty c then None else Some c).

Definition renderedConfigSets (this : t) : obj (list string) :=
  mapValues (_configSets this)
    (fun configNames =>
       Some (filter (fun name => obj_in name (nonEmptyConfigs this)) configNames)).

Definition renderedConfigs (configNameToBindResult : obj InitElementConfig) : obj value :=
  mapValues configNameToBindResult (fun c => defined (config c)).

(** A [Record<string, string[]>] as a document. *)
Definition configSets_value (sets : obj (list string)) : value :=
  VObject (map (fun kv => (fst kv, VArray (map AString (snd kv)))) sets).

(** [mapValues] builds its result by assignment, [ret[k] = mapped]; under
    the name [__proto__] that would reach the accessor of
    [Object.prototype].  A registry with an own property of that name,
    which neither the constructor nor the add methods can make, is outside
    the model. *)
Definition bind (this : t) (scope' : handle) (options : AttachInitOptions.t)
    : M BindResult :=
  if obj_has "__proto__" (_configs this) || obj_has "__proto__" (_configSets this)
  then lift OutOfModel
  else
  (do configNameToBindResult <-
     mapValuesM (nonEmptyConfigs this)
       (fun c => do r <- InitConfig._bind c scope' options; ret (Some r));
   do authData' <-
     lift (reduce_deepMerge
             (map authentication (Object_values configNameToBindResult)));
   ret {| configData :=
            VObject
              (obj_assign
                 [("configSets", configSets_value (renderedConfigSets this))]
                 (renderedConfigs configNameToBindResult));
          authData := authData' |})%M.

Section Attach.
(** Collaborators outside this file: the pseudo parameters of
    [@aws-cdk/core], [JSON.stringify], and the hex SHA-256 digest of
    [crypto]. *)
Variables Aws_REGION Aws_STACK_NAME Aws_STACK_ID : string.
Variable JSON_stringify : value -> string.
Variable sha256_hex : string -> string.

Definition contentHash (content : string) : string := sha256_hex content.

(** [contentHash(JSON.stringify(configData)).substr(0, 16)] *)
Definition fingerprint_of (configData' : value) : string :=
  substring 0 16 (contentHash (JSON_stringify configData')).

Definition _attach (this : t) (attachedResource : CfnResource)
    (attachOptions : AttachInitOptions.t) : M unit :=
  (do bindResult <- bind this (stack attachedResource) attachOptions;
   emit (AddMetadata (resource attachedResource) "AWS::CloudFormation::Init"
           (configData bindResult)) ;;
   let fingerprint := fingerprint_of (configData bindResult) in
   emit (AddToPolicy (AttachInitOptions.instanceRole attachOptions)
           ["cloudformation:DescribeStackResource"; "cloudformation:SignalResource"]
           [Aws_STACK_ID]) ;;
   (if truthy (authData bindResult)
    then emit (AddMetadata (resource attachedResource)
                 "AWS::CloudFormation::Authentication" (authData bindResult))
    else ret tt) ;;
   let resourceLocator :=
     "--region " +++ Aws_REGION +++ " --stack " +++ Aws_STACK_NAME
       +++ " --resource " +++ logicalId attachedResource in
   let configSets :=
     String.concat ","
       (option_or (AttachInitOptions.configSets attachOptions) ["default"]) in
   let printLog := option_or (AttachInitOptions.printLog attachOptions) true in
   (if option_or (AttachInitOptions.embedFingerprint attachOptions) true
    then emit (AddCommands (AttachInitOptions.userData attachOptions)
                 ["# fingerprint: " +++ fingerprint])
    else ret tt) ;;
   match AttachInitOptions.platform attachOptions with
   | WINDOWS =>
       let errCode :=
         if option_or (AttachInitOptions.ignoreFailures attachOptions) false
         then "0" else "$LASTEXITCODE" in
       emit (AddCommands (AttachInitOptions.userData attachOptions)
               (["cfn-init.exe -v " +++ resourceLocator +++ " -c " +++ configSets;
                 "cfn-signal.exe -e " +++ errCode +++ " " +++ resourceLocator]
                ++ (if printLog then ["type C:\cfn\log\cfn-init.log"] else [])))
   | LINUX =>
       let errCode :=
         if option_or (AttachInitOptions.ignoreFailures attachOptions) false
         then "0" else "$?" in
       emit (AddCommands (AttachInitOptions.userData attachOptions)
               (["(";
                 "  set +e";
                 "  /opt/aws/bin/cfn-init -v " +++ resourceLocator +++ " -c " +++ configSets;
                 "  /opt/aws/bin/cfn-signal -e " +++ errCode +++ " " +++ resourceLocator]
                ++ (if printLog then ["  cat /var/log/cfn-init.log >&2"] else [])
                ++ [")"]))
   end)%M.
End Attach.

End CloudFormationInit.

(** ** Well-formedness and sample inputs *)

(** Property names are unique in both records of the registry. *)
Definition wf_registry (this : CloudFormationInit.t) : Prop :=
  NoDup (keys (CloudFormationInit._configSets this)) /\
  NoDup (keys (CloudFormationInit._configs this)).

(** A registry with one empty config and one config set. *)
Definition empty_config : InitConfig.t := InitConfig.make [].

Definition registry_AB : CloudFormationInit.t :=
  {| CloudFormationInit._configSets := [("default", ["A"])];
     CloudFormationInit._configs := [("A", empty_config)] |}.


(** ** Vocabulary of the statements *)

(** The order in which [_bind] goes through the element kinds. *)
Definition bindOrder : list InitElementType :=
  [PACKAGE; GROUP; USER; SOURCE; FILE; COMMAND; SERVICE].

Definition bindRank (ty : InitElementType) : nat :=
  match ty with
  | PACKAGE => 0 | GROUP => 1 | USER => 2 | SOURCE => 3
  | FILE => 4 | COMMAND => 5 | SERVICE => 6
  end.

(** The key under which [_bind] stores the fragment of a kind. *)
Definition pluralName (ty : InitElementType) : string :=
  match ty with
  | PACKAGE => "packages" | GROUP => "groups" | USER => "users"
  | SOURCE => "sources" | FILE => "files" | COMMAND => "commands"
  | SERVICE => "services"
  end.

(** The elements of one kind, in insertion order. *)
Definition ofType (ty : InitElementType) (c : InitConfig.t) : list InitElement :=
  filter (fun elem => InitElementType_eqb (elementType elem) ty) (InitConfig.elements c).

Definition optionsAt (renderOptions : InitBindOptions) (i : nat) : InitBindOptions :=
  {| index := i;
     instanceRole := instanceRole renderOptions;
     platform := platform renderOptions;
     scope := scope renderOptions |}.

(** The calls [e._bind({ index, ... })] for a list of elements numbered
    from [i], and their results. *)
Fixpoint callsFrom (renderOptions : InitBindOptions) (i : nat) (es : list InitElement)
    : list effect :=
  match es with
  | [] => []
  | e :: es' => ElementBind e (optionsAt renderOptions i) :: callsFrom renderOptions (S i) es'
  end.

Fixpoint resultsFrom (renderOptions : InitBindOptions) (i : nat) (es : list InitElement)
    : list InitElementConfig :=
  match es with
  | [] => []
  | e :: es' => element_bind e (optionsAt renderOptions i) :: resultsFrom renderOptions (S i) es'
  end.

Definition bindOptionsOf (scope' : handle) (options : AttachInitOptions.t) : InitBindOptions :=
  {| index := 0;
     instanceRole := AttachInitOptions.instanceRole options;
     platform := AttachInitOptions.platform options;
     scope := scope' |}.

Definition groupCalls (c : InitConfig.t) (scope' : handle) (options : AttachInitOptions.t)
    (ty : InitElementType) : list effect :=
  callsFrom (bindOptionsOf scope' options) 0 (ofType ty c).

(** Kind and index of a logged element binding. *)
Definition callKey (e : effect) : option (InitElementType * nat) :=
  match e with
  | ElementBind el options => Some (elementType el, index options)
  | _ => None
  end.

Definition callRank (e : effect) : nat :=
  match e with
  | ElementBind el _ => bindRank (elementType el)
  | _ => 0
  end.

(** What a computation appends to the log does not depend on the log it
    starts from. *)
Definition log_parametric {A : Type} (m : M A) : Prop :=
  forall log, m log = (fst (m []), log ++ snd (m [])).

(** The result of [bindForType], as a function of the elements. *)
Definition groupResult (c : InitConfig.t) (ty : InitElementType) (ro : InitBindOptions)
    : outcome (option InitElementConfig) :=
  match ofType ty c with
  | [] => Ok None
  | _ :: _ =>
      let! cfg := reduce_deepMerge (map config (resultsFrom ro 0 (ofType ty c))) in
      let! auth := reduce_deepMerge (map authentication (resultsFrom ro 0 (ofType ty c))) in
      Ok (Some {| config := nullish_or cfg (VObject []); authentication := auth |})
  end.

(** A package element and a service element with fixed fragments. *)
Definition pkg_element (name : string) : InitElement :=
  {| elementType := PACKAGE;
     element_bind := fun _ =>
       {| config := VObject [("yum", VObject [(name, VArray [])])];
          authentication := undefined |} |}.

Definition svc_element (name : string) : InitElement :=
  {| elementType := SERVICE;
     element_bind := fun options =>
       {| config := VObject [("sysvinit",
                      VObject [(name, VObject [("enabled", VPrim (PBool true))])])];
          authentication := undefined |} |}.

Definition sample_config : InitConfig.t :=
  InitConfig.make [svc_element "httpd"; pkg_element "httpd"; pkg_element "php"].

Definition sample_options : AttachInitOptions.t :=
  {| AttachInitOptions.instanceRole := 1;
     AttachInitOptions.platform := LINUX;
     AttachInitOptions.userData := 2;
     AttachInitOptions.configSets := None;
     AttachInitOptions.embedFingerprint := None;
     AttachInitOptions.printLog := None;
     AttachInitOptions.ignoreFailures := None |}.

(** The result of [InitConfig._bind], as a function of the elements. *)
Definition configResult (c : InitConfig.t) (scope' : handle) (options : AttachInitOptions.t)
    : outcome InitElementConfig :=
  let ro := bindOptionsOf scope' options in
  let! packageConfig := groupResult c PACKAGE ro in
  let! groupsConfig := groupResult c GROUP ro in
  let! usersConfig := groupResult c USER ro in
  let! sourcesConfig := groupResult c SOURCE ro in
  let! filesConfig := groupResult c FILE ro in
  let! commandsConfig := groupResult c COMMAND ro in
  let! servicesConfig := groupResult c SERVICE ro in
  let! authentication' :=
    reduce_deepMerge
      (map InitConfig.opt_authentication
         [packageConfig; groupsConfig; usersConfig; sourcesConfig;
          filesConfig; commandsConfig; servicesConfig]) in
  Ok {| config :=
          VObject
            [("packages", InitConfig.opt_config packageConfig);
             ("groups", InitConfig.opt_config groupsConfig);
             ("users", InitConfig.opt_config usersConfig);
             ("sources", InitConfig.opt_config sourcesConfig);
             ("files", InitConfig.opt_config filesConfig);
             ("commands", InitConfig.opt_config commandsConfig);
             ("services", InitConfig.opt_config servicesConfig)];
        authentication := authentication' |}.

(** Earlier calls never belong to a later kind than later calls. *)
Definition kindOrdered (calls : list effect) : Prop :=
  StronglySorted (fun a b => callRank a <= callRank b) calls.

(** Whether the catalog holds a config with at least one element under
    this name. *)
Definition nonEmptyIn (this : CloudFormationInit.t) (name : string) : bool :=
  match obj_get name (CloudFormationInit._configs this) with
  | Some c => negb (InitConfig.isEmpty c)
  | None => false
  end.

(** Whether a name listed in a config set stays in its rendered member
    list: the name of a config with elements, or a name that the lookup
    [nonEmptyConfigs[name]] finds in [Object.prototype]. *)
Definition keptIn (this : CloudFormationInit.t) (name : string) : bool :=
  nonEmptyIn this name || inherited_name name.

(** An element of the given kind whose fragment is the empty object. *)
Definition silent_element (ty : InitElementType) : InitElement :=
  {| elementType := ty;
     element_bind := fun _ => {| config := VObject []; authentication := undefined |} |}.

(** The catalog [{A: [package p1], B: []}] with the config set
    [{default: [A, B]}]. *)
Definition registry_example : CloudFormationInit.t :=
  {| CloudFormationInit._configSets := [("default", ["A"; "B"])];
     CloudFormationInit._configs :=
       [("A", InitConfig.make [pkg_element "p1"]); ("B", InitConfig.make [])] |}.

(** The catalog [{toString: []}] with the config set
    [{default: [toString]}], as [fromConfigSets] builds it. *)
Definition registry_toString : CloudFormationInit.t :=
  {| CloudFormationInit._configSets := [("default", ["toString"])];
     CloudFormationInit._configs := [("toString", InitConfig.make [])] |}.

(** A catalog with a non-empty config registered as [configSets]. *)
Definition registry_shadowed : CloudFormationInit.t :=
  {| CloudFormationInit._configSets := [("default", ["configSets"])];
     CloudFormationInit._configs := [("configSets", InitConfig.make [pkg_element "p1"])] |}.

(** What [sample_config] binds to. *)
Definition sample_bound : InitElementConfig :=
  {| config :=
       VObject
         [("packages",
           VObject [("yum", VObject [("httpd", VArray []); ("php", VArray [])])]);
          ("groups", undefined); ("users", undefined); ("sources", undefined);
          ("files", undefined); ("commands", undefined);
          ("services",
           VObject [("sysvinit",
                     VObject [("httpd", VObject [("enabled", VPrim (PBool true))])])])];
     authentication := undefined |}.

(** What [registry_shadowed] renders to: the member list of [default] is
    nowhere in the document. *)
Definition shadowed_rendered : BindResult :=
  {| configData :=
       VObject
         [("configSets",
           VObject
             [("packages", VObject [("yum", VObject [("p1", VArray [])])]);
              ("groups", undefined); ("users", undefined); ("sources", undefined);
              ("files", undefined); ("commands", undefined); ("services", undefined)])];
     authData := undefined |}.

(** What [registry_example] renders to. *)
Definition example_rendered : BindResult :=
  {| configData :=
       VObject
         [("configSets", VObject [("default", VArray [AString "A"])]);
          ("A",
           VObject
             [("packages", VObject [("yum", VObject [("p1", VArray [])])]);
              ("groups", undefined); ("users", undefined); ("sources", undefined);
              ("files", undefined); ("commands", undefined); ("services", undefined)])];
     authData := undefined |}.

(** The form of a hex SHA-256 digest: 64 characters among [0-9a-f]. *)
Definition is_hex_digit (c : ascii) : bool :=
  let n := N_of_ascii c in
  ((48 <=? n)%N && (n <=? 57)%N) || ((97 <=? n)%N && (n <=? 102)%N).

Definition hex_string (s : string) : Prop :=
  Forall (fun c => is_hex_digit c = true) (list_ascii_of_string s).

Definition hex_digest (s : string) : Prop :=
  String.length s = 64 /\ hex_string s.

(** Stand-ins for the collaborators, to run [_attach] on a sample. *)
Definition sample_digest (content : string) : string :=
  "00000000000000000000000000000000" +++ "ffffffffffffffffffffffffffffffff".

Definition sample_stringify (v : value) : string := "{}".

Definition sample_resource : CfnResource :=
  {| resource := 7; stack := 0; logicalId := "Instance" |}.

(** ** Plain fragments *)

(** The value an iteration of the [deepMerge] loop assigns to its key,
    from the value found there ([None] when the key is missing) and the
    value of the source. *)
Definition combine (found' : option value) (val : value) : outcome value :=
  let found := match found' with Some v => v | None => undefined end in
  match val with
  | VArray items =>
      if truthy found && negb (isArray found)
      then Throw (MergeArrayIntoNonArray items found)
      else
        let! old := spread (nullish_or found (VArray [])) in
        Ok (VArray (Array_from_Set (old ++ items)))
  | VObject _ => deepMergeInto (nullish_or found (VObject [])) val
  | VPrim _ => Ok val
  end.

Fixpoint unique (ks : list string) : bool :=
  match ks with
  | [] => true
  | k :: ks' => negb (existsb (String.eqb k) ks') && unique ks'
  end.

(** Plain documents: no [undefined], [null] or empty string anywhere as a
    property value, no property named like a member of [Object.prototype],
    no property name twice.  Arrays are unrestricted. *)
Fixpoint plain (v : value) : bool :=
  match v with
  | VPrim PUndefined | VPrim PNull => false
  | VPrim (PString s) => negb (String.eqb s "")
  | VPrim _ => true
  | VArray _ => true
  | VObject fields =>
      unique (map fst fields)
      && (fix all (l : list (string * value)) : bool :=
            match l with
            | [] => true
            | (k, v') :: l' => negb (inherited_name k) && plain v' && all l'
            end) fields
  end.

(** A fragment as [reduce] meets it: absent, or a plain object. *)
Definition plain_fragment (v : value) : bool :=
  match v with
  | VPrim PUndefined => true
  | VObject _ => plain v
  | _ => false
  end.

Fixpoint vsize (v : value) : nat :=
  match v with
  | VObject fields =>
      S ((fix total (l : list (string * value)) : nat :=
            match l with
            | [] => 0
            | (_, v') :: l' => vsize v' + total l'
            end) fields)
  | _ => 1
  end.

Definition esize (es : list (string * value)) : nat :=
  list_sum (map (fun kv => vsize (snd kv)) es).

(** The lookup [o[k]] stays within [o]: [k] is an own property of [o], or
    no member of [Object.prototype] has that name. *)
Definition own_lookup {A : Type} (k : string) (o : obj A) : bool :=
  obj_has k o || negb (inherited_name k).

(** The names of an object after the assignment [o[k] = v], from the
    names before it. *)
Fixpoint insert_key (n : N) (k : string) (ks : list string) : list string :=
  match ks with
  | [] => [k]
  | k' :: ks' =>
      match array_index k' with
      | Some m => if (m <? n)%N then k' :: insert_key n k ks' else k :: ks
      | None => k :: ks
      end
  end.

Definition add_key (ks : list string) (k : string) : list string :=
  if existsb (String.eqb k) ks then ks
  else match array_index k with
       | Some n => insert_key n k ks
       | None => ks ++ [k]
       end.

(** The names after assigning, in their order, the names of a source. *)
Definition merge_keys (ks src_keys : list string) : list string :=
  fold_left add_key src_keys ks.

(** Entries with distinct names and values that are not [undefined]. *)
Definition defined_entries (es : list (string * value)) : Prop :=
  NoDup (keys es) /\ forall k v, In (k, v) es -> v <> undefined.

(** Entries with names that are not array indices and values that are not
    [undefined]. *)
Definition named_entries (es : list (string * value)) : Prop :=
  NoDup (keys es) /\
  forall k v, In (k, v) es -> array_index k = None /\ v <> undefined.

(** Three documents on which [deepMerge] is not associative. *)
Definition doc_x : value := VObject [("k", VObject [("x", VPrim (PNumber 1))])].
Definition doc_null : value := VObject [("k", null)].
Definition doc_y : value := VObject [("k", VObject [("y", VPrim (PNumber 2))])].

(** The value found under a key, if any, is plain. *)
Definition plain_found (found : option value) : Prop :=
  match found with
  | Some v => plain v = true
  | None => True
  end.

(** The target of the recursive call for a key. *)
Definition targetOf (found : option value) : value :=
  nullish_or (match found with Some v => v | None => undefined end) (VObject []).

(** Three plain documents with array-index names, and their merge. *)
Definition frag_p : value :=
  VObject [("10", VObject [("x", VPrim (PNumber 1))]); ("k", VArray [AString "a"])].
Definition frag_q : value :=
  VObject [("2", VString "two"); ("10", VObject [("y", VPrim (PNumber 2))])].
Definition frag_r : value :=
  VObject [("1", VPrim (PBool true)); ("k", VArray [AString "c"])].
Definition frag_pqr : value :=
  VObject [("1", VPrim (PBool true)); ("2", VString "two");
           ("10", VObject [("x", VPrim (PNumber 1)); ("y", VPrim (PNumber 2))]);
           ("k", VArray [AString "a"; AString "c"])].

(** Three plain documents. *)
Definition frag_a : value :=
  VObject [("k", VArray [AString "a"]); ("m", VObject [("x", VPrim (PNumber 1))])].
Definition frag_b : value :=
  VObject [("k", VArray [AString "b"]); ("m", VObject [("y", VPrim (PNumber 2))])].
Definition frag_c : value :=
  VObject [("k", VArray [AString "a"; AString "c"]); ("n", VString "s")].
Definition frag_abc : value :=
  VObject [("k", VArray [AString "a"; AString "b"; AString "c"]);
           ("m", VObject [("x", VPrim (PNumber 1)); ("y", VPrim (PNumber 2))]);
           ("n", VString "s")].

(** ** Further vocabulary *)

(** Every member of every config set names a config of the catalog. *)
Definition refs_closed (this : CloudFormationInit.t) : Prop :=
  forall s members n,
    obj_get s (CloudFormationInit._configSets this) = Some members ->
    In n members ->
    In n (keys (CloudFormationInit._configs this)).

(** Every member of every config set is found by the lookup that
    [addConfigSet] makes in the catalog: it names a config, or a member of
    [Object.prototype]. *)
Definition refs_found (this : CloudFormationInit.t) : Prop :=
  forall s members n,
    obj_get s (CloudFormationInit._configSets this) = Some members ->
    In n members ->
    obj_in n (CloudFormationInit._configs this) = true.

(** The properties of a registry with a config set that lists a config
    and an unknown name. *)
Definition props_dangling : ConfigSetProps :=
  {| props_configSets := [("default", ["A"; "ghost"])];
     props_configs := [("A", InitConfig.make [pkg_element "p1"])] |}.

(** The registry without configs and config sets. *)
Definition registry_empty : CloudFormationInit.t :=
  {| CloudFormationInit._configSets := []; CloudFormationInit._configs := [] |}.

(** The entries that [mapValues] keeps, in the order of the source. *)
Definition mapped_entries {A B : Type} (fn : A -> option B) (xs : obj A) : obj B :=
  flat_map
    (fun kv => match fn (snd kv) with
               | Some b => [(fst kv, b)]
               | None => []
               end)
    xs.

(** An object with an array-index name and an undefined image. *)
Definition sample_record : obj value :=
  [("7", VString "seven"); ("b", undefined); ("a", VString "x")].

Definition isElementBind (e : effect) : bool :=
  match e with
  | ElementBind _ _ => true
  | _ => false
  end.

(** All the calls of one config, kind by kind. *)
Definition configCalls (sc : handle) (options : AttachInitOptions.t) (c : InitConfig.t)
    : list effect :=
  List.concat (map (groupCalls c sc options) bindOrder).

(** The same package element in two configs and a service element. *)
Definition registry_two : CloudFormationInit.t :=
  {| CloudFormationInit._configSets := [("default", ["web"; "db"])];
     CloudFormationInit._configs :=
       [("web", sample_config); ("db", InitConfig.make [pkg_element "mysql"])] |}.

(** The exit status handed to the signal command. *)
Definition signalCode (options : AttachInitOptions.t) : string :=
  if option_or (AttachInitOptions.ignoreFailures options) false then "0"
  else match AttachInitOptions.platform options with
       | WINDOWS => "$LASTEXITCODE"
       | LINUX => "$?"
       end.

(** The two tools, as the commands name them on each platform. *)
Definition initTool (p : InitPlatform) : string :=
  match p with
  | WINDOWS => "cfn-init.exe"
  | LINUX => "  /opt/aws/bin/cfn-init"
  end.

Definition signalTool (p : InitPlatform) : string :=
  match p with
  | WINDOWS => "cfn-signal.exe"
  | LINUX => "  /opt/aws/bin/cfn-signal"
  end.

Definition logDump (p : InitPlatform) : string :=
  match p with
  | WINDOWS => "type C:\cfn\log\cfn-init.log"
  | LINUX => "  cat /var/log/cfn-init.log >&2"
  end.

Definition windows_options : AttachInitOptions.t :=
  {| AttachInitOptions.instanceRole := 1;
     AttachInitOptions.platform := WINDOWS;
     AttachInitOptions.userData := 2;
     AttachInitOptions.configSets := Some ["a"; "b"];
     AttachInitOptions.embedFingerprint := Some false;
     AttachInitOptions.printLog := Some false;
     AttachInitOptions.ignoreFailures := Some true |}.

(** A registry in which a merge throws: the two file elements give the
    same key an array and a string. *)
Definition clash_element (v : value) : InitElement :=
  {| elementType := FILE;
     element_bind := fun _ =>
       {| config := VObject [("k", v)]; authentication := undefined |} |}.

Definition registry_clash : CloudFormationInit.t :=
  {| CloudFormationInit._configSets := [("default", ["config"])];
     CloudFormationInit._configs :=
       [("config",
         InitConfig.make [clash_element (VString "s"); clash_element (VArray [AString "a"])])] |}.

(** A fragment as the elements and the fold hand it around: absent, or an
    object. *)
Definition is_fragment (v : value) : bool :=
  match v with
  | VPrim PUndefined => true
  | VObject _ => true
  | _ => false
  end.

(** Two documents and their merge; the array-index name comes first. *)
Definition fields_target : list (string * value) :=
  [("mode", VString "000644"); ("owner", VString "root");
   ("tags", VArray [AString "a"]); ("env", VObject [("A", VString "1")])].

Definition fields_source : list (string * value) :=
  [("mode", VString "000600"); ("group", undefined);
   ("env", VObject [("B", VString "2")]); ("7", VPrim (PBool true))].

Definition fields_merged : list (string * value) :=
  [("7", VPrim (PBool true)); ("mode", VString "000600"); ("owner", VString "root");
   ("tags", VArray [AString "a"]);
   ("env", VObject [("A", VString "1"); ("B", VString "2")])].

(** No object of the document has a property name twice. *)
Fixpoint unique_names (v : value) : bool :=
  match v with
  | VObject fields =>
      unique (map fst fields)
      && (fix all (l : list (string * value)) : bool :=
            match l with
            | [] => true
            | (_, v') :: l' => unique_names v' && all l'
            end) fields
  | _ => true
  end.

(** The elements of a list in order of first occurrence: the head, then
    the first occurrences of the rest without the head. *)
Fixpoint first_occurrences (xs : list atom) : list atom :=
  match xs with
  | [] => []
  | x :: rest => x :: filter (fun y => negb (sameValueZero x y)) (first_occurrences rest)
  end.

(** * Properties *)

Unset Implicit Arguments.

(** ** Objects *)

Section ObjectFacts.
Variable A : Type.
Implicit Types (o : obj A) (k : string) (v : A).

Lemma obj_get_In_keys k o :
  obj_get k o <> None <-> In k (keys o).
Proof.
  induction o as [|[k' v'] o IH]; simpl.
  - split; [congruence | tauto].
  - destruct (String.eqb_spec k k') as [->|Hne].
    + split; [auto | congruence].
    + rewrite IH. split; [auto | intros [H|H]; [congruence | exact H]].
Qed.

Lemma obj_has_In_keys k o :
  obj_has k o = true <-> In k (keys o).
Proof.
  rewrite <- obj_get_In_keys. unfold obj_has.
  destruct (obj_get k o); split; congruence.
Qed.

Lemma obj_has_false k o :
  obj_has k o = false <-> ~ In k (keys o).
Proof.
  rewrite <- obj_has_In_keys. destruct (obj_has k o); split; congruence.
Qed.

Lemma obj_get_None k o :
  obj_get k o = None <-> ~ In k (keys o).
Proof.
  rewrite <- obj_get_In_keys. destruct (obj_get k o); split; try congruence.
  intros H. exfalso. apply H. congruence.
Qed.

Lemma obj_get_Some_In k v o :
  obj_get k o = Some v -> In (k, v) o.
Proof.
  induction o as [|[k' v'] o IH]; simpl; [congruence|].
  destruct (String.eqb_spec k k') as [->|Hne].
  - intros [= ->]. now left.
  - intros H. right. auto.
Qed.

Lemma In_obj_get k v o :
  NoDup (keys o) -> In (k, v) o -> obj_get k o = Some v.
Proof.
  induction o as [|[k' v'] o IH]; simpl; [tauto|].
  intros Hnd [H|H].
  - injection H as -> ->. now rewrite String.eqb_refl.
  - inversion Hnd as [|? ? Hnot Hnd']; subst.
    destruct (String.eqb_spec k k') as [->|Hne].
    + exfalso. apply Hnot. change k' with (fst (k', v)). now apply in_map.
    + auto.
Qed.

Lemma obj_get_app k o1 o2 :
  obj_get k (o1 ++ o2) =
  match obj_get k o1 with
  | Some v => Some v
  | None => obj_get k o2
  end.
Proof.
  induction o1 as [|[k' v'] o1 IH]; simpl; [reflexivity|].
  now destruct (String.eqb k k').
Qed.

Lemma keys_replace k v o : keys (obj_replace k v o) = keys o.
Proof.
  induction o as [|[k' v'] o IH]; simpl; [reflexivity|].
  destruct (String.eqb k k'); simpl; [reflexivity | now rewrite IH].
Qed.

Lemma obj_get_replace k k' v o :
  obj_get k' (obj_replace k v o) =
  if String.eqb k' k then (if obj_has k o then Some v else None)
  else obj_get k' o.
Proof.
  unfold obj_has.
  induction o as [|[k0 v0] o IH]; simpl.
  - now destruct (String.eqb k' k).
  - destruct (String.eqb_spec k k0) as [->|Hne]; simpl.
    + destruct (String.eqb_spec k' k0); reflexivity.
    + rewrite IH. destruct (String.eqb_spec k' k) as [->|Hne'].
      * destruct (String.eqb_spec k k0); [contradiction | reflexivity].
      * reflexivity.
Qed.

Lemma obj_get_insert_index n k k' v o :
  obj_get k o = None ->
  obj_get k' (obj_insert_index n k v o) =
  if String.eqb k' k then Some v else obj_get k' o.
Proof.
  induction o as [|[k0 v0] o IH]; simpl.
  - destruct (String.eqb k' k); reflexivity.
  - destruct (String.eqb_spec k k0) as [->|Hne0]; [congruence|]. intros Hnone.
    destruct (array_index k0) as [m|]; [destruct (m <? n)%N|]; simpl;
      try rewrite (IH Hnone);
      destruct (String.eqb_spec k' k) as [->|Hne]; try reflexivity.
    destruct (String.eqb_spec k k0); [contradiction | reflexivity].
Qed.

Lemma keys_insert_index_In n k v o x :
  In x (keys (obj_insert_index n k v o)) <-> x = k \/ In x (keys o).
Proof.
  induction o as [|[k0 v0] o IH]; simpl.
  - intuition.
  - destruct (array_index k0) as [m|]; [destruct (m <? n)%N|]; simpl;
      try rewrite IH; intuition.
Qed.

Lemma NoDup_keys_insert_index n k v o :
  ~ In k (keys o) -> NoDup (keys o) -> NoDup (keys (obj_insert_index n k v o)).
Proof.
  induction o as [|[k0 v0] o IH]; simpl; intros Hnot Hnd.
  - constructor; [tauto | constructor].
  - inversion Hnd as [|? ? H0 Hnd']; subst.
    destruct (array_index k0) as [m|]; [destruct (m <? n)%N|]; simpl.
    + constructor.
      * rewrite keys_insert_index_In. intros [->|H]; tauto.
      * apply IH; tauto.
    + constructor; [simpl; tauto | now constructor].
    + constructor; [simpl; tauto | now constructor].
Qed.

(** Reading a property after an assignment. *)
Lemma obj_get_set k k' v o :
  obj_get k' (obj_set k v o) = if String.eqb k' k then Some v else obj_get k' o.
Proof.
  unfold obj_set. destruct (obj_has k o) eqn:Hhas.
  - rewrite obj_get_replace, Hhas. reflexivity.
  - assert (Hnone : obj_get k o = None).
    { unfold obj_has in Hhas. destruct (obj_get k o); congruence. }
    destruct (array_index k) as [n|].
    + now rewrite obj_get_insert_index.
    + rewrite obj_get_app. simpl.
      destruct (String.eqb_spec k' k) as [->|Hne].
      * now rewrite Hnone.
      * now destruct (obj_get k' o).
Qed.

Lemma keys_set_In k v o x :
  In x (keys (obj_set k v o)) <-> x = k \/ In x (keys o).
Proof.
  rewrite <- !obj_get_In_keys, obj_get_set.
  destruct (String.eqb_spec x k) as [->|Hne].
  - split; [auto | congruence].
  - split; [auto | intros [H|H]; [contradiction | exact H]].
Qed.

Lemma NoDup_keys_set k v o :
  NoDup (keys o) -> NoDup (keys (obj_set k v o)).
Proof.
  intros Hnd. unfold obj_set. destruct (obj_has k o) eqn:Hhas.
  - now rewrite keys_replace.
  - apply obj_has_false in Hhas. destruct (array_index k) as [n|].
    + now apply NoDup_keys_insert_index.
    + unfold keys. rewrite map_app. simpl.
      apply NoDup_app; [exact Hnd | constructor; [tauto | constructor] |].
      intros x Hx [<-|[]]. contradiction.
Qed.

End ObjectFacts.

(** ** mapValues and spread *)

Section MapValuesFacts.
Variables A B : Type.
Variable fn : A -> option B.

Let step (ret : obj B) (kv : string * A) : obj B :=
  match fn (snd kv) with
  | Some mapped => obj_set (fst kv) mapped ret
  | None => ret
  end.

Lemma mapValues_fold_NoDup (xs : obj A) (acc : obj B) :
  NoDup (keys acc) -> NoDup (keys (fold_left step xs acc)).
Proof.
  revert acc. induction xs as [|[k v] xs IH]; simpl; intros acc Hnd; [exact Hnd|].
  apply IH. unfold step. simpl. destruct (fn v); [now apply NoDup_keys_set | exact Hnd].
Qed.

Lemma mapValues_fold_get (xs : obj A) (acc : obj B) (k : string) :
  NoDup (keys xs) ->
  obj_get k (fold_left step xs acc) =
  match obj_get k xs with
  | Some v => match fn v with Some b => Some b | None => obj_get k acc end
  | None => obj_get k acc
  end.
Proof.
  revert acc. induction xs as [|[k' v'] xs IH]; simpl; intros acc Hnd; [reflexivity|].
  inversion Hnd as [|? ? Hnot Hnd']; subst.
  rewrite (IH _ Hnd'). unfold step. simpl.
  destruct (String.eqb_spec k k') as [->|Hne].
  - apply obj_get_None in Hnot. rewrite Hnot.
    destruct (fn v'); [|reflexivity].
    now rewrite obj_get_set, String.eqb_refl.
  - destruct (fn v'); [|reflexivity].
    rewrite obj_get_set. apply String.eqb_neq in Hne. now rewrite Hne.
Qed.

Lemma mapValues_NoDup (xs : obj A) : NoDup (keys (mapValues xs fn)).
Proof. apply mapValues_fold_NoDup. constructor. Qed.

(** [mapValues(xs, fn)[k]] is [fn(xs[k])] when that is defined. *)
Lemma mapValues_get (xs : obj A) (k : string) :
  NoDup (keys xs) ->
  obj_get k (mapValues xs fn) =
  match obj_get k xs with
  | Some v => fn v
  | None => None
  end.
Proof.
  intros Hnd. unfold mapValues. fold step. rewrite mapValues_fold_get by exact Hnd.
  destruct (obj_get k xs) as [v|]; [|reflexivity]. now destruct (fn v).
Qed.
End MapValuesFacts.

Section AssignFacts.
Variable A : Type.

Lemma obj_assign_NoDup (target source : obj A) :
  NoDup (keys target) -> NoDup (keys (obj_assign target source)).
Proof.
  unfold obj_assign. revert target.
  induction source as [|[k v] source IH]; simpl; intros target Hnd; [exact Hnd|].
  apply IH. now apply NoDup_keys_set.
Qed.

Lemma obj_assign_get (target source : obj A) (k : string) :
  NoDup (keys source) ->
  obj_get k (obj_assign target source) =
  match obj_get k source with
  | Some v => Some v
  | None => obj_get k target
  end.
Proof.
  unfold obj_assign. revert target.
  induction source as [|[k' v'] source IH]; simpl; intros target Hnd; [reflexivity|].
  inversion Hnd as [|? ? Hnot Hnd']; subst. rewrite (IH _ Hnd').
  destruct (String.eqb_spec k k') as [->|Hne].
  - apply obj_get_None in Hnot. rewrite Hnot.
    now rewrite obj_get_set, String.eqb_refl.
  - destruct (obj_get k source); [reflexivity|].
    rewrite obj_get_set. apply String.eqb_neq in Hne. now rewrite Hne.
Qed.

End AssignFacts.

(** ** Lookups through the prototype chain *)

Lemma obj_in_own {A : Type} (k : string) (o : obj A) :
  In k (keys o) -> obj_in k o = true.
Proof. intros H. unfold obj_in. apply obj_has_In_keys in H. now rewrite H. Qed.

Lemma obj_in_false {A : Type} (k : string) (o : obj A) :
  obj_in k o = false <-> ~ In k (keys o) /\ inherited_name k = false.
Proof. unfold obj_in. now rewrite orb_false_iff, obj_has_false. Qed.

Lemma obj_in_plain_name {A : Type} (k : string) (o : obj A) :
  inherited_name k = false -> obj_in k o = obj_has k o.
Proof. intros H. unfold obj_in. rewrite H. apply orb_false_r. Qed.

(** ** The registry *)

Lemma make_wf configSets configs this :
  CloudFormationInit.make configSets configs = Ok this -> wf_registry this.
Proof.
  unfold CloudFormationInit.make. destruct (_ || _); [discriminate|].
  intros [= <-]. split; simpl; apply obj_assign_NoDup; constructor.
Qed.

Lemma addConfig_wf configName c this :
  wf_registry this -> wf_registry (snd (CloudFormationInit.addConfig configName c this)).
Proof.
  intros [H1 H2]. unfold CloudFormationInit.addConfig.
  destruct (obj_in configName _); simpl; [now split|].
  split; simpl; [exact H1 | now apply NoDup_keys_set].
Qed.

Lemma addConfigSet_wf configSetName configNames this :
  wf_registry this ->
  wf_registry (snd (CloudFormationInit.addConfigSet configSetName configNames this)).
Proof.
  intros [H1 H2]. unfold CloudFormationInit.addConfigSet.
  destruct (obj_in configSetName _); simpl; [now split|].
  destruct (Nat.ltb 0 _); simpl; [now split|].
  split; simpl; [now apply NoDup_keys_set | exact H2].
Qed.

(** C7. Registering a config (with [addConfig]) or a config set (with
    [addConfigSet]) under a name that is already registered throws the
    duplicate-name error and leaves both records of the registry as they
    were. *)
Theorem duplicate_name_rejected (this : CloudFormationInit.t) :
  (forall configName config',
      In configName (keys (CloudFormationInit._configs this)) ->
      CloudFormationInit.addConfig configName config' this
      = (Throw (DuplicateConfig configName), this)) /\
  (forall configSetName configNames,
      In configSetName (keys (CloudFormationInit._configSets this)) ->
      CloudFormationInit.addConfigSet configSetName configNames this
      = (Throw (DuplicateConfigSet configSetName), this)).
Proof.
  split.
  - intros configName config' Hin. unfold CloudFormationInit.addConfig.
    now rewrite (obj_in_own _ _ Hin).
  - intros configSetName configNames Hin. unfold CloudFormationInit.addConfigSet.
    now rewrite (obj_in_own _ _ Hin).
Qed.

Lemma duplicate_name_rejected_witness :
  CloudFormationInit.addConfig "A" empty_config registry_AB
  = (Throw (DuplicateConfig "A"), registry_AB) /\
  CloudFormationInit.addConfigSet "default" (Some ["A"]) registry_AB
  = (Throw (DuplicateConfigSet "default"), registry_AB).
Proof.
  split.
  - apply (proj1 (duplicate_name_rejected registry_AB)). simpl. auto.
  - apply (proj2 (duplicate_name_rejected registry_AB)). simpl. auto.
Defined.

(** C8, counterexample.  When the name of the new config set is already
    taken, a reference to an unknown config does not produce the
    unknown-reference error: the duplicate-name check comes first. *)
Lemma unknown_reference_masked_by_duplicate :
  In "default" (keys (CloudFormationInit._configSets registry_AB)) /\
  ~ In "nope" (keys (CloudFormationInit._configs registry_AB)) /\
  CloudFormationInit.addConfigSet "default" (Some ["nope"]) registry_AB
  = (Throw (DuplicateConfigSet "default"), registry_AB) /\
  forall unk,
    fst (CloudFormationInit.addConfigSet "default" (Some ["nope"]) registry_AB)
    <> Throw (UnknownConfigs "default" unk).
Proof.
  repeat split.
  - simpl. auto.
  - simpl. intros [H|[]]. discriminate H.
  - intros unk. simpl. discriminate.
Qed.

(** C8, amended.  The names here are ordinary ones: neither [name] nor an
    entry of [configNames] is the name of a member of [Object.prototype].
    When [name] is not yet a config set and some entry of [configNames]
    is not in the catalog, [addConfigSet] throws the unknown-reference
    error; the error carries exactly the entries of [configNames] that are
    not in the catalog (all of them, in their order), and the registry is
    left as it was. *)
Theorem unknown_references_reported (this : CloudFormationInit.t)
    (name : string) (configNames : list string) :
  inherited_name name = false ->
  (forall c, In c configNames -> inherited_name c = false) ->
  ~ In name (keys (CloudFormationInit._configSets this)) ->
  (exists c, In c configNames /\ ~ In c (keys (CloudFormationInit._configs this))) ->
  exists unk,
    CloudFormationInit.addConfigSet name (Some configNames) this
    = (Throw (UnknownConfigs name unk), this) /\
    unk = filter (fun c => negb (obj_has c (CloudFormationInit._configs this))) configNames /\
    forall c, In c unk <->
              In c configNames /\ ~ In c (keys (CloudFormationInit._configs this)).
Proof.
  intros Hname Hnames Hfresh [c [Hc Hunk]].
  set (unk := filter (fun c => negb (obj_has c (CloudFormationInit._configs this))) configNames).
  assert (Hspec : forall x, In x unk <->
            In x configNames /\ ~ In x (keys (CloudFormationInit._configs this))).
  { intros x. unfold unk. rewrite filter_In, negb_true_iff, obj_has_false. tauto. }
  exists unk. split; [|split; [reflexivity | exact Hspec]].
  unfold CloudFormationInit.addConfigSet. simpl.
  rewrite (obj_in_plain_name _ _ Hname).
  apply obj_has_false in Hfresh. rewrite Hfresh.
  assert (Hfilter : filter (fun c => negb (obj_in c (CloudFormationInit._configs this)))
                      configNames = unk).
  { unfold unk. apply filter_ext_in. intros x Hx.
    now rewrite (obj_in_plain_name _ _ (Hnames x Hx)). }
  rewrite Hfilter.
  assert (Hin : In c unk) by (apply Hspec; tauto).
  destruct unk as [|u unk']; [destruct Hin | reflexivity].
Qed.

Lemma unknown_references_reported_witness :
  exists unk,
    CloudFormationInit.addConfigSet "other" (Some ["x"; "A"; "y"]) registry_AB
    = (Throw (UnknownConfigs "other" unk), registry_AB) /\
    unk = filter (fun c => negb (obj_has c (CloudFormationInit._configs registry_AB)))
            ["x"; "A"; "y"] /\
    forall c, In c unk <->
              In c ["x"; "A"; "y"] /\
              ~ In c (keys (CloudFormationInit._configs registry_AB)).
Proof.
  apply (unknown_references_reported registry_AB "other" ["x"; "A"; "y"]).
  - reflexivity.
  - intros c [<-|[<-|[<-|[]]]]; reflexivity.
  - simpl. intros [H|[]]. discriminate H.
  - exists "x". split; [simpl; auto|]. simpl. intros [H|[]]. discriminate H.
Defined.

(** A listed name that [Object.prototype] knows passes for a config: it
    is not reported, and alone it lets the config set be registered. *)
Example inherited_name_passes_for_a_config :
  CloudFormationInit.addConfigSet "s" (Some ["constructor"; "nope"]) registry_AB
  = (Throw (UnknownConfigs "s" ["nope"]), registry_AB) /\
  fst (CloudFormationInit.addConfigSet "s" (Some ["constructor"]) registry_AB) = Ok tt.
Proof. split; reflexivity. Qed.


(** ** Logged computations *)

Lemma parametric_ret {A : Type} (a : A) : log_parametric (ret a).
Proof. intros log. unfold ret. simpl. now rewrite app_nil_r. Qed.

Lemma parametric_emit (e : effect) : log_parametric (emit e).
Proof. intros log. reflexivity. Qed.

Lemma parametric_lift {A : Type} (o : outcome A) : log_parametric (lift o).
Proof. intros log. unfold lift. simpl. now rewrite app_nil_r. Qed.

Lemma parametric_mbind {A B : Type} (m : M A) (f : A -> M B) :
  log_parametric m -> (forall a, log_parametric (f a)) -> log_parametric (mbind m f).
Proof.
  intros Hm Hf log. unfold mbind. rewrite (Hm log).
  destruct (m []) as [[a| e |] d]; simpl.
  - rewrite (Hf a (log ++ d)), (Hf a d). simpl. now rewrite app_assoc.
  - reflexivity.
  - reflexivity.
Qed.

Create HintDb parametric.
#[local] Hint Resolve parametric_ret parametric_emit parametric_lift parametric_mbind
  : parametric.

Lemma parametric_if {A : Type} (b : bool) (m1 m2 : M A) :
  log_parametric m1 -> log_parametric m2 -> log_parametric (if b then m1 else m2).
Proof. now destruct b. Qed.

Lemma parametric_bindElements ro i es : log_parametric (InitConfig.bindElements ro i es).
Proof.
  revert i. induction es as [|e es IH]; intros i; simpl.
  - apply parametric_ret.
  - apply parametric_mbind; [apply parametric_emit|]. intros _.
    apply parametric_mbind; [apply IH|]. intros rs. apply parametric_ret.
Qed.

Lemma parametric_bindForType c ty ro : log_parametric (InitConfig.bindForType c ty ro).
Proof.
  unfold InitConfig.bindForType. apply parametric_if; [auto with parametric|].
  apply parametric_mbind; [apply parametric_bindElements|]. intros rs.
  repeat (apply parametric_mbind; [auto with parametric|]; intros ?).
  auto with parametric.
Qed.

Lemma parametric_config_bind c sc options : log_parametric (InitConfig._bind c sc options).
Proof.
  unfold InitConfig._bind.
  repeat (apply parametric_mbind; [apply parametric_bindForType|]; intros ?).
  apply parametric_mbind; auto with parametric.
Qed.

Lemma parametric_mapValuesM_from {A B : Type} (fn : A -> M (option B)) xs acc :
  (forall a, log_parametric (fn a)) -> log_parametric (mapValuesM_from fn xs acc).
Proof.
  intros Hfn. revert acc. induction xs as [|[k v] xs IH]; intros acc; simpl.
  - auto with parametric.
  - apply parametric_mbind; [apply Hfn|]. intros mapped. apply IH.
Qed.

Lemma parametric_registry_bind this sc options :
  log_parametric (CloudFormationInit.bind this sc options).
Proof.
  unfold CloudFormationInit.bind, mapValuesM.
  apply parametric_if; [apply parametric_lift|].
  apply parametric_mbind.
  - apply parametric_mapValuesM_from. intros c.
    apply parametric_mbind; [apply parametric_config_bind | auto with parametric].
  - intros ?. apply parametric_mbind; auto with parametric.
Qed.

(** ** Binding one config *)

Lemma bindElements_run ro i es log :
  InitConfig.bindElements ro i es log
  = (Ok (resultsFrom ro i es), log ++ callsFrom ro i es).
Proof.
  revert i log. induction es as [|e es IH]; intros i log; simpl.
  - unfold ret. now rewrite app_nil_r.
  - unfold mbind, emit. rewrite IH. unfold ret. simpl.
    now rewrite <- app_assoc.
Qed.

Lemma bindForType_run c ty ro log :
  InitConfig.bindForType c ty ro log
  = (groupResult c ty ro, log ++ callsFrom ro 0 (ofType ty c)).
Proof.
  unfold InitConfig.bindForType, groupResult. fold (ofType ty c).
  destruct (ofType ty c) as [|e es] eqn:Hgroup.
  - simpl. unfold ret. now rewrite app_nil_r.
  - cbn [List.length Nat.eqb]. unfold mbind at 1. rewrite bindElements_run.
    unfold mbind, lift, ret, obind.
    destruct (reduce_deepMerge (map config (resultsFrom ro 0 (e :: es)))) as [cfg| |];
      try reflexivity.
    destruct (reduce_deepMerge (map authentication (resultsFrom ro 0 (e :: es))));
      reflexivity.
Qed.

(** The kinds before the last one bound have merged. *)
Ltac prefix_kinds :=
  let j := fresh "j" in
  let ty := fresh "ty" in
  let Hj := fresh "Hj" in
  let Hlt := fresh "Hlt" in
  intros j ty Hj Hlt;
  do 7 (destruct j as [|j];
        [first [lia | simpl in Hj; injection Hj as <-; eexists; eassumption] |]);
  lia.

Ltac bind_step k ty :=
  unfold mbind at 1; rewrite bindForType_run;
  match goal with
  | |- context [groupResult ?c ty ?ro] =>
      let H := fresh "Hg" in
      destruct (groupResult c ty ro) eqn:H;
      [ | exists k; split; [lia|]; split;
          [simpl; unfold groupCalls; rewrite ?app_nil_r, <- ?app_assoc; reflexivity|];
          split; [discriminate|]; split;
          [prefix_kinds
          | intros _; exists ty; split; [reflexivity|]; split; [lia|];
            intros g; rewrite H; discriminate] ..]
  end.

(** [_bind] goes through the kinds in order and stops at the first whose
    fragments do not merge; [m] counts the kinds whose elements it has
    bound by then. *)
Lemma config_bind_stops c sc options log :
  exists m,
    m <= 7 /\
    InitConfig._bind c sc options log
    = (configResult c sc options,
       log ++ List.concat (map (groupCalls c sc options) (firstn m bindOrder))) /\
    (forall r, configResult c sc options = Ok r -> m = 7) /\
    (forall j ty,
        nth_error bindOrder j = Some ty -> j + 1 < m ->
        exists g, groupResult c ty (bindOptionsOf sc options) = Ok g) /\
    (m < 7 ->
     exists ty,
       nth_error bindOrder (m - 1) = Some ty /\ 1 <= m /\
       forall g, groupResult c ty (bindOptionsOf sc options) <> Ok g).
Proof.
  unfold InitConfig._bind, configResult. fold (bindOptionsOf sc options).
  set (ro := bindOptionsOf sc options).
  bind_step 1 PACKAGE. bind_step 2 GROUP. bind_step 3 USER. bind_step 4 SOURCE.
  bind_step 5 FILE. bind_step 6 COMMAND. bind_step 7 SERVICE.
  exists 7. split; [lia|]. split; [|split; [reflexivity|split; [prefix_kinds | lia]]].
  unfold mbind, lift, ret. cbn [map firstn bindOrder List.concat obind].
  unfold groupCalls. fold ro. rewrite ?app_nil_r, <- ?app_assoc.
  match goal with
  | |- context [reduce_deepMerge ?l] => destruct (reduce_deepMerge l)
  end; reflexivity.
Qed.

Lemma config_bind_run c sc options log :
  exists m,
    m <= 7 /\
    InitConfig._bind c sc options log
    = (configResult c sc options,
       log ++ List.concat (map (groupCalls c sc options) (firstn m bindOrder))) /\
    (forall r, configResult c sc options = Ok r -> m = 7).
Proof.
  destruct (config_bind_stops c sc options log) as [m [Hm [Hrun [Hok _]]]].
  exists m. auto.
Qed.

Lemma nth_error_callsFrom ro i es j :
  nth_error (callsFrom ro i es) j
  = option_map (fun e => ElementBind e (optionsAt ro (i + j))) (nth_error es j).
Proof.
  revert i j. induction es as [|e es IH]; intros i j; simpl.
  - now destruct j.
  - destruct j as [|j]; simpl.
    + now rewrite Nat.add_0_r.
    + rewrite IH. now rewrite Nat.add_succ_r.
Qed.

Lemma InitElementType_eqb_eq a b : InitElementType_eqb a b = true <-> a = b.
Proof. destruct a, b; simpl; split; congruence. Qed.

Lemma ofType_elementType ty c e : In e (ofType ty c) -> elementType e = ty.
Proof.
  unfold ofType. rewrite filter_In. intros [_ H]. now apply InitElementType_eqb_eq.
Qed.

Lemma callKey_callsFrom ro ty i es :
  (forall e, In e es -> elementType e = ty) ->
  map callKey (callsFrom ro i es) = map (fun j => Some (ty, j)) (seq i (List.length es)).
Proof.
  revert i. induction es as [|e es IH]; intros i Hty; simpl; [reflexivity|].
  rewrite (Hty e) by now left. f_equal. apply IH. intros e' He'. apply Hty. now right.
Qed.

Lemma callRank_callsFrom ro ty i es :
  (forall e, In e es -> elementType e = ty) ->
  Forall (fun a => callRank a = bindRank ty) (callsFrom ro i es).
Proof.
  revert i. induction es as [|e es IH]; intros i Hty; simpl; constructor.
  - simpl. now rewrite (Hty e) by now left.
  - apply IH. intros e' He'. apply Hty. now right.
Qed.

Lemma StronglySorted_append {A : Type} (R : A -> A -> Prop) (l1 l2 : list A) :
  StronglySorted R l1 -> StronglySorted R l2 ->
  (forall a b, In a l1 -> In b l2 -> R a b) ->
  StronglySorted R (l1 ++ l2).
Proof.
  induction l1 as [|x l1 IH]; simpl; intros H1 H2 H12; [exact H2|].
  inversion H1 as [|? ? Hs Hf]; subst. constructor.
  - apply IH; auto.
  - apply Forall_app. split; [exact Hf|]. apply Forall_forall. intros b Hb. apply H12; auto.
Qed.

Lemma StronglySorted_same_rank (l : list effect) (n : nat) :
  Forall (fun a => callRank a = n) l -> kindOrdered l.
Proof.
  unfold kindOrdered. induction 1 as [|a l Ha Hl IH]; constructor; [exact IH|].
  clear IH. induction Hl; constructor; [lia | assumption].
Qed.

Section Groups.
Variables (c : InitConfig.t) (sc : handle) (options : AttachInitOptions.t).

Lemma groupCalls_rank ty :
  Forall (fun a => callRank a = bindRank ty) (groupCalls c sc options ty).
Proof. apply callRank_callsFrom. intros e. apply ofType_elementType. Qed.

Lemma groups_rank_ge ty tys a :
  StronglySorted (fun x y => bindRank x <= bindRank y) (ty :: tys) ->
  In a (List.concat (map (groupCalls c sc options) tys)) -> bindRank ty <= callRank a.
Proof.
  intros Hs Ha. apply in_concat in Ha as [g [Hg Ha]].
  apply in_map_iff in Hg as [ty' [<- Hty']].
  inversion Hs as [|? ? _ Hall]; subst.
  rewrite Forall_forall in Hall. specialize (Hall ty' Hty').
  pose proof (groupCalls_rank ty') as Hr. rewrite Forall_forall in Hr.
  rewrite (Hr a Ha). exact Hall.
Qed.

Lemma groups_kindOrdered tys :
  StronglySorted (fun x y => bindRank x <= bindRank y) tys ->
  kindOrdered (List.concat (map (groupCalls c sc options) tys)).
Proof.
  induction tys as [|ty tys IH]; simpl; intros Hs; [constructor|].
  apply StronglySorted_append.
  - apply (StronglySorted_same_rank _ _ (groupCalls_rank ty)).
  - apply IH. now inversion Hs.
  - intros a b Ha Hb. pose proof (groupCalls_rank ty) as Hr.
    rewrite Forall_forall in Hr. rewrite (Hr a Ha).
    eapply groups_rank_ge; eauto.
Qed.

Lemma groups_keys_NoDup tys :
  NoDup tys -> NoDup (map callKey (List.concat (map (groupCalls c sc options) tys))).
Proof.
  induction tys as [|ty tys IH]; simpl; intros Hnd; [constructor|].
  inversion Hnd as [|? ? Hnot Hnd']; subst. rewrite map_app.
  assert (Hkeys : forall ty', map callKey (groupCalls c sc options ty')
                  = map (fun j => Some (ty', j)) (seq 0 (List.length (ofType ty' c)))).
  { intros ty'. apply callKey_callsFrom. intros e. apply ofType_elementType. }
  apply NoDup_app.
  - rewrite Hkeys. apply Injective_map_NoDup; [|apply seq_NoDup].
    intros x y [= ->]. reflexivity.
  - now apply IH.
  - intros key Hin1 Hin2. rewrite Hkeys in Hin1.
    apply in_map_iff in Hin1 as [j [<- _]].
    apply in_map_iff in Hin2 as [a [Hkey Ha]].
    apply in_concat in Ha as [g [Hg Ha]].
    apply in_map_iff in Hg as [ty' [<- Hty']].
    assert (Hin : In (callKey a) (map callKey (groupCalls c sc options ty')))
      by now apply in_map.
    rewrite Hkeys, Hkey in Hin. apply in_map_iff in Hin as [j' [[= -> _] _]].
    contradiction.
Qed.
End Groups.

Lemma bindOrder_prefix_sorted m :
  StronglySorted (fun x y => bindRank x <= bindRank y) (firstn m bindOrder) /\
  NoDup (firstn m bindOrder).
Proof.
  do 8 (destruct m as [|m];
        [split; [repeat constructor; simpl; lia
                | repeat constructor; simpl; intuition discriminate] |]).
  simpl. split; [repeat constructor; simpl; lia
                | repeat constructor; simpl; intuition discriminate].
Qed.

Lemma kindOrdered_split calls before a after b :
  kindOrdered calls -> calls = before ++ a :: after -> In b after ->
  callRank a <= callRank b.
Proof.
  unfold kindOrdered. intros Hs ->. induction before as [|x before IH]; simpl in Hs.
  - inversion Hs as [|? ? _ Hall]; subst. rewrite Forall_forall in Hall. auto.
  - intros Hb. inversion Hs; subst. auto.
Qed.

Lemma groupResult_no_elements c ty ro : ofType ty c = [] -> groupResult c ty ro = Ok None.
Proof. intros H. unfold groupResult. now rewrite H. Qed.

(** C1. [_bind] binds the elements of a config kind by kind, in the order
    package, group, user, source, file, command, service.  Its result is
    the merge of the fragments as computed from the elements, and the
    calls it logs are the groups of the first [m] kinds: it stops only at
    a kind that has elements whose fragments do not merge, after binding
    them, and [m = 7] whenever every kind merges.  Every element of a kind
    reached is bound.  The group of a kind is the kind's elements in
    insertion order, the i-th bound with index i; a kind without elements
    is skipped without any call; no call of an earlier kind follows one of
    a later kind, so nothing but service elements is bound after a service
    element; and kind and index together identify a call. *)
Theorem bind_groups_by_kind (c : InitConfig.t) (sc : handle)
    (options : AttachInitOptions.t) (log : list effect) :
  exists m calls,
    m <= 7 /\
    calls = List.concat (map (groupCalls c sc options) (firstn m bindOrder)) /\
    InitConfig._bind c sc options log = (configResult c sc options, log ++ calls) /\
    (forall j ty,
        nth_error bindOrder j = Some ty -> j + 1 < m ->
        exists g, groupResult c ty (bindOptionsOf sc options) = Ok g) /\
    (m < 7 ->
     exists ty,
       nth_error bindOrder (m - 1) = Some ty /\ 1 <= m /\ ofType ty c <> [] /\
       forall g, groupResult c ty (bindOptionsOf sc options) <> Ok g) /\
    ((forall ty, exists g, groupResult c ty (bindOptionsOf sc options) = Ok g) -> m = 7) /\
    (forall r, configResult c sc options = Ok r -> m = 7) /\
    (forall e,
        In e (InitConfig.elements c) -> In (elementType e) (firstn m bindOrder) ->
        exists i,
          nth_error (ofType (elementType e) c) i = Some e /\
          In (ElementBind e (optionsAt (bindOptionsOf sc options) i)) calls) /\
    (forall ty i,
        nth_error (groupCalls c sc options ty) i
        = option_map (fun e => ElementBind e (optionsAt (bindOptionsOf sc options) i))
            (nth_error (ofType ty c) i)) /\
    (forall ty ro log0,
        ofType ty c = [] -> InitConfig.bindForType c ty ro log0 = (Ok None, log0)) /\
    kindOrdered calls /\
    (forall before e1 o1 after e2 o2,
        calls = before ++ ElementBind e1 o1 :: after ->
        In (ElementBind e2 o2) after ->
        elementType e1 = SERVICE -> elementType e2 = SERVICE) /\
    NoDup (map callKey calls).
Proof.
  destruct (config_bind_stops c sc options log) as [m [Hm [Hrun [Hok [Hprefix Hstop]]]]].
  destruct (bindOrder_prefix_sorted m) as [Hsorted Hnd].
  exists m, (List.concat (map (groupCalls c sc options) (firstn m bindOrder))).
  assert (Hord : kindOrdered (List.concat (map (groupCalls c sc options) (firstn m bindOrder))))
    by now apply groups_kindOrdered.
  assert (Hnth : forall ty i,
             nth_error (groupCalls c sc options ty) i
             = option_map (fun e => ElementBind e (optionsAt (bindOptionsOf sc options) i))
                 (nth_error (ofType ty c) i)).
  { intros ty i. unfold groupCalls. now rewrite nth_error_callsFrom. }
  assert (Hfail : m < 7 ->
            exists ty,
              nth_error bindOrder (m - 1) = Some ty /\ 1 <= m /\ ofType ty c <> [] /\
              forall g, groupResult c ty (bindOptionsOf sc options) <> Ok g).
  { intros Hlt. destruct (Hstop Hlt) as [ty [Hty [H1 Hno]]].
    exists ty. repeat split; try assumption.
    intros Hnone. apply (Hno None). now apply groupResult_no_elements. }
  split; [exact Hm|]. split; [reflexivity|]. split; [exact Hrun|].
  split; [exact Hprefix|]. split; [exact Hfail|].
  split.
  { intros Hall. destruct (Nat.eq_dec m 7) as [->|Hne]; [reflexivity|].
    assert (Hlt : m < 7) by lia.
    destruct (Hfail Hlt) as [ty [_ [_ [_ Hno]]]]. destruct (Hall ty) as [g Hg].
    now destruct (Hno g). }
  split; [exact Hok|].
  split.
  { intros e He Hkind.
    assert (Hin : In e (ofType (elementType e) c)).
    { unfold ofType. apply filter_In. split; [exact He|]. now apply InitElementType_eqb_eq. }
    apply In_nth_error in Hin as [i Hi]. exists i. split; [exact Hi|].
    apply in_concat. exists (groupCalls c sc options (elementType e)). split.
    - now apply in_map.
    - apply (nth_error_In _ i). now rewrite Hnth, Hi. }
  split; [exact Hnth|].
  split.
  { intros ty ro log0 Hnone. rewrite bindForType_run, (groupResult_no_elements _ _ _ Hnone).
    simpl. now rewrite Hnone, app_nil_r. }
  split; [exact Hord|].
  split.
  { intros before e1 o1 after e2 o2 Hsplit Hin He1.
    pose proof (kindOrdered_split _ _ _ _ _ Hord Hsplit Hin) as Hle. simpl in Hle.
    rewrite He1 in Hle. simpl in Hle.
    destruct (elementType e2); simpl in Hle; try lia. reflexivity. }
  now apply groups_keys_NoDup.
Qed.

Lemma bind_groups_by_kind_witness :
  exists m calls,
    m <= 7 /\
    calls = List.concat (map (groupCalls sample_config 0 sample_options) (firstn m bindOrder)) /\
    InitConfig._bind sample_config 0 sample_options []
    = (configResult sample_config 0 sample_options, [] ++ calls) /\
    (forall j ty,
        nth_error bindOrder j = Some ty -> j + 1 < m ->
        exists g, groupResult sample_config ty (bindOptionsOf 0 sample_options) = Ok g) /\
    (m < 7 ->
     exists ty,
       nth_error bindOrder (m - 1) = Some ty /\ 1 <= m /\ ofType ty sample_config <> [] /\
       forall g, groupResult sample_config ty (bindOptionsOf 0 sample_options) <> Ok g) /\
    ((forall ty, exists g,
         groupResult sample_config ty (bindOptionsOf 0 sample_options) = Ok g) -> m = 7) /\
    (forall r, configResult sample_config 0 sample_options = Ok r -> m = 7) /\
    (forall e,
        In e (InitConfig.elements sample_config) ->
        In (elementType e) (firstn m bindOrder) ->
        exists i,
          nth_error (ofType (elementType e) sample_config) i = Some e /\
          In (ElementBind e (optionsAt (bindOptionsOf 0 sample_options) i)) calls) /\
    (forall ty i,
        nth_error (groupCalls sample_config 0 sample_options ty) i
        = option_map (fun e => ElementBind e (optionsAt (bindOptionsOf 0 sample_options) i))
            (nth_error (ofType ty sample_config) i)) /\
    (forall ty ro log0,
        ofType ty sample_config = [] ->
        InitConfig.bindForType sample_config ty ro log0 = (Ok None, log0)) /\
    kindOrdered calls /\
    (forall before e1 o1 after e2 o2,
        calls = before ++ ElementBind e1 o1 :: after ->
        In (ElementBind e2 o2) after ->
        elementType e1 = SERVICE -> elementType e2 = SERVICE) /\
    NoDup (map callKey calls).
Proof. exact (bind_groups_by_kind sample_config 0 sample_options []). Defined.

(** A config whose file elements clash: the packages are bound, then the
    files, and nothing after them. *)
Example clash_stops_at_files :
  let c := InitConfig.make
             [svc_element "httpd";
              {| elementType := FILE;
                 element_bind := fun _ => {| config := VObject [("k", VString "s")];
                                             authentication := undefined |} |};
              {| elementType := FILE;
                 element_bind := fun _ => {| config := VObject [("k", VArray [])];
                                             authentication := undefined |} |};
              pkg_element "php"] in
  fst (InitConfig._bind c 0 sample_options [])
  = Throw (MergeArrayIntoNonArray [] (VString "s")) /\
  map callKey (snd (InitConfig._bind c 0 sample_options []))
  = [Some (PACKAGE, 0); Some (FILE, 0); Some (FILE, 1)].
Proof. split; reflexivity. Qed.

(** The service element is inserted first and bound last; the two package
    elements get the indices 0 and 1. *)
Example sample_config_calls :
  snd (InitConfig._bind sample_config 0 sample_options [])
  = [ElementBind (pkg_element "httpd") (optionsAt (bindOptionsOf 0 sample_options) 0);
     ElementBind (pkg_element "php") (optionsAt (bindOptionsOf 0 sample_options) 1);
     ElementBind (svc_element "httpd") (optionsAt (bindOptionsOf 0 sample_options) 0)].
Proof. reflexivity. Qed.

(** ** The assembled fragment of a config *)

Lemma groupResult_inv c ty ro a :
  groupResult c ty ro = Ok a ->
  (ofType ty c = [] /\ a = None) \/
  (ofType ty c <> [] /\
   exists cfg auth,
     reduce_deepMerge (map config (resultsFrom ro 0 (ofType ty c))) = Ok cfg /\
     reduce_deepMerge (map authentication (resultsFrom ro 0 (ofType ty c))) = Ok auth /\
     a = Some {| config := nullish_or cfg (VObject []); authentication := auth |}).
Proof.
  unfold groupResult. destruct (ofType ty c) as [|e es] eqn:Hgroup.
  - intros [= <-]. now left.
  - intros H. right. split; [discriminate|].
    destruct (reduce_deepMerge (map config _)) as [cfg| |]; try discriminate.
    destruct (reduce_deepMerge (map authentication _)) as [auth| |]; try discriminate.
    simpl in H. injection H as <-. now exists cfg, auth.
Qed.

Lemma nullish_or_object_defined v : is_nullish (nullish_or v (VObject [])) = false.
Proof. unfold nullish_or. destruct (is_nullish v) eqn:H; [reflexivity | exact H]. Qed.

Lemma configResult_inv c sc options r :
  configResult c sc options = Ok r ->
  exists (group : InitElementType -> option InitElementConfig),
    (forall ty, groupResult c ty (bindOptionsOf sc options) = Ok (group ty)) /\
    config r = VObject (map (fun ty => (pluralName ty, InitConfig.opt_config (group ty)))
                          bindOrder).
Proof.
  unfold configResult.
  destruct (groupResult c PACKAGE _) as [a0| |] eqn:H0; try discriminate.
  destruct (groupResult c GROUP _) as [a1| |] eqn:H1; try discriminate.
  destruct (groupResult c USER _) as [a2| |] eqn:H2; try discriminate.
  destruct (groupResult c SOURCE _) as [a3| |] eqn:H3; try discriminate.
  destruct (groupResult c FILE _) as [a4| |] eqn:H4; try discriminate.
  destruct (groupResult c COMMAND _) as [a5| |] eqn:H5; try discriminate.
  destruct (groupResult c SERVICE _) as [a6| |] eqn:H6; try discriminate.
  cbn [obind]. destruct (reduce_deepMerge _) as [auth| |]; try discriminate.
  intros [= <-].
  exists (fun ty => match ty with
                    | PACKAGE => a0 | GROUP => a1 | USER => a2 | SOURCE => a3
                    | FILE => a4 | COMMAND => a5 | SERVICE => a6
                    end).
  split; [intros []; assumption | reflexivity].
Qed.

(** C6, counterexample.  A config whose only package element contributes
    the empty fragment still gets a [packages] key, holding the empty
    object. *)
Lemma silent_group_keeps_its_key :
  let c := InitConfig.make [silent_element PACKAGE] in
  (forall e options, In e (ofType PACKAGE c) ->
     config (element_bind e options) = VObject [] /\
     authentication (element_bind e options) = undefined) /\
  exists r log',
    InitConfig._bind c 0 sample_options [] = (Ok r, log') /\
    get_prop (config r) "packages" = VObject [] /\
    exists fields, config r = VObject fields /\ In "packages" (keys fields).
Proof.
  split.
  - intros e options [<-|[]]. split; reflexivity.
  - eexists. eexists. split; [reflexivity|]. split; [reflexivity|].
    eexists. split; [reflexivity|]. simpl. auto.
Qed.

(** C6, amended.  The fragment assembled by [_bind] has the seven keys
    packages, groups, users, sources, files, commands, services, each
    holding the fragment of its kind.  For a kind without elements the
    value is [undefined], so the key reads as absent and is left out on
    serialization.  For a kind with elements the value is the merge of the
    elements' fragments, and the empty object when that merge is absent;
    it is never [undefined]. *)
Theorem bind_keys_fragments_by_plural_name (c : InitConfig.t) (sc : handle)
    (options : AttachInitOptions.t) (log log' : list effect) (r : InitElementConfig) :
  InitConfig._bind c sc options log = (Ok r, log') ->
  exists frag : InitElementType -> value,
    config r = VObject (map (fun ty => (pluralName ty, frag ty)) bindOrder) /\
    forall ty,
      get_prop (config r) (pluralName ty) = frag ty /\
      (ofType ty c = [] -> frag ty = undefined) /\
      (ofType ty c <> [] ->
       exists merged,
         reduce_deepMerge
           (map config (resultsFrom (bindOptionsOf sc options) 0 (ofType ty c)))
         = Ok merged /\
         frag ty = nullish_or merged (VObject []) /\
         is_nullish (frag ty) = false).
Proof.
  intros Hrun.
  destruct (config_bind_run c sc options log) as [m [_ [Hrun' _]]].
  rewrite Hrun' in Hrun. injection Hrun as Hres _.
  apply configResult_inv in Hres as [group [Hgroup Hcfg]].
  exists (fun ty => InitConfig.opt_config (group ty)). split; [exact Hcfg|].
  intros ty. split; [|split].
  - rewrite Hcfg. destruct ty; reflexivity.
  - intros Hnone. destruct (groupResult_inv _ _ _ _ (Hgroup ty)) as [[_ ->]|[Hne _]];
      [reflexivity | contradiction].
  - intros Hsome.
    destruct (groupResult_inv _ _ _ _ (Hgroup ty)) as [[Hnone _]|[_ [cfg [auth [Hc [_ ->]]]]]];
      [contradiction|].
    exists cfg. split; [exact Hc|]. simpl. split; [reflexivity|].
    apply nullish_or_object_defined.
Qed.

Lemma bind_keys_fragments_by_plural_name_witness :
  exists frag : InitElementType -> value,
    config sample_bound = VObject (map (fun ty => (pluralName ty, frag ty)) bindOrder) /\
    forall ty,
      get_prop (config sample_bound) (pluralName ty) = frag ty /\
      (ofType ty sample_config = [] -> frag ty = undefined) /\
      (ofType ty sample_config <> [] ->
       exists merged,
         reduce_deepMerge
           (map config (resultsFrom (bindOptionsOf 0 sample_options) 0 (ofType ty sample_config)))
         = Ok merged /\
         frag ty = nullish_or merged (VObject []) /\
         is_nullish (frag ty) = false).
Proof.
  apply (bind_keys_fragments_by_plural_name sample_config 0 sample_options []
           (snd (InitConfig._bind sample_config 0 sample_options [])) sample_bound).
  reflexivity.
Defined.

(** ** Rendering the registry *)

Section MapValuesM.
Variables A B : Type.
Variable fn : A -> M (option B).
Variable res : A -> outcome (option B).
Hypothesis fn_outcome : forall a log, fst (fn a log) = res a.

Lemma mapValuesM_from_NoDup xs acc log out log' :
  NoDup (keys acc) ->
  mapValuesM_from fn xs acc log = (Ok out, log') -> NoDup (keys out).
Proof.
  revert acc log. induction xs as [|[k v] xs IH]; simpl; intros acc log Hnd.
  - unfold ret. intros [= <- _]. exact Hnd.
  - unfold mbind. destruct (fn v log) as [[mapped| |] log1]; try discriminate.
    apply IH. destruct mapped; [now apply NoDup_keys_set | exact Hnd].
Qed.

Lemma mapValuesM_from_get xs acc log out log' k :
  NoDup (keys xs) ->
  mapValuesM_from fn xs acc log = (Ok out, log') ->
  match obj_get k xs with
  | Some v =>
      exists mapped,
        res v = Ok mapped /\
        obj_get k out = match mapped with Some b => Some b | None => obj_get k acc end
  | None => obj_get k out = obj_get k acc
  end.
Proof.
  revert acc log. induction xs as [|[k' v'] xs IH]; simpl; intros acc log Hnd.
  - unfold ret. now intros [= <- _].
  - inversion Hnd as [|? ? Hnot Hnd']; subst. unfold mbind.
    pose proof (fn_outcome v' log) as Hres.
    destruct (fn v' log) as [[mapped| |] log1]; try discriminate.
    simpl in Hres. intros Hrun. specialize (IH _ _ Hnd' Hrun).
    destruct (String.eqb_spec k k') as [->|Hne].
    + apply obj_get_None in Hnot. rewrite Hnot in IH.
      exists mapped. split; [now symmetry|]. rewrite IH.
      destruct mapped; [|reflexivity]. now rewrite obj_get_set, String.eqb_refl.
    + assert (Hacc : obj_get k match mapped with
                               | Some b => obj_set k' b acc
                               | None => acc
                               end = obj_get k acc).
      { destruct mapped; [|reflexivity]. rewrite obj_get_set.
        apply String.eqb_neq in Hne. now rewrite Hne. }
      rewrite Hacc in IH. exact IH.
Qed.
End MapValuesM.

Section Render.
Variable this : CloudFormationInit.t.
Hypothesis this_wf : wf_registry this.

Lemma nonEmptyConfigs_get name :
  obj_get name (CloudFormationInit.nonEmptyConfigs this) =
  match obj_get name (CloudFormationInit._configs this) with
  | Some c => if InitConfig.isEmpty c then None else Some c
  | None => None
  end.
Proof.
  unfold CloudFormationInit.nonEmptyConfigs. apply mapValues_get, this_wf.
Qed.

Lemma nonEmptyConfigs_has name :
  obj_has name (CloudFormationInit.nonEmptyConfigs this) = nonEmptyIn this name.
Proof.
  unfold obj_has, nonEmptyIn. rewrite nonEmptyConfigs_get.
  destruct (obj_get name _) as [c|]; [|reflexivity].
  now destruct (InitConfig.isEmpty c).
Qed.

Lemma nonEmptyConfigs_in name :
  obj_in name (CloudFormationInit.nonEmptyConfigs this) = keptIn this name.
Proof. unfold obj_in, keptIn. now rewrite nonEmptyConfigs_has. Qed.

Lemma renderedConfigSets_get s :
  obj_get s (CloudFormationInit.renderedConfigSets this) =
  option_map (filter (keptIn this)) (obj_get s (CloudFormationInit._configSets this)).
Proof.
  unfold CloudFormationInit.renderedConfigSets.
  rewrite mapValues_get by apply this_wf.
  destruct (obj_get s _) as [declared|]; [|reflexivity]. simpl. f_equal.
  apply filter_ext. intros n. apply nonEmptyConfigs_in.
Qed.

(** The bound configs behind a rendered document. *)
Lemma registry_bind_inv sc options log r log' :
  CloudFormationInit.bind this sc options log = (Ok r, log') ->
  exists bound : obj InitElementConfig,
    NoDup (keys bound) /\
    (forall name,
        match obj_get name (CloudFormationInit.nonEmptyConfigs this) with
        | Some c =>
            exists b, configResult c sc options = Ok b /\ obj_get name bound = Some b
        | None => obj_get name bound = None
        end) /\
    configData r =
    VObject
      (obj_assign
         [("configSets",
           CloudFormationInit.configSets_value (CloudFormationInit.renderedConfigSets this))]
         (CloudFormationInit.renderedConfigs bound)).
Proof.
  unfold CloudFormationInit.bind, mapValuesM.
  destruct (_ || _); [discriminate|]. unfold mbind at 1.
  set (fn := fun c : InitConfig.t =>
               (do r <- InitConfig._bind c sc options; ret (Some r))%M).
  destruct (mapValuesM_from fn _ [] log) as [[bound| |] log1] eqn:Hmap; try discriminate.
  unfold mbind, lift, ret.
  destruct (reduce_deepMerge _) as [auth| |]; try discriminate.
  intros [= <- _]. exists bound.
  assert (Hfn : forall c log0,
             fst (fn c log0) = let! b := configResult c sc options in Ok (Some b)).
  { intros c log0. unfold fn, mbind, ret.
    destruct (config_bind_run c sc options log0) as [m [_ [-> _]]].
    now destruct (configResult c sc options). }
  split; [|split].
  - eapply mapValuesM_from_NoDup; [|exact Hmap]. constructor.
  - intros name.
    assert (Hnd0 : NoDup (keys (CloudFormationInit.nonEmptyConfigs this)))
      by apply mapValues_NoDup.
    pose proof (mapValuesM_from_get _ _ fn _ Hfn _ _ _ _ _ name Hnd0 Hmap) as Hk.
    destruct (obj_get name _) as [c|]; [|exact Hk].
    destruct Hk as [mapped [Hres Hout]].
    destruct (configResult c sc options) as [b| |]; try discriminate.
    simpl in Hres. injection Hres as <-. now exists b.
  - reflexivity.
Qed.

Lemma renderedConfigs_keys bound name :
  NoDup (keys bound) ->
  In name (keys (CloudFormationInit.renderedConfigs bound)) -> In name (keys bound).
Proof.
  intros Hnd. rewrite <- !obj_get_In_keys.
  unfold CloudFormationInit.renderedConfigs. rewrite mapValues_get by exact Hnd.
  destruct (obj_get name bound); congruence.
Qed.
End Render.

Lemma configSets_value_get sets s :
  get_prop (CloudFormationInit.configSets_value sets) s
  = match obj_get s sets with
    | Some members => VArray (map AString members)
    | None => undefined
    end.
Proof.
  unfold CloudFormationInit.configSets_value. simpl.
  induction sets as [|[k v] sets IH]; simpl; [reflexivity|].
  destruct (String.eqb s k); [reflexivity | exact IH].
Qed.

(** The document behind a rendering: the spread configs belong to configs
    with elements, and the [configSets] slot holds the rendered member
    lists unless such a config has that very name. *)
Lemma rendered_document this sc options log r log' :
  wf_registry this ->
  CloudFormationInit.bind this sc options log = (Ok r, log') ->
  (forall n, nonEmptyIn this n = false -> n <> "configSets" ->
             get_prop (configData r) n = undefined) /\
  (nonEmptyIn this "configSets" = false ->
   get_prop (configData r) "configSets"
   = CloudFormationInit.configSets_value (CloudFormationInit.renderedConfigSets this)).
Proof.
  intros Hwf Hrun.
  destruct (registry_bind_inv this _ _ _ _ _ Hrun) as [bound [Hnd [Hbound Hdoc]]].
  assert (Hnone : forall n, nonEmptyIn this n = false ->
                    obj_get n (CloudFormationInit.renderedConfigs bound) = None).
  { intros n Hn. apply obj_get_None. intros Hin.
    apply renderedConfigs_keys in Hin; [|exact Hnd].
    apply obj_get_In_keys in Hin. specialize (Hbound n).
    rewrite <- nonEmptyConfigs_has in Hn by exact Hwf. unfold obj_has in Hn.
    destruct (obj_get n (CloudFormationInit.nonEmptyConfigs this)); congruence. }
  split.
  - intros n Hn Hne. rewrite Hdoc. simpl.
    rewrite obj_assign_get by apply mapValues_NoDup.
    unfold CloudFormationInit.renderedConfigs in *. rewrite (Hnone n Hn). simpl.
    apply String.eqb_neq in Hne. now rewrite Hne.
  - intros Hn. rewrite Hdoc. simpl.
    rewrite obj_assign_get by apply mapValues_NoDup.
    unfold CloudFormationInit.renderedConfigs in *. now rewrite (Hnone _ Hn).
Qed.

(** C5. An empty config has no slot in the rendered document, and it is
    dropped from the rendered member lists unless its name is that of a
    member of [Object.prototype]: the filter [nonEmptyConfigs[name] !==
    undefined] then finds the inherited member and keeps the name.  At the
    catalog [{toString: []}] with the config set [{default: [toString]}],
    the empty config [toString] stays in the rendered list.  In general,
    the rendered list of a config set is its declared list restricted, in
    the declared order, to the names of configs with elements and the
    names of members of [Object.prototype]. *)
Theorem empty_config_listed_under_inherited_name :
  (CloudFormationInit.fromConfigSets
     {| props_configSets := [("default", ["toString"])];
        props_configs := [("toString", InitConfig.make [])] |}
   = Ok registry_toString /\
   InitConfig.isEmpty (InitConfig.make []) = true /\
   forall sc options log,
     CloudFormationInit.bind registry_toString sc options log
     = (Ok {| configData :=
                VObject [("configSets",
                          VObject [("default", VArray [AString "toString"])])];
              authData := undefined |},
        log)) /\
  forall (this : CloudFormationInit.t) (sc : handle) (options : AttachInitOptions.t)
         (log log' : list effect) (r : BindResult),
    wf_registry this ->
    CloudFormationInit.bind this sc options log = (Ok r, log') ->
    (forall name c,
        obj_get name (CloudFormationInit._configs this) = Some c ->
        InitConfig.isEmpty c = true ->
        (name <> "configSets" -> get_prop (configData r) name = undefined) /\
        forall declared,
          In name (filter (keptIn this) declared)
          <-> In name declared /\ inherited_name name = true) /\
    (nonEmptyIn this "configSets" = false ->
     forall s declared,
       obj_get s (CloudFormationInit._configSets this) = Some declared ->
       get_prop (get_prop (configData r) "configSets") s
       = VArray (map AString (filter (keptIn this) declared))).
Proof.
  split.
  - split; [reflexivity|]. split; [reflexivity|]. intros sc options log. reflexivity.
  - intros this sc options log log' r Hwf Hrun.
    destruct (rendered_document this _ _ _ _ _ Hwf Hrun) as [Habsent Hslot].
    split.
    + intros name c Hget Hempty.
      assert (Hname : nonEmptyIn this name = false).
      { unfold nonEmptyIn. now rewrite Hget, Hempty. }
      split; [now apply Habsent|].
      intros declared. rewrite filter_In. unfold keptIn. rewrite Hname. simpl. tauto.
    + intros Hn s declared Hs. rewrite (Hslot Hn), configSets_value_get.
      now rewrite renderedConfigSets_get, Hs by exact Hwf.
Qed.

Lemma registry_example_wf : wf_registry registry_example.
Proof. split; repeat constructor; simpl; intuition discriminate. Qed.

Lemma empty_config_listed_under_inherited_name_witness :
  (forall name c,
      obj_get name (CloudFormationInit._configs registry_example) = Some c ->
      InitConfig.isEmpty c = true ->
      (name <> "configSets" -> get_prop (configData example_rendered) name = undefined) /\
      forall declared,
        In name (filter (keptIn registry_example) declared)
        <-> In name declared /\ inherited_name name = true) /\
  (nonEmptyIn registry_example "configSets" = false ->
   forall s declared,
     obj_get s (CloudFormationInit._configSets registry_example) = Some declared ->
     get_prop (get_prop (configData example_rendered) "configSets") s
     = VArray (map AString (filter (keptIn registry_example) declared))).
Proof.
  apply (proj2 empty_config_listed_under_inherited_name registry_example 0 sample_options []
           (snd (CloudFormationInit.bind registry_example 0 sample_options []))
           example_rendered).
  - exact registry_example_wf.
  - reflexivity.
Defined.

(** The example of the specification: [configSets.default] is rendered as
    [[A]] and only [A] is spread into the document. *)
Example registry_example_rendered :
  fst (CloudFormationInit.bind registry_example 0 sample_options [])
  = Ok {| configData :=
            VObject
              [("configSets", VObject [("default", VArray [AString "A"])]);
               ("A",
                VObject
                  [("packages", VObject [("yum", VObject [("p1", VArray [])])]);
                   ("groups", undefined); ("users", undefined); ("sources", undefined);
                   ("files", undefined); ("commands", undefined);
                   ("services", undefined)])];
          authData := undefined |}.
Proof. reflexivity. Qed.

(** C10. When a config with elements is registered under the name
    [configSets], the [configSets] property of the rendered document is
    that config's bound fragment: the spread of the configs overwrites the
    slot, and no property of the document holds the member lists. *)
Theorem configSets_slot_overwritten (this : CloudFormationInit.t) (c : InitConfig.t)
    (sc : handle) (options : AttachInitOptions.t) (log log' : list effect)
    (r : BindResult) :
  wf_registry this ->
  obj_get "configSets" (CloudFormationInit._configs this) = Some c ->
  InitConfig.isEmpty c = false ->
  CloudFormationInit.bind this sc options log = (Ok r, log') ->
  exists bound fields,
    configResult c sc options = Ok bound /\
    configData r = VObject fields /\
    get_prop (configData r) "configSets" = config bound /\
    (forall v, In ("configSets", v) fields -> v = config bound).
Proof.
  intros Hwf Hget Hne Hrun.
  destruct (registry_bind_inv this _ _ _ _ _ Hrun) as [bound [Hnd [Hbound Hdoc]]].
  pose proof (Hbound "configSets") as Hb.
  rewrite nonEmptyConfigs_get, Hget, Hne in Hb by exact Hwf.
  destruct Hb as [b [Hres Hb]].
  destruct (configResult_inv _ _ _ _ Hres) as [group [_ Hcfg]].
  assert (Hsrc : obj_get "configSets" (CloudFormationInit.renderedConfigs bound)
                 = Some (config b)).
  { unfold CloudFormationInit.renderedConfigs. rewrite mapValues_get by exact Hnd.
    rewrite Hb, Hcfg. reflexivity. }
  set (fields := obj_assign
                   [("configSets",
                     CloudFormationInit.configSets_value
                       (CloudFormationInit.renderedConfigSets this))]
                   (CloudFormationInit.renderedConfigs bound)) in *.
  assert (Hfield : obj_get "configSets" fields = Some (config b)).
  { unfold fields. rewrite obj_assign_get by apply mapValues_NoDup. now rewrite Hsrc. }
  exists b, fields. repeat split.
  - exact Hres.
  - exact Hdoc.
  - rewrite Hdoc. simpl. now rewrite Hfield.
  - intros v Hin. apply In_obj_get in Hin.
    + congruence.
    + unfold fields. apply obj_assign_NoDup. repeat constructor. simpl. tauto.
Qed.

Lemma registry_shadowed_wf : wf_registry registry_shadowed.
Proof. split; repeat constructor; simpl; intuition discriminate. Qed.

Lemma configSets_slot_overwritten_witness :
  exists bound fields,
    configResult (InitConfig.make [pkg_element "p1"]) 0 sample_options = Ok bound /\
    configData shadowed_rendered = VObject fields /\
    get_prop (configData shadowed_rendered) "configSets" = config bound /\
    (forall v, In ("configSets", v) fields -> v = config bound).
Proof.
  apply (configSets_slot_overwritten registry_shadowed (InitConfig.make [pkg_element "p1"])
           0 sample_options []
           (snd (CloudFormationInit.bind registry_shadowed 0 sample_options []))
           shadowed_rendered).
  - exact registry_shadowed_wf.
  - reflexivity.
  - reflexivity.
  - reflexivity.
Defined.

(** ** Attaching and the fingerprint *)

Lemma list_ascii_of_substring n s :
  list_ascii_of_string (substring 0 n s) = firstn n (list_ascii_of_string s).
Proof.
  revert s. induction n as [|n IH]; intros [|c s]; simpl; try reflexivity.
  now rewrite IH.
Qed.

Lemma Forall_prefix {A : Type} (P : A -> Prop) (n : nat) (l : list A) :
  Forall P l -> Forall P (firstn n l).
Proof.
  revert l. induction n as [|n IH]; intros l Hl; simpl; [constructor|].
  destruct Hl; constructor; auto.
Qed.

Lemma length_list_ascii s : List.length (list_ascii_of_string s) = String.length s.
Proof. induction s as [|c s IH]; simpl; [reflexivity | now rewrite IH]. Qed.

Section Fingerprint.
Variables Aws_REGION Aws_STACK_NAME Aws_STACK_ID : string.
Variable JSON_stringify : value -> string.
Variable sha256_hex : string -> string.

Let attach := CloudFormationInit._attach Aws_REGION Aws_STACK_NAME Aws_STACK_ID
                JSON_stringify sha256_hex.
Let fingerprint := CloudFormationInit.fingerprint_of JSON_stringify sha256_hex.

Lemma parametric_attach this res opts : log_parametric (attach this res opts).
Proof.
  unfold attach, CloudFormationInit._attach.
  apply parametric_mbind; [apply parametric_registry_bind|]. intros r.
  repeat (apply parametric_mbind;
          [first [apply parametric_emit
                 | apply parametric_if; auto with parametric] |]; intros ?).
  destruct (AttachInitOptions.platform opts); apply parametric_emit.
Qed.

Lemma fingerprint_form (doc : value) :
  (forall content, hex_digest (sha256_hex content)) ->
  String.length (fingerprint doc) = 16 /\ hex_string (fingerprint doc).
Proof.
  intros Hdigest. unfold fingerprint, CloudFormationInit.fingerprint_of,
    CloudFormationInit.contentHash.
  destruct (Hdigest (JSON_stringify doc)) as [Hlen Hhex].
  unfold hex_string in *. rewrite <- length_list_ascii, list_ascii_of_substring.
  split.
  - rewrite length_firstn, length_list_ascii, Hlen. reflexivity.
  - now apply Forall_prefix.
Qed.

Lemma attach_run this res opts log r log' :
  CloudFormationInit.bind this (stack res) opts log = (Ok r, log') ->
  exists delta,
    attach this res opts log = (Ok tt, log' ++ delta) /\
    (option_or (AttachInitOptions.embedFingerprint opts) true = true ->
     In (AddCommands (AttachInitOptions.userData opts)
           ["# fingerprint: " +++ fingerprint (configData r)]) delta).
Proof.
  intros Hbind. unfold attach, CloudFormationInit._attach.
  unfold mbind at 1. rewrite Hbind. fold fingerprint.
  unfold mbind, emit, ret.
  destruct (truthy (authData r));
    destruct (option_or (AttachInitOptions.embedFingerprint opts) true);
    destruct (AttachInitOptions.platform opts);
    rewrite <- ?app_assoc; eexists; (split; [reflexivity|]);
    intros Hfp; try discriminate; simpl; tauto.
Qed.

(** C9. The fingerprint is computed from the rendered document alone: it
    is the first 16 characters of the hex SHA-256 digest of the
    serialized document, hence 16 hex characters long.  Attaching the
    same registry twice, from whatever logs, succeeds both times with the
    same effects, among them (unless switched off) the same fingerprint
    comment. *)
Theorem fingerprint_deterministic_16_hex (this : CloudFormationInit.t)
    (res : CfnResource) (opts : AttachInitOptions.t)
    (log1 log1' log2 : list effect) (r : BindResult) :
  (forall content, hex_digest (sha256_hex content)) ->
  CloudFormationInit.bind this (stack res) opts log1 = (Ok r, log1') ->
  let fp := fingerprint (configData r) in
  fp = substring 0 16 (sha256_hex (JSON_stringify (configData r))) /\
  String.length fp = 16 /\
  hex_string fp /\
  exists delta,
    attach this res opts log1 = (Ok tt, log1 ++ delta) /\
    attach this res opts log2 = (Ok tt, log2 ++ delta) /\
    attach this res opts (log1 ++ delta) = (Ok tt, (log1 ++ delta) ++ delta) /\
    (option_or (AttachInitOptions.embedFingerprint opts) true = true ->
     In (AddCommands (AttachInitOptions.userData opts) ["# fingerprint: " +++ fp]) delta).
Proof.
  intros Hdigest Hbind fp.
  destruct (fingerprint_form (configData r) Hdigest) as [Hlen Hhex].
  split; [reflexivity|]. split; [exact Hlen|]. split; [exact Hhex|].
  pose proof (parametric_registry_bind this (stack res) opts) as Hpb.
  assert (Hbind0 : CloudFormationInit.bind this (stack res) opts []
                   = (Ok r, snd (CloudFormationInit.bind this (stack res) opts []))).
  { rewrite (Hpb log1) in Hbind. injection Hbind as Hfst _.
    rewrite <- Hfst. now destruct (CloudFormationInit.bind this (stack res) opts []). }
  destruct (attach_run this res opts [] r _ Hbind0) as [delta0 [Hrun Hin]].
  pose proof (parametric_attach this res opts) as Hpa.
  set (delta := snd (CloudFormationInit.bind this (stack res) opts []) ++ delta0) in *.
  assert (Hany : forall log, attach this res opts log = (Ok tt, log ++ delta)).
  { intros log. rewrite (Hpa log), Hrun. reflexivity. }
  exists delta. repeat split; try apply Hany.
  intros Hfp. unfold delta. apply in_or_app. right. now apply Hin.
Qed.
End Fingerprint.

Lemma sample_digest_hex (content : string) : hex_digest (sample_digest content).
Proof. split; [reflexivity | repeat constructor]. Qed.

Lemma fingerprint_deterministic_16_hex_witness :
  let attach := CloudFormationInit._attach "R" "S" "I" sample_stringify sample_digest in
  let fp := CloudFormationInit.fingerprint_of sample_stringify sample_digest
              (configData example_rendered) in
  fp = substring 0 16 (sample_digest (sample_stringify (configData example_rendered))) /\
  String.length fp = 16 /\
  hex_string fp /\
  exists delta,
    attach registry_example sample_resource sample_options [] = (Ok tt, [] ++ delta) /\
    attach registry_example sample_resource sample_options [] = (Ok tt, [] ++ delta) /\
    attach registry_example sample_resource sample_options ([] ++ delta)
    = (Ok tt, ([] ++ delta) ++ delta) /\
    (option_or (AttachInitOptions.embedFingerprint sample_options) true = true ->
     In (AddCommands (AttachInitOptions.userData sample_options) ["# fingerprint: " +++ fp])
        delta).
Proof.
  apply (fingerprint_deterministic_16_hex "R" "S" "I" sample_stringify sample_digest
           registry_example sample_resource sample_options []
           (snd (CloudFormationInit.bind registry_example 0 sample_options [])) []
           example_rendered).
  - exact sample_digest_hex.
  - reflexivity.
Defined.

(** ** Sets of array elements *)

Lemma prim_eqb_eq p q : prim_eqb p q = true <-> p = q.
Proof.
  destruct p, q; simpl; split; try congruence; try discriminate.
  - intros H. apply Bool.eqb_prop in H. now subst.
  - intros [= ->]. apply Bool.eqb_reflx.
  - intros H. apply Z.eqb_eq in H. now subst.
  - intros [= ->]. apply Z.eqb_refl.
  - intros H. apply String.eqb_eq in H. now subst.
  - intros [= ->]. apply String.eqb_refl.
Qed.

Lemma sameValueZero_eq a b : sameValueZero a b = true <-> a = b.
Proof.
  destruct a, b; simpl; split; try congruence; try discriminate.
  - intros H. apply prim_eqb_eq in H. now subst.
  - intros [= ->]. now apply prim_eqb_eq.
  - intros H. apply Nat.eqb_eq in H. now subst.
  - intros [= ->]. apply Nat.eqb_refl.
Qed.

Lemma Set_has_In x set : existsb (sameValueZero x) set = true <-> In x set.
Proof.
  rewrite existsb_exists. split.
  - intros [y [Hy Heq]]. apply sameValueZero_eq in Heq. now subst.
  - intros H. exists x. split; [exact H | now apply sameValueZero_eq].
Qed.

Lemma Set_add_old x set : In x set -> Set_add set x = set.
Proof. intros H. unfold Set_add. apply Set_has_In in H. now rewrite H. Qed.

Lemma Set_add_new x set : ~ In x set -> Set_add set x = set ++ [x].
Proof.
  intros H. unfold Set_add. destruct (existsb _ set) eqn:E; [|reflexivity].
  apply Set_has_In in E. contradiction.
Qed.

Lemma Set_fold_In xs : forall set x,
  In x (fold_left Set_add xs set) <-> In x set \/ In x xs.
Proof.
  induction xs as [|y xs IH]; intros set x; simpl; [tauto|].
  rewrite IH. unfold Set_add. destruct (existsb _ set) eqn:E.
  - apply Set_has_In in E. split; [tauto|]. intros [H|[<-|H]]; auto.
  - rewrite in_app_iff. simpl. tauto.
Qed.

Lemma Set_fold_NoDup xs : forall set,
  NoDup set -> NoDup (fold_left Set_add xs set).
Proof.
  induction xs as [|y xs IH]; intros set Hnd; simpl; [exact Hnd|].
  apply IH. unfold Set_add. destruct (existsb _ set) eqn:E; [exact Hnd|].
  apply NoDup_app; [exact Hnd | repeat constructor; simpl; tauto|].
  intros x Hx [<-|[]]. apply Set_has_In in Hx. congruence.
Qed.

Lemma Array_from_Set_In xs x : In x (Array_from_Set xs) <-> In x xs.
Proof. unfold Array_from_Set. rewrite Set_fold_In. simpl. tauto. Qed.

Lemma Array_from_Set_NoDup xs : NoDup (Array_from_Set xs).
Proof. apply Set_fold_NoDup. constructor. Qed.

Lemma Set_fold_snoc xs x set :
  fold_left Set_add (xs ++ [x]) set = Set_add (fold_left Set_add xs set) x.
Proof. now rewrite fold_left_app. Qed.

(** Adding the elements of a list or those of its set makes no difference. *)
Lemma Set_fold_Array_from_Set xs : forall set,
  fold_left Set_add (Array_from_Set xs) set = fold_left Set_add xs set.
Proof.
  induction xs as [|x xs IH] using rev_ind; intros set; [reflexivity|].
  unfold Array_from_Set in *. rewrite !Set_fold_snoc.
  destruct (existsb (sameValueZero x) xs) eqn:E.
  - apply Set_has_In in E.
    rewrite (Set_add_old x (fold_left Set_add xs [])) by (apply Set_fold_In; auto).
    rewrite IH. symmetry. apply Set_add_old. apply Set_fold_In. auto.
  - assert (Hnot : ~ In x xs) by (rewrite <- Set_has_In; congruence).
    rewrite (Set_add_new x (fold_left Set_add xs [])).
    + rewrite Set_fold_snoc, IH. reflexivity.
    + rewrite Set_fold_In. simpl. tauto.
Qed.

Lemma Array_from_Set_app_l xs ys :
  Array_from_Set (Array_from_Set xs ++ ys) = Array_from_Set (xs ++ ys).
Proof.
  unfold Array_from_Set at 1 3. rewrite !fold_left_app.
  now rewrite Set_fold_Array_from_Set.
Qed.

Lemma Array_from_Set_app_r xs ys :
  Array_from_Set (xs ++ Array_from_Set ys) = Array_from_Set (xs ++ ys).
Proof.
  unfold Array_from_Set at 1 3. rewrite !fold_left_app.
  now rewrite Set_fold_Array_from_Set.
Qed.

(** ** deepMerge *)

Lemma deepMergeInto_object target es :
  deepMergeInto target (VObject es) = mergeEntries es target.
Proof.
  revert target. induction es as [|[k v] es IH]; intros target; [reflexivity|].
  simpl. simpl in IH. destruct (mergeEntry deepMergeInto target k v); simpl; auto.
Qed.

Lemma deepMerge_objects fields es :
  deepMerge (VObject fields) (VObject es) = mergeEntries es (VObject fields).
Proof. unfold deepMerge. simpl is_nullish. cbv iota. apply deepMergeInto_object. Qed.

Lemma mergeEntries_app es1 es2 target :
  mergeEntries (es1 ++ es2) target
  = let! target' := mergeEntries es1 target in mergeEntries es2 target'.
Proof.
  revert target. induction es1 as [|[k v] es1 IH]; intros target; [reflexivity|].
  simpl. destruct (mergeEntry deepMergeInto target k v); simpl; auto.
Qed.

Lemma proto_inherited k : String.eqb k "__proto__" = true -> inherited_name k = true.
Proof. intros H. apply String.eqb_eq in H. now subst. Qed.

Lemma own_lookup_cases {A : Type} (k : string) (o : obj A) :
  own_lookup k o = true <-> In k (keys o) \/ inherited_name k = false.
Proof.
  unfold own_lookup. now rewrite orb_true_iff, negb_true_iff, obj_has_In_keys.
Qed.

Lemma set_prop_own fields k x :
  own_lookup k fields = true ->
  set_prop (VObject fields) k x = Ok (VObject (obj_set k x fields)).
Proof.
  unfold own_lookup, set_prop. intros H.
  destruct (String.eqb k "__proto__") eqn:E; [|reflexivity].
  rewrite (proto_inherited _ E), orb_false_r in H. now rewrite H.
Qed.

Lemma set_prop_Ok fields k x t :
  set_prop (VObject fields) k x = Ok t -> t = VObject (obj_set k x fields).
Proof. unfold set_prop. destruct (_ && _); [discriminate | now intros [= <-]]. Qed.

Lemma read_prop_own fields k :
  own_lookup k fields = true ->
  read_prop (VObject fields) k = Ok (Found (get_prop (VObject fields) k)).
Proof.
  unfold own_lookup, obj_has. simpl. destruct (obj_get k fields); [reflexivity|].
  simpl. intros H. apply negb_true_iff in H. now rewrite H.
Qed.

(** An iteration on an object whose lookup stays within the object:
    the value for the key is computed from the property found, and
    assigned. *)
Lemma mergeEntry_combine fields k v :
  v <> undefined ->
  own_lookup k fields = true ->
  mergeEntry deepMergeInto (VObject fields) k v
  = let! v' := combine (obj_get k fields) v in Ok (VObject (obj_set k v' fields)).
Proof.
  intros Hv Hown. unfold mergeEntry, combine.
  rewrite (read_prop_own _ _ Hown). cbn [obind get_prop].
  destruct v as [[| |b|z|s]|items|entries]; try (now apply set_prop_own).
  - congruence.
  - destruct (truthy _ && negb _); [reflexivity|].
    destruct (spread _); [now apply set_prop_own | reflexivity | reflexivity].
  - destruct (deepMergeInto _ _); [now apply set_prop_own | reflexivity | reflexivity].
Qed.

(** Whatever the lookup, an iteration that returns has done the same. *)
Lemma mergeEntry_Ok fields k v r :
  v <> undefined ->
  mergeEntry deepMergeInto (VObject fields) k v = Ok r ->
  exists v', combine (obj_get k fields) v = Ok v' /\ r = VObject (obj_set k v' fields).
Proof.
  intros Hv. destruct (own_lookup k fields) eqn:Hown.
  - rewrite (mergeEntry_combine _ _ _ Hv Hown).
    destruct (combine _ v) as [v'| |]; try discriminate.
    intros [= <-]. now exists v'.
  - unfold own_lookup, obj_has in Hown. apply orb_false_iff in Hown as [Hnone Hinh].
    apply negb_false_iff in Hinh.
    unfold mergeEntry. simpl read_prop.
    destruct (obj_get k fields) eqn:Hget; [discriminate|]. rewrite Hinh. cbn [obind].
    destruct v as [[| |b|z|s]|items|entries]; try discriminate; try congruence;
      intros Hset; apply set_prop_Ok in Hset; eexists; (split; [reflexivity | exact Hset]).
Qed.

(** On an object, an iteration assigns to its own key or fails. *)
Lemma mergeEntry_object fields k v t' :
  mergeEntry deepMergeInto (VObject fields) k v = Ok t' ->
  exists fields',
    t' = VObject fields' /\
    (forall k', k' <> k -> obj_get k' fields' = obj_get k' fields) /\
    (NoDup (keys fields) -> NoDup (keys fields')).
Proof.
  destruct v as [[| |b|z|s]|items|entries].
  1: { intros [= <-]. exists fields. auto. }
  all: intros H; apply mergeEntry_Ok in H as [v' [_ ->]]; [|discriminate];
    eexists; (split; [reflexivity|]); split;
    [ intros k' Hne; rewrite obj_get_set; apply String.eqb_neq in Hne; now rewrite Hne
    | apply NoDup_keys_set ].
Qed.

Lemma mergeEntries_object es : forall fields t',
  mergeEntries es (VObject fields) = Ok t' ->
  exists fields',
    t' = VObject fields' /\
    (forall k, ~ In k (keys es) -> obj_get k fields' = obj_get k fields) /\
    (NoDup (keys fields) -> NoDup (keys fields')).
Proof.
  induction es as [|[k v] es IH]; intros fields t'; simpl.
  - intros [= <-]. exists fields. auto.
  - destruct (mergeEntry deepMergeInto (VObject fields) k v) as [t1| |] eqn:Hstep;
      try discriminate.
    apply mergeEntry_object in Hstep as [fields1 [-> [Hother Hnd1]]]. simpl.
    intros Hrest. apply IH in Hrest as [fields' [-> [Hrest Hnd']]].
    exists fields'. split; [reflexivity|]. split; [|auto].
    intros k' Hnot. rewrite Hrest by tauto. apply Hother. intros ->. tauto.
Qed.

(** The entry of a key in a property list, and what precedes it. *)
Lemma obj_get_split {A : Type} (k : string) (o : obj A) (v : A) :
  obj_get k o = Some v ->
  exists before after, o = before ++ (k, v) :: after /\ ~ In k (keys before).
Proof.
  induction o as [|[k' v'] o IH]; simpl; [discriminate|].
  destruct (String.eqb_spec k k') as [->|Hne].
  - intros [= ->]. exists [], o. split; [reflexivity | simpl; tauto].
  - intros H. destruct (IH H) as [before [after [-> Hnot]]].
    exists ((k', v') :: before), after. split; [reflexivity|].
    simpl. intros [Heq|Hin]; [congruence | contradiction].
Qed.

Lemma NoDup_keys_split {A : Type} (k : string) (v : A) (before after : obj A) :
  NoDup (keys (before ++ (k, v) :: after)) -> ~ In k (keys after).
Proof.
  unfold keys. rewrite map_app. simpl. intros Hnd Hin.
  apply NoDup_remove_2 in Hnd. apply Hnd. apply in_or_app. now right.
Qed.

(** C4. When [k] holds an array in both documents, a merge that returns
    holds at [k] the array of the distinct elements of both, in order of
    first occurrence: it has no duplicates and the same elements as the two
    arrays together.  Merging [{k: [a, b]}] with [{k: [b, c]}] returns, and
    yields for [k] exactly such an array. *)
Theorem merged_arrays_are_set_union (target src : list (string * value)) (k : string)
    (xs ys : list atom) (merged : value) :
  NoDup (keys src) ->
  obj_get k target = Some (VArray xs) ->
  obj_get k src = Some (VArray ys) ->
  deepMerge (VObject target) (VObject src) = Ok merged ->
  (exists zs,
      get_prop merged k = VArray zs /\
      zs = Array_from_Set (xs ++ ys) /\
      NoDup zs /\
      forall x, In x zs <-> In x xs \/ In x ys) /\
  (forall a b c,
      exists zs,
        deepMerge (VObject [(k, VArray [a; b])]) (VObject [(k, VArray [b; c])])
        = Ok (VObject [(k, VArray zs)]) /\
        NoDup zs /\
        forall x, In x zs <-> In x [a; b; c]).
Proof.
  intros Hnd Htarget Hsrc Hmerge. split.
  - rewrite deepMerge_objects in Hmerge.
    destruct (obj_get_split _ _ _ Hsrc) as [before [after [-> Hbefore]]].
    pose proof (NoDup_keys_split _ _ _ _ Hnd) as Hafter.
    rewrite mergeEntries_app in Hmerge.
    destruct (mergeEntries before (VObject target)) as [t1| |] eqn:H1; try discriminate.
    apply mergeEntries_object in H1 as [fields1 [-> [Hkeep1 _]]].
    pose proof (Hkeep1 k Hbefore) as Hk. rewrite Htarget in Hk.
    cbn [mergeEntries obind] in Hmerge.
    rewrite mergeEntry_combine in Hmerge;
      [|discriminate | apply own_lookup_cases; left; apply obj_get_In_keys; congruence].
    rewrite Hk in Hmerge. cbn [combine truthy isArray andb negb nullish_or is_nullish
                                 spread obind] in Hmerge.
    apply mergeEntries_object in Hmerge as [fields2 [-> [Hkeep2 _]]].
    exists (Array_from_Set (xs ++ ys)). repeat split.
    + simpl. rewrite (Hkeep2 k Hafter), obj_get_set, String.eqb_refl. reflexivity.
    + apply Array_from_Set_NoDup.
    + rewrite Array_from_Set_In, in_app_iff. tauto.
    + rewrite Array_from_Set_In, in_app_iff. tauto.
  - intros a b c. exists (Array_from_Set ([a; b] ++ [b; c])). split; [|split].
    + rewrite deepMerge_objects. cbn [mergeEntries].
      rewrite mergeEntry_combine;
        [|discriminate | apply own_lookup_cases; left; simpl; auto].
      simpl. rewrite String.eqb_refl. simpl. unfold obj_set, obj_has. simpl.
      rewrite ?String.eqb_refl. simpl. now rewrite ?String.eqb_refl.
    + apply Array_from_Set_NoDup.
    + intros x. rewrite Array_from_Set_In. simpl. tauto.
Qed.

Lemma merged_arrays_are_set_union_witness :
  (exists zs,
      get_prop (VObject [("k", VArray [AString "a"; AString "b"; AString "c"])]) "k"
      = VArray zs /\
      zs = Array_from_Set ([AString "a"; AString "b"] ++ [AString "b"; AString "c"]) /\
      NoDup zs /\
      forall x, In x zs <-> In x [AString "a"; AString "b"] \/ In x [AString "b"; AString "c"]) /\
  (forall a b c,
      exists zs,
        deepMerge (VObject [("k", VArray [a; b])]) (VObject [("k", VArray [b; c])])
        = Ok (VObject [("k", VArray zs)]) /\
        NoDup zs /\
        forall x, In x zs <-> In x [a; b; c]).
Proof.
  apply (merged_arrays_are_set_union
           [("k", VArray [AString "a"; AString "b"])]
           [("k", VArray [AString "b"; AString "c"])]
           "k" [AString "a"; AString "b"] [AString "b"; AString "c"]
           (VObject [("k", VArray [AString "a"; AString "b"; AString "c"])])).
  - repeat constructor. simpl. tauto.
  - reflexivity.
  - reflexivity.
  - reflexivity.
Defined.

(** C2, counterexample.  A key of the target that holds [null] is a key
    with a non-sequence value, yet merging an array into it returns: the
    array takes the place of [null]. *)
Lemma array_merges_into_null :
  obj_get "k" [("k", null)] = Some null /\
  isArray null = false /\
  deepMerge (VObject [("k", null)]) (VObject [("k", VArray [AString "a"])])
  = Ok (VObject [("k", VArray [AString "a"])]).
Proof. repeat split. Qed.

(** C2, amended.  When [k] holds a truthy value that is not an array in the
    target (a non-empty string, a non-zero number, [true], an object) and
    an array in the source, [deepMerge] does not return; it throws the
    merge-type-conflict error as soon as the keys that precede [k] in the
    source have been merged, so in particular when [k] is the first key to
    fail. *)
Theorem array_into_non_array_throws (target src : list (string * value)) (k : string)
    (found : value) (items : list atom) :
  obj_get k target = Some found ->
  truthy found = true ->
  isArray found = false ->
  obj_get k src = Some (VArray items) ->
  (forall merged, deepMerge (VObject target) (VObject src) <> Ok merged) /\
  exists before after,
    src = before ++ (k, VArray items) :: after /\
    ~ In k (keys before) /\
    forall target',
      mergeEntries before (VObject target) = Ok target' ->
      deepMerge (VObject target) (VObject src)
      = Throw (MergeArrayIntoNonArray items found).
Proof.
  intros Htarget Htruthy Harray Hsrc.
  destruct (obj_get_split _ _ _ Hsrc) as [before [after [-> Hbefore]]].
  assert (Hthrow : forall target',
             mergeEntries before (VObject target) = Ok target' ->
             deepMerge (VObject target) (VObject (before ++ (k, VArray items) :: after))
             = Throw (MergeArrayIntoNonArray items found)).
  { intros target' H1. rewrite deepMerge_objects, mergeEntries_app, H1.
    apply mergeEntries_object in H1 as [fields1 [-> [Hkeep1 _]]].
    pose proof (Hkeep1 k Hbefore) as Hk. rewrite Htarget in Hk.
    cbn [mergeEntries obind].
    rewrite mergeEntry_combine;
      [|discriminate | apply own_lookup_cases; left; apply obj_get_In_keys; congruence].
    rewrite Hk. unfold combine. rewrite Htruthy, Harray. reflexivity. }
  split.
  - intros merged Hmerge.
    destruct (mergeEntries before (VObject target)) as [t1| |] eqn:H1.
    + rewrite (Hthrow t1 eq_refl) in Hmerge. discriminate.
    + rewrite deepMerge_objects, mergeEntries_app, H1 in Hmerge. discriminate.
    + rewrite deepMerge_objects, mergeEntries_app, H1 in Hmerge. discriminate.
  - exists before, after. repeat split; assumption.
Qed.

Lemma array_into_non_array_throws_witness :
  (forall merged,
      deepMerge (VObject [("j", VArray []); ("k", VString "v")])
        (VObject [("j", VArray [AString "x"]); ("k", VArray [AString "a"])])
      <> Ok merged) /\
  exists before after,
    [("j", VArray [AString "x"]); ("k", VArray [AString "a"])]
    = before ++ ("k", VArray [AString "a"]) :: after /\
    ~ In "k" (keys before) /\
    forall target',
      mergeEntries before (VObject [("j", VArray []); ("k", VString "v")]) = Ok target' ->
      deepMerge (VObject [("j", VArray []); ("k", VString "v")])
        (VObject [("j", VArray [AString "x"]); ("k", VArray [AString "a"])])
      = Throw (MergeArrayIntoNonArray [AString "a"] (VString "v")).
Proof.
  apply (array_into_non_array_throws
           [("j", VArray []); ("k", VString "v")]
           [("j", VArray [AString "x"]); ("k", VArray [AString "a"])]
           "k" (VString "v") [AString "a"]); reflexivity.
Defined.

(** The falsy scalars: an empty string gives way to the array, [0] and
    [false] fail in the spread, with a [TypeError]. *)
Example array_merges_into_empty_string :
  deepMerge (VObject [("k", VString "")]) (VObject [("k", VArray [AString "a"])])
  = Ok (VObject [("k", VArray [AString "a"])]).
Proof. reflexivity. Qed.

Example array_into_zero_is_a_TypeError :
  deepMerge (VObject [("k", VPrim (PNumber 0))]) (VObject [("k", VArray [AString "a"])])
  = Throw (TypeError_notIterable (VPrim (PNumber 0))).
Proof. reflexivity. Qed.

(** ** Identity and associativity of deepMerge *)

Lemma unique_NoDup ks : unique ks = true <-> NoDup ks.
Proof.
  induction ks as [|k ks IH]; simpl.
  - split; [constructor | reflexivity].
  - rewrite andb_true_iff, negb_true_iff, IH. split.
    + intros [Hk Hnd]. constructor; [|exact Hnd]. intros Hin.
      assert (existsb (String.eqb k) ks = true)
        by (apply existsb_exists; exists k; split; [exact Hin | apply String.eqb_refl]).
      congruence.
    + intros Hnd. inversion Hnd as [|? ? Hnot Hnd']; subst. split; [|exact Hnd'].
      destruct (existsb (String.eqb k) ks) eqn:E; [|reflexivity].
      apply existsb_exists in E as [k' [Hin Heq]]. apply String.eqb_eq in Heq. now subst.
Qed.

(** What [plain] says of an object. *)
Lemma plain_object fields :
  plain (VObject fields) = true <->
  NoDup (keys fields) /\
  forall k v, In (k, v) fields -> inherited_name k = false /\ plain v = true.
Proof.
  simpl. rewrite andb_true_iff, unique_NoDup. unfold keys.
  apply and_iff_compat_l.
  induction fields as [|[k v] fields IH].
  - split; [intros _ k v [] | reflexivity].
  - rewrite !andb_true_iff, IH, negb_true_iff. split.
    + intros [[Hk Hv] Hrest] k' v' [[= <- <-]|Hin]; [|now apply Hrest].
      now split.
    + intros H. split; [split|].
      * apply (H k v). now left.
      * apply (H k v). now left.
      * intros k' v' Hin. apply H. now right.
Qed.

Lemma plain_defined v : plain v = true -> is_nullish v = false.
Proof. destruct v as [[| | | |]| |]; simpl; congruence. Qed.

Lemma vsize_object fields : vsize (VObject fields) = S (esize fields).
Proof.
  simpl. f_equal. unfold esize.
  induction fields as [|[k v] fields IH]; simpl; [reflexivity | now rewrite IH].
Qed.

Lemma esize_In k v es : In (k, v) es -> vsize v <= esize es.
Proof.
  unfold esize. induction es as [|[k' v'] es IH]; simpl; [tauto|].
  intros [[= -> ->]|Hin]; [lia | specialize (IH Hin); lia].
Qed.

(** A target that is not an object survives only an empty loop. *)
Lemma mergeEntry_non_object target k v r :
  (forall fields, target <> VObject fields) ->
  mergeEntry deepMergeInto target k v = Ok r -> v = undefined /\ r = target.
Proof.
  intros Hshape. unfold mergeEntry.
  destruct target as [p|xs|fields]; [| |now destruct (Hshape fields)].
  - (* a primitive: every assignment throws *)
    destruct v as [[| |b|z|s]|items|entries]; cbn [set_prop]; try discriminate.
    + intros [= <-]. now split.
    + destruct (read_prop (VPrim p) k) as [[found|]| |]; cbn [obind]; try discriminate.
      destruct (truthy _ && negb _); [discriminate|].
      destruct (spread _); discriminate.
    + destruct (read_prop (VPrim p) k) as [[found|]| |]; cbn [obind]; try discriminate.
      destruct (deepMergeInto _ _); discriminate.
  - (* an array *)
    destruct v as [[| |b|z|s]|items|entries]; cbn [read_prop obind set_prop];
      try discriminate.
    intros [= <-]. now split.
Qed.

Lemma mergeEntries_non_object es target r :
  (forall fields, target <> VObject fields) ->
  mergeEntries es target = Ok r ->
  r = target /\ forall k v, In (k, v) es -> v = undefined.
Proof.
  intros Hshape. induction es as [|[k v] es IH]; simpl.
  - intros [= <-]. split; [reflexivity | intros k v []].
  - destruct (mergeEntry deepMergeInto target k v) as [t1| |] eqn:Hstep; try discriminate.
    apply mergeEntry_non_object in Hstep as [-> ->]; [|exact Hshape].
    simpl. intros Hrest. destruct (IH Hrest) as [-> Hall]. split; [reflexivity|].
    intros k' v' [[= <- <-]|Hin]; [reflexivity | now apply (Hall k')].
Qed.

Lemma plain_defined_entries es : plain (VObject es) = true -> defined_entries es.
Proof.
  intros H. apply plain_object in H as [Hnd Hall]. split; [exact Hnd|].
  intros k v Hin. destruct (Hall k v Hin) as [_ Hv].
  intros ->. discriminate.
Qed.

Lemma named_defined_entries es : named_entries es -> defined_entries es.
Proof.
  intros [Hnd Hall]. split; [exact Hnd|]. intros k v Hin. apply (Hall k v Hin).
Qed.

Lemma In_keys_entry {A : Type} (k : string) (o : obj A) :
  In k (keys o) -> exists v, In (k, v) o.
Proof.
  unfold keys. rewrite in_map_iff. intros [[k' v] [Hk Hin]]. simpl in Hk. subst.
  now exists v.
Qed.

Lemma filter_filter {A : Type} (f g : A -> bool) (l : list A) :
  filter f (filter g l) = filter (fun x => g x && f x) l.
Proof.
  induction l as [|x l IH]; simpl; [reflexivity|].
  destruct (g x); simpl; [destruct (f x); now rewrite IH | exact IH].
Qed.

Lemma obj_has_set {A : Type} (k k' : string) (v : A) (o : obj A) :
  obj_has k' (obj_set k v o) = String.eqb k' k || obj_has k' o.
Proof.
  unfold obj_has. rewrite obj_get_set. now destruct (String.eqb k' k).
Qed.

(** Two property lists with the same names in the same order and the same
    value under every name are the same. *)
Lemma obj_ext {A : Type} (a b : obj A) :
  keys a = keys b -> NoDup (keys a) ->
  (forall k, obj_get k a = obj_get k b) -> a = b.
Proof.
  revert b. induction a as [|[k v] a IH]; intros [|[k' v'] b]; simpl; try discriminate.
  - reflexivity.
  - intros Hkeys Hnd Hget. injection Hkeys as Hkk Hkeys. subst k'.
    apply NoDup_cons_iff in Hnd as [Hnot Hnd'].
    pose proof (Hget k) as Hk. rewrite String.eqb_refl in Hk. injection Hk as <-.
    f_equal. apply IH; [exact Hkeys | exact Hnd'|].
    intros k2. specialize (Hget k2).
    destruct (String.eqb_spec k2 k) as [Heq|Hne]; [subst k2 | exact Hget].
    assert (H1 : obj_get k a = None) by now apply obj_get_None.
    assert (H2 : obj_get k b = None) by (apply obj_get_None; now rewrite <- Hkeys).
    congruence.
Qed.

(** *** Array-index names are canonical *)

Lemma digit_of_Some c d :
  digit_of c = Some d ->
  (48 <= N_of_ascii c)%N /\ (N_of_ascii c <= 57)%N /\ d = (N_of_ascii c - 48)%N.
Proof.
  unfold digit_of. cbv zeta.
  destruct (48 <=? N_of_ascii c)%N eqn:E1; [|discriminate].
  destruct (N_of_ascii c <=? 57)%N eqn:E2; [|discriminate].
  simpl. intros [= <-]. apply N.leb_le in E1, E2. auto.
Qed.

Lemma digit_of_bound c d : digit_of c = Some d -> (d <= 9)%N.
Proof. intros H. apply digit_of_Some in H. lia. Qed.

Lemma digit_of_inj c c' d : digit_of c = Some d -> digit_of c' = Some d -> c = c'.
Proof.
  intros H H'. apply digit_of_Some in H, H'.
  rewrite <- (ascii_N_embedding c), <- (ascii_N_embedding c'). f_equal. lia.
Qed.

Lemma pow10_succ (n : nat) : (10 ^ N.of_nat (S n) = 10 * 10 ^ N.of_nat n)%N.
Proof. rewrite Nat2N.inj_succ. apply N.pow_succ_r'. Qed.

Lemma pow10_pos (n : N) : (1 <= 10 ^ n)%N.
Proof.
  assert (10 ^ n <> 0)%N by (apply N.pow_nonzero; discriminate). lia.
Qed.

Lemma digits_value_bounds s : forall a v,
  digits_value s a = Some v ->
  (a * 10 ^ N.of_nat (String.length s) <= v
   /\ v < (a + 1) * 10 ^ N.of_nat (String.length s))%N.
Proof.
  induction s as [|c s IH]; intros a v.
  - simpl. intros [= <-]. lia.
  - cbn [digits_value String.length]. destruct (digit_of c) as [d|] eqn:Hd; [|discriminate].
    intros H. apply IH in H. apply digit_of_bound in Hd. rewrite pow10_succ.
    pose proof (pow10_pos (N.of_nat (String.length s))). nia.
Qed.

Lemma digits_value_inj s : forall t a b v,
  String.length s = String.length t ->
  digits_value s a = Some v -> digits_value t b = Some v -> a = b /\ s = t.
Proof.
  induction s as [|c s IH]; intros [|c' t] a b v; simpl; try discriminate.
  - intros _ [= <-] [= <-]. now split.
  - intros [= Hlen].
    destruct (digit_of c) as [d|] eqn:Hd; [|discriminate].
    destruct (digit_of c') as [d'|] eqn:Hd'; [|discriminate].
    intros H1 H2. destruct (IH _ _ _ _ Hlen H1 H2) as [Hacc ->].
    pose proof (digit_of_bound _ _ Hd). pose proof (digit_of_bound _ _ Hd').
    assert (d = d') by lia. subst d'. split; [lia|].
    f_equal. now apply (digit_of_inj _ _ d).
Qed.

(** A name that is an array index is [0], or a digit string that does not
    start with [0]. *)
Lemma array_index_Some k n :
  array_index k = Some n ->
  (k = "0" /\ n = 0%N) \/
  (exists c s d,
      k = String c s /\ digit_of c = Some d /\ (1 <= d)%N /\
      digits_value s d = Some n).
Proof.
  destruct k as [|c s]; [discriminate|].
  destruct (Ascii.eqb_spec c "0") as [->|Hc].
  - destruct s as [|c' s]; [intros [= <-]; now left | discriminate].
  - assert (Heq : array_index (String c s)
                  = match digits_value (String c s) 0%N with
                    | Some n => if (n <=? 4294967294)%N then Some n else None
                    | None => None
                    end).
    { destruct c as [[|] [|] [|] [|] [|] [|] [|] [|]]; try reflexivity.
      now destruct Hc. }
    rewrite Heq. cbn [digits_value].
    destruct (digit_of c) as [d|] eqn:Hd; [|discriminate].
    change (0 * 10 + d)%N with d.
    destruct (digits_value s d) as [v|] eqn:Hv; [|discriminate].
    destruct (v <=? 4294967294)%N; [|discriminate]. intros [= <-].
    right. exists c, s, d. repeat split; try assumption.
    destruct (N.eq_dec d 0) as [->|]; [|lia].
    exfalso. apply Hc. now apply (digit_of_inj _ _ 0%N).
Qed.

Lemma array_index_inj k k' n :
  array_index k = Some n -> array_index k' = Some n -> k = k'.
Proof.
  intros H H'.
  apply array_index_Some in H as [[-> ->]|[c [s [d [-> [Hd [Hd1 Hv]]]]]]];
    apply array_index_Some in H' as [[-> Hn]|[c' [s' [d' [-> [Hd' [Hd1' Hv']]]]]]].
  - reflexivity.
  - apply digits_value_bounds in Hv'. pose proof (pow10_pos (N.of_nat (String.length s'))).
    nia.
  - subst n. apply digits_value_bounds in Hv.
    pose proof (pow10_pos (N.of_nat (String.length s))). nia.
  - pose proof (digit_of_bound _ _ Hd). pose proof (digit_of_bound _ _ Hd').
    destruct (Nat.eq_dec (String.length s) (String.length s')) as [Hlen|Hlen].
    + destruct (digits_value_inj _ _ _ _ _ Hlen Hv Hv') as [-> ->].
      f_equal. now apply (digit_of_inj _ _ d').
    + exfalso. apply digits_value_bounds in Hv, Hv'.
      assert (Hcase : String.length s < String.length s' \/ String.length s' < String.length s)
        by lia.
      destruct Hcase as [Hlt|Hlt].
      * assert (Hpow : (10 * 10 ^ N.of_nat (String.length s)
                        <= 10 ^ N.of_nat (String.length s'))%N).
        { rewrite <- pow10_succ. apply N.pow_le_mono_r; [discriminate | lia]. }
        nia.
      * assert (Hpow : (10 * 10 ^ N.of_nat (String.length s')
                        <= 10 ^ N.of_nat (String.length s))%N).
        { rewrite <- pow10_succ. apply N.pow_le_mono_r; [discriminate | lia]. }
        nia.
Qed.

(** *** The names of a merged object *)

Lemma existsb_eqb_In k ks : existsb (String.eqb k) ks = true <-> In k ks.
Proof.
  rewrite existsb_exists. split.
  - intros [x [Hx Heq]]. apply String.eqb_eq in Heq. now subst.
  - intros H. exists k. split; [exact H | apply String.eqb_refl].
Qed.

Lemma obj_has_existsb {A : Type} (k : string) (o : obj A) :
  obj_has k o = existsb (String.eqb k) (keys o).
Proof.
  unfold obj_has. induction o as [|[k' v] o IH]; simpl; [reflexivity|].
  destruct (String.eqb k k'); [reflexivity | exact IH].
Qed.

Lemma keys_insert_index {A : Type} (n : N) (k : string) (v : A) (o : obj A) :
  keys (obj_insert_index n k v o) = insert_key n k (keys o).
Proof.
  induction o as [|[k' v'] o IH]; simpl; [reflexivity|].
  destruct (array_index k') as [m|]; [destruct (m <? n)%N|]; simpl;
    now rewrite ?IH.
Qed.

Lemma keys_set_add_key {A : Type} (k : string) (v : A) (o : obj A) :
  keys (obj_set k v o) = add_key (keys o) k.
Proof.
  unfold obj_set, add_key. rewrite <- obj_has_existsb.
  destruct (obj_has k o); [apply keys_replace|].
  destruct (array_index k); [apply keys_insert_index|].
  unfold keys. now rewrite map_app.
Qed.

Lemma insert_key_In n k ks x : In x (insert_key n k ks) <-> x = k \/ In x ks.
Proof.
  induction ks as [|k' ks IH]; simpl; [intuition|].
  destruct (array_index k') as [m|]; [destruct (m <? n)%N|]; simpl;
    try rewrite IH; intuition.
Qed.

Lemma add_key_old ks k : In k ks -> add_key ks k = ks.
Proof. intros H. unfold add_key. apply existsb_eqb_In in H. now rewrite H. Qed.

Lemma add_key_index ks k n :
  ~ In k ks -> array_index k = Some n -> add_key ks k = insert_key n k ks.
Proof.
  intros Hnot Hk. unfold add_key. rewrite Hk.
  destruct (existsb _ ks) eqn:E; [|reflexivity].
  apply existsb_eqb_In in E. contradiction.
Qed.

Lemma add_key_named ks k :
  ~ In k ks -> array_index k = None -> add_key ks k = ks ++ [k].
Proof.
  intros Hnot Hk. unfold add_key. rewrite Hk.
  destruct (existsb _ ks) eqn:E; [|reflexivity].
  apply existsb_eqb_In in E. contradiction.
Qed.

Lemma add_key_In ks k x : In x (add_key ks k) <-> x = k \/ In x ks.
Proof.
  destruct (in_dec string_dec k ks) as [Hin|Hnot].
  - rewrite (add_key_old _ _ Hin). split; [auto | intros [->|H]; assumption].
  - destruct (array_index k) as [n|] eqn:Hk.
    + rewrite (add_key_index _ _ _ Hnot Hk). apply insert_key_In.
    + rewrite (add_key_named _ _ Hnot Hk), in_app_iff. simpl. intuition congruence.
Qed.

Lemma merge_keys_In l : forall ks x, In x (merge_keys ks l) <-> In x ks \/ In x l.
Proof.
  unfold merge_keys. induction l as [|k l IH]; intros ks x; simpl; [tauto|].
  rewrite IH, add_key_In. intuition congruence.
Qed.

Lemma merge_keys_app ks l1 l2 :
  merge_keys ks (l1 ++ l2) = merge_keys (merge_keys ks l1) l2.
Proof. apply fold_left_app. Qed.

(** Two new array-index names find their places independently. *)
Lemma insert_key_comm n m k k' ks :
  n <> m -> array_index k = Some n -> array_index k' = Some m ->
  insert_key n k (insert_key m k' ks) = insert_key m k' (insert_key n k ks).
Proof.
  intros Hnm Hk Hk'. induction ks as [|k0 ks IH]; simpl.
  - rewrite Hk, Hk'. destruct (N.ltb_spec m n), (N.ltb_spec n m); try lia; reflexivity.
  - destruct (array_index k0) as [j|] eqn:Hk0;
      repeat (simpl; rewrite ?Hk0, ?Hk, ?Hk';
              match goal with
              | |- context [(?a <? ?b)%N] => destruct (N.ltb_spec a b); try lia
              end);
      simpl; rewrite ?Hk0, ?Hk, ?Hk', ?IH; reflexivity.
Qed.

Lemma insert_key_before_named n k ks k' :
  array_index k' = None -> insert_key n k (ks ++ [k']) = insert_key n k ks ++ [k'].
Proof.
  intros Hk'. induction ks as [|k0 ks IH]; simpl.
  - now rewrite Hk'.
  - destruct (array_index k0) as [j|]; [destruct (j <? n)%N|]; simpl; now rewrite ?IH.
Qed.

(** The assignment of an array-index name commutes with any other. *)
Lemma add_key_comm_index ks k k' n :
  array_index k = Some n ->
  add_key (add_key ks k') k = add_key (add_key ks k) k'.
Proof.
  intros Hk. destruct (string_dec k k') as [<-|Hne]; [reflexivity|].
  destruct (in_dec string_dec k ks) as [Hin|Hnot].
  { rewrite (add_key_old ks k Hin). apply add_key_old. apply add_key_In. now right. }
  destruct (in_dec string_dec k' ks) as [Hin'|Hnot'].
  { rewrite (add_key_old ks k' Hin'). symmetry. apply add_key_old.
    apply add_key_In. now right. }
  assert (H1 : ~ In k (add_key ks k')) by (rewrite add_key_In; tauto).
  assert (H2 : ~ In k' (add_key ks k))
    by (rewrite add_key_In; intros [Heq|H]; [now apply Hne | contradiction]).
  rewrite (add_key_index _ _ _ H1 Hk), (add_key_index _ _ _ Hnot Hk).
  destruct (array_index k') as [m|] eqn:Hk'.
  - rewrite (add_key_index _ _ _ Hnot' Hk').
    rewrite (add_key_index (insert_key n k ks) k' m).
    + apply insert_key_comm; [|exact Hk | exact Hk'].
      intros ->. apply Hne. now apply (array_index_inj _ _ m).
    + rewrite insert_key_In. intros [Heq|H]; [now apply Hne | contradiction].
    + exact Hk'.
  - rewrite (add_key_named _ _ Hnot' Hk').
    rewrite (add_key_named (insert_key n k ks) k').
    + now apply insert_key_before_named.
    + rewrite insert_key_In. intros [Heq|H]; [now apply Hne | contradiction].
    + exact Hk'.
Qed.

Lemma merge_keys_add_index l : forall ks k n,
  array_index k = Some n ->
  add_key (merge_keys ks l) k = merge_keys (add_key ks k) l.
Proof.
  unfold merge_keys. induction l as [|k' l IH]; intros ks k n Hk; simpl; [reflexivity|].
  rewrite (IH _ _ _ Hk). f_equal. now apply (add_key_comm_index _ _ _ n).
Qed.

Lemma insert_key_split n k ks :
  exists l1 l2, ks = l1 ++ l2 /\ insert_key n k ks = l1 ++ k :: l2.
Proof.
  induction ks as [|k0 ks IH]; simpl.
  - exists [], []. auto.
  - destruct (array_index k0) as [m|]; [destruct (m <? n)%N|].
    + destruct IH as [l1 [l2 [-> Hins]]].
      exists (k0 :: l1), l2. rewrite Hins. auto.
    + exists [], (k0 :: ks). auto.
    + exists [], (k0 :: ks). auto.
Qed.

(** Assigning the names of a source and then one more name is assigning
    the names of the source after it has got that name. *)
Lemma merge_keys_add ks b k :
  merge_keys ks (add_key b k) = add_key (merge_keys ks b) k.
Proof.
  destruct (in_dec string_dec k b) as [Hin|Hnot].
  { rewrite (add_key_old b k Hin). symmetry. apply add_key_old.
    apply merge_keys_In. now right. }
  destruct (array_index k) as [n|] eqn:Hk.
  - rewrite (add_key_index _ _ _ Hnot Hk).
    destruct (insert_key_split n k b) as [l1 [l2 [-> ->]]].
    rewrite !merge_keys_app. change (merge_keys ?x (k :: l2)) with (merge_keys (add_key x k) l2).
    symmetry. now apply (merge_keys_add_index _ _ _ n).
  - rewrite (add_key_named _ _ Hnot Hk). apply merge_keys_app.
Qed.

Lemma merge_keys_assoc c : forall a b,
  merge_keys a (merge_keys b c) = merge_keys (merge_keys a b) c.
Proof.
  induction c as [|k c IH]; intros a b; [reflexivity|].
  change (merge_keys b (k :: c)) with (merge_keys (add_key b k) c).
  rewrite IH, merge_keys_add. reflexivity.
Qed.

(** Names that are not array indices are appended. *)
Lemma merge_keys_named l : forall ks,
  NoDup l -> (forall k, In k l -> array_index k = None) ->
  merge_keys ks l = ks ++ filter (fun k => negb (existsb (String.eqb k) ks)) l.
Proof.
  induction l as [|k l IH]; intros ks Hnd Hall; simpl.
  - now rewrite app_nil_r.
  - inversion Hnd as [|? ? Hnot Hnd']; subst.
    change (merge_keys ks (k :: l)) with (merge_keys (add_key ks k) l).
    rewrite IH by (auto; intros k' Hk'; apply Hall; now right).
    assert (Hfilter : forall ks',
               (forall x, In x ks' <-> x = k \/ In x ks) ->
               filter (fun k0 => negb (existsb (String.eqb k0) ks')) l
               = filter (fun k0 => negb (existsb (String.eqb k0) ks)) l).
    { intros ks' Hks'. apply filter_ext_in. intros k0 Hin. f_equal.
      apply eq_true_iff_eq. rewrite !existsb_eqb_In, Hks'.
      split; [intros [->|H]; [contradiction | exact H] | auto]. }
    rewrite (Hfilter _ (add_key_In ks k)).
    destruct (existsb (String.eqb k) ks) eqn:E; simpl.
    + apply existsb_eqb_In in E. now rewrite (add_key_old _ _ E).
    + assert (Hk : ~ In k ks) by (rewrite <- existsb_eqb_In; congruence).
      rewrite (add_key_named _ _ Hk) by (apply Hall; now left).
      now rewrite <- app_assoc.
Qed.

(** The result of the loop on an object, name by name. *)
Lemma mergeEntries_values es : forall fields r,
  defined_entries es ->
  mergeEntries es (VObject fields) = Ok r ->
  exists fields',
    r = VObject fields' /\
    keys fields' = merge_keys (keys fields) (keys es) /\
    (forall k v, obj_get k es = Some v ->
       exists v', combine (obj_get k fields) v = Ok v' /\ obj_get k fields' = Some v') /\
    (forall k, obj_get k es = None -> obj_get k fields' = obj_get k fields).
Proof.
  induction es as [|[k v] es IH]; intros fields r [Hnd Hall]; simpl.
  - intros [= <-]. exists fields. repeat split; auto; discriminate.
  - pose proof (Hall k v (or_introl eq_refl)) as Hv.
    destruct (mergeEntry deepMergeInto (VObject fields) k v) as [t1| |] eqn:Hstep;
      try discriminate.
    apply mergeEntry_Ok in Hstep as [v1 [Hcomb ->]]; [|exact Hv].
    simpl. intros Hrest.
    simpl in Hnd. inversion Hnd as [|? ? Hnot Hnd']; subst.
    assert (Hes : defined_entries es).
    { split; [exact Hnd'|]. intros k' v' Hin. apply (Hall k' v'). now right. }
    destruct (IH _ _ Hes Hrest) as [fields' [-> [Hkeys [Hsome Hnone]]]].
    exists fields'. split; [reflexivity|]. split; [|split].
    + now rewrite Hkeys, keys_set_add_key.
    + intros k0 v0. destruct (String.eqb_spec k0 k) as [->|Hne].
      * intros [= <-]. exists v1. split; [exact Hcomb|].
        rewrite Hnone by now apply obj_get_None.
        now rewrite obj_get_set, String.eqb_refl.
      * intros Hget. destruct (Hsome _ _ Hget) as [v' [Hc Hg]].
        exists v'. split; [|exact Hg].
        rewrite obj_get_set in Hc. apply String.eqb_neq in Hne. now rewrite Hne in Hc.
    + intros k0. destruct (String.eqb_spec k0 k) as [->|Hne]; [discriminate|].
      intros Hget. rewrite (Hnone _ Hget), obj_get_set.
      apply String.eqb_neq in Hne. now rewrite Hne.
Qed.

(** The same, for a source without array-index names: the new names follow
    those of the target. *)
Lemma mergeEntries_spec es fields r :
  named_entries es ->
  mergeEntries es (VObject fields) = Ok r ->
  exists fields',
    r = VObject fields' /\
    keys fields' = keys fields ++ filter (fun k => negb (obj_has k fields)) (keys es) /\
    (forall k v, obj_get k es = Some v ->
       exists v', combine (obj_get k fields) v = Ok v' /\ obj_get k fields' = Some v') /\
    (forall k, obj_get k es = None -> obj_get k fields' = obj_get k fields).
Proof.
  intros Hnamed Hrun.
  destruct (mergeEntries_values _ _ _ (named_defined_entries _ Hnamed) Hrun)
    as [fields' [-> [Hkeys [Hsome Hnone]]]].
  exists fields'. split; [reflexivity|]. split; [|split; assumption].
  destruct Hnamed as [Hnd Hall]. rewrite Hkeys, merge_keys_named.
  - f_equal. apply filter_ext. intros k. now rewrite obj_has_existsb.
  - exact Hnd.
  - intros k Hin. apply In_keys_entry in Hin as [v Hv]. apply (Hall k v Hv).
Qed.

Lemma targetOf_plain found :
  plain_found found ->
  targetOf found = match found with Some v => v | None => VObject [] end /\
  plain (targetOf found) = true.
Proof.
  unfold targetOf, nullish_or. destruct found as [v|]; simpl; [|auto].
  intros Hv. rewrite (plain_defined _ Hv). auto.
Qed.

Lemma combine_object found es :
  combine found (VObject es) = mergeEntries es (targetOf found).
Proof. unfold combine, targetOf. apply deepMergeInto_object. Qed.

Lemma combine_prim found p : combine found (VPrim p) = Ok (VPrim p).
Proof. reflexivity. Qed.

Lemma combine_array_array xs ys :
  combine (Some (VArray xs)) (VArray ys) = Ok (VArray (Array_from_Set (xs ++ ys))).
Proof. reflexivity. Qed.

Lemma combine_prim_array p zs r :
  plain (VPrim p) = true -> combine (Some (VPrim p)) (VArray zs) <> Ok r.
Proof.
  unfold combine. destruct p as [| |[|]|z|s]; simpl; try discriminate.
  - destruct (Z.eqb z 0); simpl; discriminate.
  - destruct (String.eqb s ""); simpl; discriminate.
Qed.

Lemma combine_array found ys a :
  plain_found found ->
  combine found (VArray ys) = Ok a ->
  exists xs,
    a = VArray (Array_from_Set (xs ++ ys)) /\
    forall zs, combine found (VArray zs) = Ok (VArray (Array_from_Set (xs ++ zs))).
Proof.
  destruct found as [[p|xs|fields]|]; simpl.
  - intros Hp Ha. now apply combine_prim_array in Ha.
  - intros _ [= <-]. exists xs. split; reflexivity.
  - discriminate.
  - intros _ [= <-]. exists []. split; reflexivity.
Qed.

Lemma mergeEntries_defined es target r :
  is_nullish target = false -> mergeEntries es target = Ok r -> is_nullish r = false.
Proof.
  intros Hdef Hrun. destruct target as [p|xs|fields].
  - apply mergeEntries_non_object in Hrun as [-> _]; [exact Hdef | discriminate].
  - apply mergeEntries_non_object in Hrun as [-> _]; [exact Hdef | discriminate].
  - apply mergeEntries_object in Hrun as [fields' [-> _]]. reflexivity.
Qed.

Lemma plain_no_entries es target r :
  (forall fields, target <> VObject fields) ->
  plain (VObject es) = true ->
  mergeEntries es target = Ok r -> es = [] /\ r = target.
Proof.
  intros Hshape Hplain Hrun.
  apply mergeEntries_non_object in Hrun as [-> Hall]; [|exact Hshape].
  split; [|reflexivity]. destruct es as [|[k v] es]; [reflexivity|].
  apply plain_object in Hplain as [_ Hvals].
  destruct (Hvals k v (or_introl eq_refl)) as [_ Hv].
  rewrite (Hall k v (or_introl eq_refl)) in Hv. discriminate.
Qed.

Section AssociativityStep.
Variable n : nat.
Hypothesis IH : forall x y z xy xyz yz x_yz,
  esize y + esize z < n ->
  plain x = true -> plain (VObject y) = true -> plain (VObject z) = true ->
  mergeEntries y x = Ok xy ->
  mergeEntries z xy = Ok xyz ->
  mergeEntries z (VObject y) = Ok (VObject yz) ->
  mergeEntries yz x = Ok x_yz ->
  xyz = x_yz.

(** The key is in all of the second and third document. *)
Lemma combine_assoc found yv zv a b c d :
  plain_found found -> plain yv = true -> plain zv = true ->
  vsize yv + vsize zv <= S n ->
  combine found yv = Ok a ->
  combine (Some a) zv = Ok b ->
  combine (Some yv) zv = Ok c ->
  combine found c = Ok d ->
  b = d.
Proof.
  intros Hfound Hy Hz Hsize Ha Hb Hc Hd.
  destruct yv as [p|ys|yes].
  - (* a scalar in the second document *)
    rewrite combine_prim in Ha. injection Ha as <-.
    destruct zv as [q|zs|zes].
    + rewrite combine_prim in Hb, Hc. injection Hb as <-. injection Hc as <-.
      rewrite combine_prim in Hd. now injection Hd as <-.
    + now apply combine_prim_array in Hb.
    + rewrite combine_object in Hb, Hc.
      destruct (targetOf_plain (Some (VPrim p)) Hy) as [Ht _]. rewrite Ht in Hb, Hc.
      apply plain_no_entries in Hb as [_ ->]; [|discriminate | exact Hz].
      apply plain_no_entries in Hc as [_ ->]; [|discriminate | exact Hz].
      rewrite combine_prim in Hd. now injection Hd as <-.
  - (* an array in the second document *)
    destruct (combine_array _ _ _ Hfound Ha) as [xs [-> Hxs]].
    destruct zv as [q|zs|zes].
    + rewrite combine_prim in Hb, Hc. injection Hb as <-. injection Hc as <-.
      rewrite combine_prim in Hd. now injection Hd as <-.
    + rewrite combine_array_array in Hb, Hc. injection Hb as <-. injection Hc as <-.
      rewrite Hxs in Hd. injection Hd as <-.
      now rewrite Array_from_Set_app_l, Array_from_Set_app_r, app_assoc.
    + rewrite combine_object in Hb, Hc.
      unfold targetOf, nullish_or in Hb, Hc. simpl in Hb, Hc.
      apply plain_no_entries in Hb as [_ ->]; [|discriminate | exact Hz].
      apply plain_no_entries in Hc as [_ ->]; [|discriminate | exact Hz].
      rewrite Hxs in Hd. now injection Hd as <-.
  - (* an object in the second document *)
    destruct zv as [q|zs|zes].
    + rewrite combine_prim in Hb, Hc. injection Hb as <-. injection Hc as <-.
      rewrite combine_prim in Hd. now injection Hd as <-.
    + discriminate Hc.
    + destruct (targetOf_plain found Hfound) as [_ Htarget].
      rewrite combine_object in Ha, Hb, Hc.
      assert (Hadef : is_nullish a = false).
      { apply (mergeEntries_defined _ _ _ (plain_defined _ Htarget) Ha). }
      unfold targetOf, nullish_or in Hb, Hc. simpl in Hb, Hc.
      unfold nullish_or in Hb. rewrite Hadef in Hb.
      destruct (mergeEntries_object _ _ _ Hc) as [yz [-> _]].
      rewrite combine_object in Hd.
      rewrite !vsize_object in Hsize.
      apply (IH (targetOf found) yes zes a b yz d); auto; try lia.
Qed.

(** The key is missing in the second document. *)
Lemma combine_assoc_absent found zv a c d :
  plain_found found -> plain zv = true ->
  vsize zv <= n ->
  combine found zv = Ok a ->
  combine None zv = Ok c ->
  combine found c = Ok d ->
  a = d.
Proof.
  intros Hfound Hz Hsize Ha Hc Hd.
  destruct zv as [q|zs|zes].
  - rewrite combine_prim in Ha, Hc. injection Ha as <-. injection Hc as <-.
    rewrite combine_prim in Hd. now injection Hd as <-.
  - destruct (combine_array _ _ _ Hfound Ha) as [xs [-> Hxs]].
    injection Hc as <-. rewrite Hxs in Hd. injection Hd as <-.
    simpl. now rewrite Array_from_Set_app_r.
  - destruct (targetOf_plain found Hfound) as [_ Htarget].
    rewrite combine_object in Ha, Hc.
    change (targetOf None) with (VObject []) in Hc.
    destruct (mergeEntries_object _ _ _ Hc) as [yz [-> _]].
    rewrite combine_object in Hd. rewrite vsize_object in Hsize.
    apply (IH (targetOf found) [] zes (targetOf found) a yz d); auto;
      try (simpl; lia).
Qed.
End AssociativityStep.

Lemma plain_found_get fields k :
  plain (VObject fields) = true -> plain_found (obj_get k fields).
Proof.
  intros H. apply plain_object in H as [_ Hall]. unfold plain_found.
  destruct (obj_get k fields) as [v|] eqn:Hget; [|exact I].
  apply obj_get_Some_In in Hget. apply (Hall k v Hget).
Qed.

Lemma combine_defined found val v :
  plain_found found -> plain val = true -> combine found val = Ok v -> v <> undefined.
Proof.
  intros Hfound Hval Hc. destruct val as [p|ys|es].
  - rewrite combine_prim in Hc. injection Hc as <-.
    intros Heq. injection Heq as ->. discriminate Hval.
  - destruct (combine_array _ _ _ Hfound Hc) as [xs [-> _]]. discriminate.
  - rewrite combine_object in Hc. destruct (targetOf_plain found Hfound) as [_ Ht].
    pose proof (mergeEntries_defined _ _ _ (plain_defined _ Ht) Hc) as Hdef.
    intros Heq. rewrite Heq in Hdef. discriminate Hdef.
Qed.

(** Merging a plain object into a plain object leaves no [undefined]. *)
Lemma merged_defined_entries y z yz :
  plain (VObject y) = true -> plain (VObject z) = true ->
  mergeEntries z (VObject y) = Ok (VObject yz) ->
  defined_entries yz.
Proof.
  intros Hy Hz Hrun.
  pose proof (plain_defined_entries _ Hz) as Hzn.
  destruct (mergeEntries_values _ _ _ Hzn Hrun) as [yz' [[= <-] [Hkeys [Hsome Hnone]]]].
  destruct (mergeEntries_object _ _ _ Hrun) as [yz' [[= <-] [_ Hnd]]].
  pose proof (proj1 (plain_object y) Hy) as [Hynd Hyall].
  pose proof (proj1 (plain_object z) Hz) as [Hznd Hzall].
  specialize (Hnd Hynd). split; [exact Hnd|].
  intros k v Hin.
  apply In_obj_get in Hin; [|exact Hnd].
  destruct (obj_get k z) as [zv|] eqn:Hzk.
  - destruct (Hsome _ _ Hzk) as [v' [Hc Hg]].
    assert (v' = v) by congruence. subst v'.
    apply (combine_defined _ _ _ (plain_found_get y k Hy)
             (proj2 (Hzall k zv (obj_get_Some_In _ _ _ _ Hzk))) Hc).
  - rewrite (Hnone _ Hzk) in Hin. apply obj_get_Some_In in Hin.
    destruct (Hyall k v Hin) as [_ Hv]. intros Heq. rewrite Heq in Hv. discriminate Hv.
Qed.

(** Associativity on plain documents, when the four merges return. *)
Lemma mergeEntries_assoc n : forall x y z xy xyz yz x_yz,
  esize y + esize z < n ->
  plain x = true -> plain (VObject y) = true -> plain (VObject z) = true ->
  mergeEntries y x = Ok xy ->
  mergeEntries z xy = Ok xyz ->
  mergeEntries z (VObject y) = Ok (VObject yz) ->
  mergeEntries yz x = Ok x_yz ->
  xyz = x_yz.
Proof.
  induction n as [|n IH]; intros x y z xy xyz yz x_yz Hsize Hx Hy Hz H1 H2 H3 H4; [lia|].
  assert (Hshape : (exists xf, x = VObject xf) \/ (forall fields, x <> VObject fields)).
  { destruct x as [p|xs|xf]; [right; discriminate | right; discriminate | left; now exists xf]. }
  destruct Hshape as [[xf ->]|Hshape].
  2:{ (* the target is not an object: both loops are empty *)
    apply plain_no_entries in H1 as [-> ->]; [|exact Hshape | exact Hy].
    apply plain_no_entries in H2 as [-> ->]; [|exact Hshape | exact Hz].
    simpl in H3. injection H3 as <-. simpl in H4. now injection H4 as <-. }
  pose proof (plain_defined_entries _ Hy) as Hyn.
  pose proof (plain_defined_entries _ Hz) as Hzn.
  pose proof (merged_defined_entries _ _ _ Hy Hz H3) as Hyzn.
  pose proof (proj1 (plain_object xf) Hx) as [Hxnd Hxall].
  pose proof (proj1 (plain_object y) Hy) as [Hynd Hyall].
  pose proof (proj1 (plain_object z) Hz) as [Hznd Hzall].
  destruct (mergeEntries_values _ _ _ Hyn H1) as [xyf [-> [K1 [S1 N1]]]].
  destruct (mergeEntries_object _ _ _ H1) as [xyf' [[= <-] [_ Hxynd]]].
  destruct (mergeEntries_values _ _ _ Hzn H2) as [xyzf [-> [K2 [S2 N2]]]].
  destruct (mergeEntries_object _ _ _ H2) as [xyzf' [[= <-] [_ Hxyznd]]].
  destruct (mergeEntries_values _ _ _ Hzn H3) as [yzf [[= <-] [K3 [S3 N3]]]].
  destruct (mergeEntries_values _ _ _ Hyzn H4) as [x_yzf [-> [K4 [S4 N4]]]].
  f_equal. apply obj_ext.
  - (* the same names in the same order *)
    rewrite K2, K1, K4, K3. symmetry. apply merge_keys_assoc.
  - auto.
  - (* the same value under every name *)
    intros k.
    pose proof (plain_found_get xf k Hx) as Hfound.
    destruct (obj_get k y) as [yv|] eqn:Hyk; destruct (obj_get k z) as [zv|] eqn:Hzk.
    + destruct (S1 _ _ Hyk) as [a [Ha Ga]].
      destruct (S2 _ _ Hzk) as [b [Hb Gb]]. rewrite Ga in Hb.
      destruct (S3 _ _ Hzk) as [c [Hc Gc]]. rewrite Hyk in Hc.
      destruct (S4 _ _ Gc) as [d [Hd Gd]].
      rewrite Gb, Gd. f_equal.
      pose proof (obj_get_Some_In _ _ _ _ Hyk) as Hyin.
      pose proof (obj_get_Some_In _ _ _ _ Hzk) as Hzin.
      apply (combine_assoc n IH (obj_get k xf) yv zv a b c d); auto.
      * apply (Hyall k yv Hyin).
      * apply (Hzall k zv Hzin).
      * pose proof (esize_In _ _ _ Hyin). pose proof (esize_In _ _ _ Hzin). lia.
    + destruct (S1 _ _ Hyk) as [a [Ha Ga]].
      rewrite (N2 _ Hzk), Ga.
      pose proof (N3 _ Hzk) as Gc. rewrite Hyk in Gc.
      destruct (S4 _ _ Gc) as [d [Hd Gd]]. rewrite Gd. congruence.
    + pose proof (N1 _ Hyk) as Ga.
      destruct (S2 _ _ Hzk) as [b [Hb Gb]]. rewrite Ga in Hb.
      destruct (S3 _ _ Hzk) as [c [Hc Gc]]. rewrite Hyk in Hc.
      destruct (S4 _ _ Gc) as [d [Hd Gd]].
      rewrite Gb, Gd. f_equal.
      pose proof (obj_get_Some_In _ _ _ _ Hzk) as Hzin.
      apply (combine_assoc_absent n IH (obj_get k xf) zv b c d); auto.
      * apply (Hzall k zv Hzin).
      * pose proof (esize_In _ _ _ Hzin). lia.
    + rewrite (N2 _ Hzk), (N1 _ Hyk).
      pose proof (N3 _ Hzk) as Gc. rewrite Hyk in Gc.
      now rewrite (N4 _ Gc).
Qed.

Lemma plain_fragment_inv v :
  plain_fragment v = true ->
  v = undefined \/ exists fields, v = VObject fields /\ plain (VObject fields) = true.
Proof.
  destruct v as [[| | | |]|xs|fields]; simpl; try discriminate.
  - now left.
  - intros H. right. now exists fields.
Qed.

Lemma reduce_from_app acc xs ys :
  reduce_from acc (xs ++ ys) = let! a := reduce_from acc xs in reduce_from a ys.
Proof.
  revert acc. induction xs as [|x xs IH]; intros acc; [reflexivity|].
  simpl. destruct (deepMerge acc x); simpl; auto.
Qed.


(** Without [null]: the left grouping returns, the right one throws. *)
Example deepMerge_grouping_changes_failure :
  (let! ab := deepMerge (VObject [("k", VArray [AString "a"])]) (VObject [("k", VObject [])]) in
   deepMerge ab (VObject [("k", VArray [AString "b"])]))
  = Ok (VObject [("k", VArray [AString "a"; AString "b"])]) /\
  (let! bc := deepMerge (VObject [("k", VObject [])]) (VObject [("k", VArray [AString "b"])]) in
   deepMerge (VObject [("k", VArray [AString "a"])]) bc)
  = Throw (MergeArrayIntoNonArray [AString "b"] (VObject [])).
Proof. split; reflexivity. Qed.

(** An [undefined] in the middle document changes the order of the names,
    and an empty string there is read as an empty array. *)
Example deepMerge_not_associative_with_undefined :
  (let! ab := deepMerge (VObject []) (VObject [("k", undefined); ("j", VPrim (PNumber 1))]) in
   deepMerge ab (VObject [("k", VPrim (PNumber 2))]))
  = Ok (VObject [("j", VPrim (PNumber 1)); ("k", VPrim (PNumber 2))]) /\
  (let! bc := deepMerge (VObject [("k", undefined); ("j", VPrim (PNumber 1))])
                (VObject [("k", VPrim (PNumber 2))]) in
   deepMerge (VObject []) bc)
  = Ok (VObject [("k", VPrim (PNumber 2)); ("j", VPrim (PNumber 1))]).
Proof. split; reflexivity. Qed.

Example deepMerge_not_associative_with_empty_string :
  (let! ab := deepMerge (VObject [("k", VArray [AString "a"])]) (VObject [("k", VString "")]) in
   deepMerge ab (VObject [("k", VArray [AString "b"])]))
  = Ok (VObject [("k", VArray [AString "b"])]) /\
  (let! bc := deepMerge (VObject [("k", VString "")]) (VObject [("k", VArray [AString "b"])]) in
   deepMerge (VObject [("k", VArray [AString "a"])]) bc)
  = Ok (VObject [("k", VArray [AString "a"; AString "b"])]).
Proof. split; reflexivity. Qed.

(** Under the name of a member of [Object.prototype] that the target does
    not have itself, an array meets the inherited member and the merge
    throws; an object would be merged into the built-in, which the model
    does not follow. *)
Example deepMerge_under_inherited_names :
  deepMerge (VObject []) (VObject [("toString", VArray [AString "a"])])
  = Throw (MergeArrayIntoInherited [AString "a"] "toString") /\
  deepMerge (VObject []) (VObject [("constructor", VObject [("y", VPrim (PNumber 2))])])
  = OutOfModel /\
  deepMerge (VObject [("constructor", VObject [("x", VPrim (PNumber 1))])])
    (VObject [("constructor", VObject [("y", VPrim (PNumber 2))])])
  = Ok (VObject [("constructor",
                  VObject [("x", VPrim (PNumber 1)); ("y", VPrim (PNumber 2))])]).
Proof. repeat split. Qed.



(** * Further properties *)

(** ** Registering configs and config sets *)

(** X1. [addConfig] tests its name with a lookup in the catalog, which
    also finds the members of [Object.prototype].  Under a name that is
    neither in the catalog nor the name of such a member, it returns and
    registers the config: a lookup of the name then yields it, the other
    names of the catalog and the config sets are as before, the names stay
    unique, and a second registration under the name throws.  Under the
    name of a member of [Object.prototype] it throws the duplicate-name
    error, whatever the catalog holds. *)
Theorem addConfig_registers (this : CloudFormationInit.t) (configName : string)
    (c : InitConfig.t) :
  (~ In configName (keys (CloudFormationInit._configs this)) ->
   inherited_name configName = false ->
   exists this',
     CloudFormationInit.addConfig configName c this = (Ok tt, this') /\
     obj_get configName (CloudFormationInit._configs this') = Some c /\
     (forall n, n <> configName ->
        obj_get n (CloudFormationInit._configs this')
        = obj_get n (CloudFormationInit._configs this)) /\
     CloudFormationInit._configSets this' = CloudFormationInit._configSets this /\
     (wf_registry this -> wf_registry this') /\
     forall c',
       CloudFormationInit.addConfig configName c' this'
       = (Throw (DuplicateConfig configName), this')) /\
  (inherited_name configName = true ->
   CloudFormationInit.addConfig configName c this
   = (Throw (DuplicateConfig configName), this)).
Proof.
  split.
  - intros Hfresh Hname. unfold CloudFormationInit.addConfig at 1.
    rewrite (proj2 (obj_in_false _ _) (conj Hfresh Hname)).
    eexists. split; [reflexivity|]. simpl.
    split; [|split; [|split; [|split]]].
    + now rewrite obj_get_set, String.eqb_refl.
    + intros n Hne. rewrite obj_get_set. apply String.eqb_neq in Hne. now rewrite Hne.
    + reflexivity.
    + intros [Hsets Hconfigs]. split; simpl; [exact Hsets | now apply NoDup_keys_set].
    + intros c'. unfold CloudFormationInit.addConfig. simpl.
      unfold obj_in, obj_has. now rewrite obj_get_set, String.eqb_refl.
  - intros Hname. unfold CloudFormationInit.addConfig, obj_in.
    now rewrite Hname, orb_true_r.
Qed.

Lemma addConfig_registers_witness :
  (exists this',
      CloudFormationInit.addConfig "C" sample_config registry_example = (Ok tt, this') /\
      obj_get "C" (CloudFormationInit._configs this') = Some sample_config /\
      (forall n, n <> "C" ->
         obj_get n (CloudFormationInit._configs this')
         = obj_get n (CloudFormationInit._configs registry_example)) /\
      CloudFormationInit._configSets this' = CloudFormationInit._configSets registry_example /\
      (wf_registry registry_example -> wf_registry this') /\
      forall c',
        CloudFormationInit.addConfig "C" c' this' = (Throw (DuplicateConfig "C"), this')) /\
  CloudFormationInit.addConfig "toString" sample_config registry_example
  = (Throw (DuplicateConfig "toString"), registry_example).
Proof.
  split.
  - apply (proj1 (addConfig_registers registry_example "C" sample_config)).
    + simpl. intros [H|[H|[]]]; discriminate H.
    + reflexivity.
  - apply (proj2 (addConfig_registers registry_example "toString" sample_config)).
    reflexivity.
Defined.

(** X2. [addConfigSet] returns exactly when the lookup of the name among
    the config sets finds nothing and the lookup of every listed name in
    the catalog finds something, a config or a member of
    [Object.prototype].  It then stores the list as given under the name
    and changes neither the other config sets nor the catalog; when it
    throws, the registry is as before. *)
Theorem addConfigSet_outcome (this : CloudFormationInit.t) (name : string)
    (configNames : option (list string)) :
  let r := CloudFormationInit.addConfigSet name configNames this in
  (fst r = Ok tt <->
   obj_in name (CloudFormationInit._configSets this) = false /\
   forall c, In c (option_or configNames []) ->
             obj_in c (CloudFormationInit._configs this) = true) /\
  (fst r = Ok tt ->
   obj_get name (CloudFormationInit._configSets (snd r)) = Some (option_or configNames []) /\
   (forall s, s <> name ->
      obj_get s (CloudFormationInit._configSets (snd r))
      = obj_get s (CloudFormationInit._configSets this)) /\
   CloudFormationInit._configs (snd r) = CloudFormationInit._configs this) /\
  (fst r <> Ok tt -> snd r = this).
Proof.
  unfold CloudFormationInit.addConfigSet.
  set (names := option_or configNames []).
  set (unk := filter (fun c => negb (obj_in c (CloudFormationInit._configs this))) names).
  assert (Hunk : unk = [] <->
            forall c, In c names -> obj_in c (CloudFormationInit._configs this) = true).
  { split.
    - intros Hnil c Hc.
      destruct (obj_in c (CloudFormationInit._configs this)) eqn:E; [reflexivity|].
      assert (Hin : In c unk) by (apply filter_In; now rewrite E).
      rewrite Hnil in Hin. destruct Hin.
    - intros Hall. destruct unk as [|u unk'] eqn:E; [reflexivity|].
      assert (Hin : In u unk) by (rewrite E; now left).
      apply filter_In in Hin as [Hu Hneg]. apply Hall in Hu.
      rewrite Hu in Hneg. discriminate. }
  destruct (obj_in name (CloudFormationInit._configSets this)) eqn:Hname; simpl.
  - split; [split; [discriminate | intros [H _]; discriminate H]
           | split; [discriminate | reflexivity]].
  - destruct unk as [|u unk'] eqn:E; simpl.
    + split; [|split].
      * split; [|reflexivity]. intros _. split; [reflexivity | now apply Hunk].
      * intros _. split; [|split; [|reflexivity]].
        -- now rewrite obj_get_set, String.eqb_refl.
        -- intros s Hne. rewrite obj_get_set. apply String.eqb_neq in Hne.
           now rewrite Hne.
      * intros H. now destruct H.
    + split; [split; [discriminate|] | split; [discriminate | reflexivity]].
      intros [_ Hall]. apply Hunk in Hall. discriminate.
Qed.

Lemma addConfigSet_outcome_witness :
  let r := CloudFormationInit.addConfigSet "all" (Some ["B"; "A"; "valueOf"]) registry_example in
  fst r = Ok tt /\
  obj_get "all" (CloudFormationInit._configSets (snd r)) = Some ["B"; "A"; "valueOf"] /\
  CloudFormationInit._configs (snd r) = CloudFormationInit._configs registry_example.
Proof.
  pose proof (addConfigSet_outcome registry_example "all" (Some ["B"; "A"; "valueOf"]))
    as [Hiff [Hok _]].
  assert (H : fst (CloudFormationInit.addConfigSet "all" (Some ["B"; "A"; "valueOf"])
                     registry_example)
              = Ok tt).
  { apply Hiff. split.
    - reflexivity.
    - simpl. intros c [<-|[<-|[<-|[]]]]; reflexivity. }
  destruct (Hok H) as [Hget [_ Hcat]]. repeat split; assumption.
Defined.

Lemma obj_in_set {A : Type} (k n : string) (v : A) (o : obj A) :
  obj_in n o = true -> obj_in n (obj_set k v o) = true.
Proof.
  unfold obj_in, obj_has. rewrite obj_get_set.
  destruct (String.eqb n k); [reflexivity | auto].
Qed.

(** X3. Registration keeps every reference of the registry one that the
    lookup in the catalog finds: if every member of every config set
    names a config of the catalog or a member of [Object.prototype], this
    is still so after [addConfig] and after [addConfigSet], whether they
    return or throw.  The registries built by [fromConfig] have only
    references to configs; [fromConfigSets] does not check the references;
    and a config set added as [[constructor]] refers to no config. *)
Theorem registration_keeps_references_found (this : CloudFormationInit.t) :
  refs_found this ->
  (forall configName c,
      refs_found (snd (CloudFormationInit.addConfig configName c this))) /\
  (forall name configNames,
      refs_found (snd (CloudFormationInit.addConfigSet name configNames this))) /\
  (forall c, exists built,
      CloudFormationInit.fromConfig c = Ok built /\ refs_closed built) /\
  (exists built,
      CloudFormationInit.fromConfigSets props_dangling = Ok built /\ ~ refs_found built) /\
  (exists after,
      CloudFormationInit.addConfigSet "s" (Some ["constructor"]) registry_empty
      = (Ok tt, after) /\
      refs_found after /\ ~ refs_closed after).
Proof.
  intros Hfound. split; [|split; [|split; [|split]]].
  - intros configName c. unfold CloudFormationInit.addConfig.
    destruct (obj_in configName _); simpl; [exact Hfound|].
    intros s members n Hs Hn. simpl in *. apply obj_in_set.
    now apply (Hfound s members).
  - intros name configNames. unfold CloudFormationInit.addConfigSet.
    destruct (obj_in name _); simpl; [exact Hfound|].
    destruct (filter _ _) as [|u unk] eqn:Hunk; simpl; [|exact Hfound].
    intros s members n Hs Hn. simpl in *. rewrite obj_get_set in Hs.
    destruct (String.eqb s name); [|now apply (Hfound s members)].
    injection Hs as <-.
    destruct (obj_in n (CloudFormationInit._configs this)) eqn:E; [reflexivity|].
    assert (Hin : In n (filter (fun c => negb (obj_in c (CloudFormationInit._configs this)))
                          (option_or configNames [])))
      by (apply filter_In; now rewrite E).
    rewrite Hunk in Hin. destruct Hin.
  - intros c. eexists. split; [reflexivity|].
    intros s members n. simpl. unfold obj_assign. simpl. unfold obj_set. simpl.
    destruct (String.eqb s "default"); [|discriminate].
    intros [= <-] [<-|[]]. now left.
  - eexists. split; [reflexivity|]. intros H.
    specialize (H "default" ["A"; "ghost"] "ghost" eq_refl).
    simpl in H. assert (Hin : "A" = "ghost" \/ "ghost" = "ghost" \/ False) by auto.
    specialize (H Hin). discriminate H.
  - eexists. split; [reflexivity|]. split.
    + intros s members n. simpl. destruct (String.eqb s "s"); [|discriminate].
      intros [= <-] [<-|[]]. reflexivity.
    + intros H. apply (H "s" ["constructor"] "constructor" eq_refl). now left.
Qed.

Lemma registration_keeps_references_found_witness :
  (forall configName c,
      refs_found (snd (CloudFormationInit.addConfig configName c registry_example))) /\
  (forall name configNames,
      refs_found (snd (CloudFormationInit.addConfigSet name configNames registry_example))) /\
  (forall c, exists built,
      CloudFormationInit.fromConfig c = Ok built /\ refs_closed built) /\
  (exists built,
      CloudFormationInit.fromConfigSets props_dangling = Ok built /\ ~ refs_found built) /\
  (exists after,
      CloudFormationInit.addConfigSet "s" (Some ["constructor"]) registry_empty
      = (Ok tt, after) /\
      refs_found after /\ ~ refs_closed after).
Proof.
  apply (registration_keeps_references_found registry_example).
  intros s members n. simpl. destruct (String.eqb s "default"); [|discriminate].
  intros [= <-] [<-|[<-|[]]]; reflexivity.
Defined.

(** ** mapValues *)

Lemma obj_replace_In {A : Type} (k k' : string) (v b : A) (o : obj A) :
  In (k, b) (obj_replace k' v o) -> (k = k' /\ b = v) \/ In (k, b) o.
Proof.
  induction o as [|[k0 v0] o IH]; simpl; [tauto|].
  destruct (String.eqb_spec k' k0) as [->|Hne]; simpl.
  - intros [[= <- <-]|H]; auto.
  - intros [H|H]; [auto | destruct (IH H); auto].
Qed.

Lemma obj_insert_index_In {A : Type} (n : N) (k k' : string) (v b : A) (o : obj A) :
  In (k, b) (obj_insert_index n k' v o) -> (k = k' /\ b = v) \/ In (k, b) o.
Proof.
  induction o as [|[k0 v0] o IH]; simpl.
  - intros [[= <- <-]|[]]. auto.
  - destruct (array_index k0) as [m|]; [destruct (m <? n)%N|]; simpl.
    + intros [H|H]; [auto | destruct (IH H); auto].
    + intros [[= <- <-]|H]; auto.
    + intros [[= <- <-]|H]; auto.
Qed.

Lemma obj_set_In {A : Type} (k k' : string) (v b : A) (o : obj A) :
  In (k, b) (obj_set k' v o) -> (k = k' /\ b = v) \/ In (k, b) o.
Proof.
  unfold obj_set. destruct (obj_has k' o); [apply obj_replace_In|].
  destruct (array_index k') as [n|]; [apply obj_insert_index_In|].
  rewrite in_app_iff. simpl. intros [H|[[= <- <-]|[]]]; auto.
Qed.

Lemma mapValues_fold_In {A B : Type} (fn : A -> option B) (xs : obj A) :
  forall (acc : obj B) (k : string) (b : B),
    In (k, b)
       (fold_left
          (fun ret kv => match fn (snd kv) with
                         | Some mapped => obj_set (fst kv) mapped ret
                         | None => ret
                         end) xs acc) ->
    In (k, b) acc \/ exists a, In (k, a) xs /\ fn a = Some b.
Proof.
  induction xs as [|[k0 a0] xs IH]; simpl; intros acc k b Hin; [auto|].
  apply IH in Hin as [Hin|[a [Ha Hfn]]].
  - destruct (fn a0) as [b0|] eqn:Hfn0; [|auto].
    apply obj_set_In in Hin as [[-> ->]|Hin]; [|auto].
    right. exists a0. auto.
  - right. exists a. auto.
Qed.

Lemma mapValues_In {A B : Type} (fn : A -> option B) (xs : obj A) (k : string) (b : B) :
  In (k, b) (mapValues xs fn) -> exists a, In (k, a) xs /\ fn a = Some b.
Proof.
  intros Hin. apply mapValues_fold_In in Hin as [[]|H]. exact H.
Qed.

Lemma mapValues_fold_named {A B : Type} (fn : A -> option B) (xs : obj A) :
  forall acc : obj B,
    NoDup (keys xs) ->
    (forall k, In k (keys xs) -> array_index k = None /\ ~ In k (keys acc)) ->
    fold_left
      (fun ret kv => match fn (snd kv) with
                     | Some mapped => obj_set (fst kv) mapped ret
                     | None => ret
                     end) xs acc
    = acc ++ mapped_entries fn xs.
Proof.
  induction xs as [|[k0 a0] xs IH]; simpl; intros acc Hnd Hkeys.
  - now rewrite app_nil_r.
  - apply NoDup_cons_iff in Hnd as [Hnot Hnd].
    destruct (Hkeys k0 (or_introl eq_refl)) as [Hidx Hfresh].
    destruct (fn a0) as [b0|].
    + rewrite IH.
      * unfold obj_set. apply obj_has_false in Hfresh. rewrite Hfresh, Hidx.
        now rewrite <- app_assoc.
      * exact Hnd.
      * intros k Hk. destruct (Hkeys k (or_intror Hk)) as [Hi Hf]. split; [exact Hi|].
        rewrite keys_set_In. intros [->|H]; contradiction.
    + apply IH; [exact Hnd|]. intros k Hk. apply Hkeys. now right.
Qed.

(** X4. On an object without a property named [__proto__] (an assignment
    to that name would not add a property), [mapValues(xs, fn)] holds
    under a name the image of what [xs] holds there and leaves the name
    out when the image is [undefined] or [xs] has no such name; each of
    its entries is the image of an entry of [xs]; and when no name of [xs]
    is an array index, the kept entries come in the order of [xs]. *)
Theorem mapValues_maps_each_value {A B : Type} (xs : obj A) (fn : A -> option B) :
  NoDup (keys xs) ->
  ~ In "__proto__" (keys xs) ->
  (forall k,
      obj_get k (mapValues xs fn)
      = match obj_get k xs with
        | Some a => fn a
        | None => None
        end) /\
  (forall k b, In (k, b) (mapValues xs fn) -> exists a, In (k, a) xs /\ fn a = Some b) /\
  NoDup (keys (mapValues xs fn)) /\
  ((forall k, In k (keys xs) -> array_index k = None) ->
   mapValues xs fn = mapped_entries fn xs).
Proof.
  intros Hnd _. split; [|split; [|split]].
  - intros k. now apply mapValues_get.
  - apply mapValues_In.
  - apply mapValues_NoDup.
  - intros Hnamed. unfold mapValues. rewrite mapValues_fold_named; [reflexivity | exact Hnd|].
    intros k Hk. split; [now apply Hnamed | simpl; tauto].
Qed.

Lemma mapValues_maps_each_value_witness :
  (forall k,
      obj_get k (mapValues sample_record defined)
      = match obj_get k sample_record with
        | Some a => defined a
        | None => None
        end) /\
  (forall k b, In (k, b) (mapValues sample_record defined) ->
               exists a, In (k, a) sample_record /\ defined a = Some b) /\
  NoDup (keys (mapValues sample_record defined)) /\
  ((forall k, In k (keys sample_record) -> array_index k = None) ->
   mapValues sample_record defined = mapped_entries defined sample_record).
Proof.
  apply (mapValues_maps_each_value sample_record defined).
  - repeat constructor; simpl; intuition discriminate.
  - simpl. intuition discriminate.
Defined.

(** ** The default registry *)

Lemma config_of_bound_is_object c sc options r :
  configResult c sc options = Ok r -> exists fields, config r = VObject fields.
Proof.
  intros H. apply configResult_inv in H as [group [_ Hcfg]]. eexists. exact Hcfg.
Qed.

(** X5. The registry built by [fromElements] renders as follows.  Without
    elements, the document is [{configSets: {default: []}}], there is no
    authentication fragment, and nothing is bound.  With elements, the
    config is bound once, the document is
    [{configSets: {default: [config]}, config: ...}] with the bound
    fragment, and the authentication fragment is that of the config; if
    binding the config throws, so does the rendering. *)
Theorem fromElements_renders_default (elems : list InitElement) (sc : handle)
    (options : AttachInitOptions.t) (log : list effect) :
  exists this,
  CloudFormationInit.fromElements elems = Ok this /\
  (elems = [] ->
   CloudFormationInit.bind this sc options log
   = (Ok {| configData := VObject [("configSets", VObject [("default", VArray [])])];
            authData := undefined |},
      log)) /\
  (elems <> [] ->
   forall r log',
     InitConfig._bind (InitConfig.make elems) sc options log = (Ok r, log') ->
     CloudFormationInit.bind this sc options log
     = (Ok {| configData :=
                VObject [("configSets", VObject [("default", VArray [AString "config"])]);
                         ("config", config r)];
              authData := authentication r |},
        log')) /\
  (elems <> [] ->
   forall e log',
     InitConfig._bind (InitConfig.make elems) sc options log = (Throw e, log') ->
     CloudFormationInit.bind this sc options log = (Throw e, log')).
Proof.
  eexists. split; [reflexivity|].
  destruct elems as [|e0 elems]; simpl; split; [|split| |split]; try congruence.
  - intros _. reflexivity.
  - intros _ r log' Hbind.
    assert (Hobj : exists fields, config r = VObject fields).
    { destruct (config_bind_run (InitConfig.make (e0 :: elems)) sc options log)
        as [m [_ [Hrun _]]].
      rewrite Hrun in Hbind. injection Hbind as Hres _.
      now apply config_of_bound_is_object in Hres. }
    destruct Hobj as [fields Hfields].
    unfold CloudFormationInit.bind, mapValuesM, CloudFormationInit.nonEmptyConfigs. simpl.
    unfold mbind. rewrite Hbind. unfold ret, lift.
    destruct r as [cfg auth]. simpl in Hfields. subst cfg. reflexivity.
  - intros _ e log' Hbind.
    unfold CloudFormationInit.bind, mapValuesM, CloudFormationInit.nonEmptyConfigs. simpl.
    unfold mbind. now rewrite Hbind.
Qed.

Lemma fromElements_renders_default_witness :
  exists this,
    CloudFormationInit.fromElements
      [svc_element "httpd"; pkg_element "httpd"; pkg_element "php"]
    = Ok this /\
    CloudFormationInit.bind this 0 sample_options []
    = (Ok {| configData :=
               VObject [("configSets", VObject [("default", VArray [AString "config"])]);
                        ("config", config sample_bound)];
             authData := authentication sample_bound |},
       snd (InitConfig._bind sample_config 0 sample_options [])).
Proof.
  destruct (fromElements_renders_default
              [svc_element "httpd"; pkg_element "httpd"; pkg_element "php"]
              0 sample_options [])
    as [this [Hthis [_ [Hbound _]]]].
  exists this. split; [exact Hthis|]. apply Hbound.
  - discriminate.
  - reflexivity.
Defined.

(** ** Adding elements *)

Lemma callsFrom_app ro i es1 es2 :
  callsFrom ro i (es1 ++ es2)
  = callsFrom ro i es1 ++ callsFrom ro (i + List.length es1) es2.
Proof.
  revert i. induction es1 as [|e es1 IH]; intros i; simpl.
  - now rewrite Nat.add_0_r.
  - rewrite IH. now rewrite Nat.add_succ_r.
Qed.

(** X6. [add] appends: the elements already in the config are bound with
    the same indices as before, the new elements of a kind follow them with
    the next indices, and the config is empty afterwards only if it was
    empty and nothing was added. *)
Theorem add_keeps_indices (c : InitConfig.t) (new_elements : list InitElement)
    (ty : InitElementType) (ro : InitBindOptions) (log : list effect) :
  snd (InitConfig.bindForType (InitConfig.add c new_elements) ty ro log)
  = snd (InitConfig.bindForType c ty ro log)
    ++ callsFrom ro (List.length (ofType ty c))
         (filter (fun e => InitElementType_eqb (elementType e) ty) new_elements) /\
  InitConfig.isEmpty (InitConfig.add c new_elements)
  = InitConfig.isEmpty c && Nat.eqb (List.length new_elements) 0.
Proof.
  split.
  - rewrite !bindForType_run. simpl. unfold ofType at 1. simpl.
    rewrite filter_app, callsFrom_app. fold (ofType ty c). now rewrite app_assoc.
  - unfold InitConfig.isEmpty. simpl. rewrite length_app.
    destruct (InitConfig.elements c); simpl; [reflexivity|reflexivity].
Qed.

(** ** Rendering *)

Lemma mapValues_all_undefined {A B : Type} (fn : A -> option B) (xs : obj A) :
  (forall k a, In (k, a) xs -> fn a = None) -> mapValues xs fn = [].
Proof.
  unfold mapValues. induction xs as [|[k a] xs IH]; simpl; intros Hall; [reflexivity|].
  rewrite (Hall k a) by now left. apply IH. intros k' a' Hin. apply (Hall k' a'). now right.
Qed.

(** X7. A registry whose configs are all empty renders without binding
    anything: [bind] returns with the log unchanged, the document has the
    [configSets] slot only, and there is no authentication fragment.  The
    rendered member list of a config set keeps, of the declared names,
    those that name a member of [Object.prototype], and no other. *)
Theorem empty_registry_renders_config_sets_only (this : CloudFormationInit.t)
    (sc : handle) (options : AttachInitOptions.t) (log : list effect) :
  wf_registry this ->
  ~ In "__proto__" (keys (CloudFormationInit._configs this)) ->
  ~ In "__proto__" (keys (CloudFormationInit._configSets this)) ->
  (forall n c, In (n, c) (CloudFormationInit._configs this) -> InitConfig.isEmpty c = true) ->
  exists sets,
    CloudFormationInit.bind this sc options log
    = (Ok {| configData := VObject [("configSets", sets)]; authData := undefined |}, log) /\
    forall s declared,
      obj_get s (CloudFormationInit._configSets this) = Some declared ->
      get_prop sets s = VArray (map AString (filter inherited_name declared)).
Proof.
  intros Hwf Hp1 Hp2 Hempty.
  assert (Hnone : CloudFormationInit.nonEmptyConfigs this = []).
  { apply mapValues_all_undefined. intros k c Hin. now rewrite (Hempty k c Hin). }
  exists (CloudFormationInit.configSets_value (CloudFormationInit.renderedConfigSets this)).
  split.
  - unfold CloudFormationInit.bind, mapValuesM.
    apply obj_has_false in Hp1, Hp2. rewrite Hp1, Hp2, Hnone. reflexivity.
  - intros s declared Hs. rewrite configSets_value_get.
    rewrite renderedConfigSets_get, Hs by exact Hwf. simpl. do 2 f_equal.
    apply filter_ext. intros n. unfold keptIn, nonEmptyIn.
    destruct (obj_get n (CloudFormationInit._configs this)) as [c|] eqn:Hc; [|reflexivity].
    apply obj_get_Some_In in Hc. now rewrite (Hempty n c Hc).
Qed.

Lemma registry_toString_wf : wf_registry registry_toString.
Proof. split; repeat constructor; simpl; intuition discriminate. Qed.

Lemma empty_registry_renders_config_sets_only_witness :
  exists sets,
    CloudFormationInit.bind registry_toString 0 sample_options []
    = (Ok {| configData := VObject [("configSets", sets)]; authData := undefined |}, []) /\
    get_prop sets "default" = VArray [AString "toString"].
Proof.
  destruct (empty_registry_renders_config_sets_only registry_toString 0 sample_options [])
    as [sets [Hrun Hsets]].
  - exact registry_toString_wf.
  - simpl. intuition discriminate.
  - simpl. intuition discriminate.
  - intros n c [[= <- <-]|[]]. reflexivity.
  - exists sets. split; [exact Hrun|].
    apply (Hsets "default" ["toString"]). reflexivity.
Defined.

(** X8. What the rendered document refers to.  Every registered config set
    is rendered, also when all its members are dropped, and nothing else
    is rendered as a config set; the rendered config sets are the
    [configSets] slot of the document unless a config with elements has
    that name, and the slot then holds under the name of a config set the
    array of its rendered members.  A name in a rendered member list is the name of a config
    with elements, whose bound fragment the document holds under that
    name, or the name of a member of [Object.prototype]. *)
Theorem rendered_document_is_closed (this : CloudFormationInit.t) (sc : handle)
    (options : AttachInitOptions.t) (log log' : list effect) (r : BindResult) :
  wf_registry this ->
  CloudFormationInit.bind this sc options log = (Ok r, log') ->
  (forall s, In s (keys (CloudFormationInit.renderedConfigSets this))
             <-> In s (keys (CloudFormationInit._configSets this))) /\
  (nonEmptyIn this "configSets" = false ->
   get_prop (configData r) "configSets"
   = CloudFormationInit.configSets_value (CloudFormationInit.renderedConfigSets this) /\
   forall s,
     get_prop (get_prop (configData r) "configSets") s
     = match obj_get s (CloudFormationInit.renderedConfigSets this) with
       | Some members => VArray (map AString members)
       | None => undefined
       end) /\
  forall s members n,
    obj_get s (CloudFormationInit.renderedConfigSets this) = Some members ->
    In n members ->
    (exists c b,
        obj_get n (CloudFormationInit._configs this) = Some c /\
        InitConfig.isEmpty c = false /\
        configResult c sc options = Ok b /\
        get_prop (configData r) n = config b) \/
    inherited_name n = true.
Proof.
  intros Hwf Hrun. split; [|split].
  - intros s. rewrite <- !obj_get_In_keys, renderedConfigSets_get by exact Hwf.
    destruct (obj_get s (CloudFormationInit._configSets this)); simpl; split; congruence.
  - intros Hn. pose proof (proj2 (rendered_document this _ _ _ _ _ Hwf Hrun) Hn) as Hslot.
    split; [exact Hslot|]. intros s. rewrite Hslot. apply configSets_value_get.
  - intros s members n Hs Hn.
    rewrite renderedConfigSets_get in Hs by exact Hwf.
    destruct (obj_get s (CloudFormationInit._configSets this)) as [declared|];
      [|discriminate].
    simpl in Hs. injection Hs as <-. apply filter_In in Hn as [_ Hn].
    unfold keptIn in Hn. destruct (nonEmptyIn this n) eqn:Hne; [left | now right].
    unfold nonEmptyIn in Hne.
    destruct (obj_get n (CloudFormationInit._configs this)) as [c|] eqn:Hc; [|discriminate].
    apply negb_true_iff in Hne.
    destruct (registry_bind_inv this _ _ _ _ _ Hrun) as [bound [Hnd [Hbound Hdoc]]].
    pose proof (Hbound n) as Hb.
    rewrite nonEmptyConfigs_get, Hc, Hne in Hb by exact Hwf.
    destruct Hb as [b [Hres Hb]].
    exists c, b. repeat split; try assumption.
    destruct (config_of_bound_is_object _ _ _ _ Hres) as [fields Hfields].
    rewrite Hdoc. simpl. rewrite obj_assign_get by apply mapValues_NoDup.
    unfold CloudFormationInit.renderedConfigs. rewrite mapValues_get by exact Hnd.
    rewrite Hb, Hfields. reflexivity.
Qed.

Lemma rendered_document_is_closed_witness :
  (forall s, In s (keys (CloudFormationInit.renderedConfigSets registry_example))
             <-> In s (keys (CloudFormationInit._configSets registry_example))) /\
  (nonEmptyIn registry_example "configSets" = false ->
   get_prop (configData example_rendered) "configSets"
   = CloudFormationInit.configSets_value
       (CloudFormationInit.renderedConfigSets registry_example) /\
   forall s,
     get_prop (get_prop (configData example_rendered) "configSets") s
     = match obj_get s (CloudFormationInit.renderedConfigSets registry_example) with
       | Some members => VArray (map AString members)
       | None => undefined
       end) /\
  forall s members n,
    obj_get s (CloudFormationInit.renderedConfigSets registry_example) = Some members ->
    In n members ->
    (exists c b,
        obj_get n (CloudFormationInit._configs registry_example) = Some c /\
        InitConfig.isEmpty c = false /\
        configResult c 0 sample_options = Ok b /\
        get_prop (configData example_rendered) n = config b) \/
    inherited_name n = true.
Proof.
  apply (rendered_document_is_closed registry_example 0 sample_options []
           (snd (CloudFormationInit.bind registry_example 0 sample_options []))
           example_rendered).
  - exact registry_example_wf.
  - reflexivity.
Defined.

(** ** The order of the calls across configs *)

Lemma config_bind_log c sc options log :
  exists d,
    InitConfig._bind c sc options log = (configResult c sc options, log ++ d) /\
    forallb isElementBind d = true /\
    (forall r, configResult c sc options = Ok r -> d = configCalls sc options c).
Proof.
  destruct (config_bind_run c sc options log) as [m [_ [Hrun Hfull]]].
  exists (List.concat (map (groupCalls c sc options) (firstn m bindOrder))).
  split; [exact Hrun|]. split.
  - apply forallb_forall. intros e He. apply in_concat in He as [g [Hg He]].
    apply in_map_iff in Hg as [ty [<- _]]. unfold groupCalls in He.
    revert He. generalize 0. induction (ofType ty c) as [|el els IH]; simpl; intros i He.
    + destruct He.
    + destruct He as [<-|He]; [reflexivity | now apply (IH (S i))].
  - intros r Hr. rewrite (Hfull r Hr). reflexivity.
Qed.

Lemma mapValuesM_bind_log sc options (xs : obj InitConfig.t) :
  forall acc log,
    exists d,
      snd (mapValuesM_from
             (fun c => (do r <- InitConfig._bind c sc options; ret (Some r))%M) xs acc log)
      = log ++ d /\
      forallb isElementBind d = true /\
      (forall out,
          fst (mapValuesM_from
                 (fun c => (do r <- InitConfig._bind c sc options; ret (Some r))%M) xs acc log)
          = Ok out ->
          d = List.concat (map (fun kv => configCalls sc options (snd kv)) xs)).
Proof.
  set (fn := fun c : InitConfig.t =>
               (do r <- InitConfig._bind c sc options; ret (Some r))%M).
  induction xs as [|[k c] xs IH]; intros acc log.
  - exists []. simpl. rewrite app_nil_r. auto.
  - destruct (config_bind_log c sc options log) as [d [Hrun [Hd Hfull]]].
    assert (Hstep : mapValuesM_from fn ((k, c) :: xs) acc log
                    = match configResult c sc options with
                      | Ok b => mapValuesM_from fn xs (obj_set k b acc) (log ++ d)
                      | Throw e => (Throw e, log ++ d)
                      | OutOfModel => (OutOfModel, log ++ d)
                      end).
    { simpl. unfold fn at 1. unfold mbind. rewrite Hrun.
      destruct (configResult c sc options); reflexivity. }
    rewrite Hstep. destruct (configResult c sc options) as [b| |] eqn:Hres.
    + destruct (IH (obj_set k b acc) (log ++ d)) as [d' [Hsnd [Hd' Hfull']]].
      exists (d ++ d'). rewrite Hsnd, app_assoc. split; [reflexivity|]. split.
      * now rewrite forallb_app, Hd, Hd'.
      * intros out Hout. simpl. rewrite (Hfull b eq_refl), (Hfull' out Hout). reflexivity.
    + exists d. simpl. split; [reflexivity|]. split; [exact Hd | discriminate].
    + exists d. simpl. split; [reflexivity|]. split; [exact Hd | discriminate].
Qed.

Lemma registry_bind_log this sc options log :
  exists d,
    snd (CloudFormationInit.bind this sc options log) = log ++ d /\
    forallb isElementBind d = true /\
    (forall r, fst (CloudFormationInit.bind this sc options log) = Ok r ->
       d = List.concat (map (fun kv => configCalls sc options (snd kv))
                          (CloudFormationInit.nonEmptyConfigs this))).
Proof.
  unfold CloudFormationInit.bind, mapValuesM.
  destruct (_ || _).
  { exists []. unfold lift. simpl. rewrite app_nil_r.
    split; [reflexivity|]. split; [reflexivity | discriminate]. }
  destruct (mapValuesM_bind_log sc options (CloudFormationInit.nonEmptyConfigs this) [] log)
    as [d [Hsnd [Hd Hfull]]].
  exists d. unfold mbind, lift, ret in *.
  destruct (mapValuesM_from _ _ [] log) as [[bound| |] log1]; simpl in Hsnd; subst log1.
  - destruct (reduce_deepMerge _); simpl; (split; [reflexivity|]); (split; [exact Hd|]);
      try discriminate.
    intros r _. now apply (Hfull bound).
  - simpl. split; [reflexivity|]. split; [exact Hd | discriminate].
  - simpl. split; [reflexivity|]. split; [exact Hd | discriminate].
Qed.

(** X9. Rendering binds the configs one after the other, in the order in
    which the catalog enumerates those that have elements: when [bind]
    returns, what it has logged is, config by config, all the calls of the
    config, kind by kind.  Whatever the outcome, [bind] logs nothing but
    element bindings. *)
Theorem bind_goes_config_by_config (this : CloudFormationInit.t) (sc : handle)
    (options : AttachInitOptions.t) (log : list effect) :
  exists calls,
    snd (CloudFormationInit.bind this sc options log) = log ++ calls /\
    forallb isElementBind calls = true /\
    (forall r,
        fst (CloudFormationInit.bind this sc options log) = Ok r ->
        calls = List.concat (map (fun kv => configCalls sc options (snd kv))
                               (CloudFormationInit.nonEmptyConfigs this))).
Proof. apply registry_bind_log. Qed.

Lemma bind_goes_config_by_config_witness :
  exists calls,
    snd (CloudFormationInit.bind registry_two 0 sample_options []) = [] ++ calls /\
    forallb isElementBind calls = true /\
    (forall r,
        fst (CloudFormationInit.bind registry_two 0 sample_options []) = Ok r ->
        calls = List.concat (map (fun kv => configCalls 0 sample_options (snd kv))
                               (CloudFormationInit.nonEmptyConfigs registry_two))).
Proof. exact (bind_goes_config_by_config registry_two 0 sample_options []). Defined.

(** ** Attaching *)

Section AttachFacts.
Variables Aws_REGION Aws_STACK_NAME Aws_STACK_ID : string.
Variable JSON_stringify : value -> string.
Variable sha256_hex : string -> string.

Let attach := CloudFormationInit._attach Aws_REGION Aws_STACK_NAME Aws_STACK_ID
                JSON_stringify sha256_hex.
Let fingerprint := CloudFormationInit.fingerprint_of JSON_stringify sha256_hex.

(** X10. Attaching is all or nothing.  When rendering throws, [_attach]
    throws the same error, and everything it has logged by then is element
    bindings: no metadata is written, no permission granted and no command
    added to the user data. *)
Theorem attach_is_all_or_nothing (this : CloudFormationInit.t) (res : CfnResource)
    (opts : AttachInitOptions.t) (log log' : list effect) (e : error) :
  CloudFormationInit.bind this (stack res) opts log = (Throw e, log') ->
  attach this res opts log = (Throw e, log') /\
  exists calls, log' = log ++ calls /\ forallb isElementBind calls = true.
Proof.
  intros Hbind. split.
  - unfold attach, CloudFormationInit._attach. unfold mbind at 1. now rewrite Hbind.
  - destruct (registry_bind_log this (stack res) opts log) as [calls [Hsnd [Hcalls _]]].
    rewrite Hbind in Hsnd. simpl in Hsnd. now exists calls.
Qed.

(** X11. What a successful [_attach] emits after the element bindings:
    first the rendered document as [AWS::CloudFormation::Init] metadata,
    then the grant of the two permissions on the stack, then the
    authentication metadata exactly when the authentication fragment is
    truthy, then the fingerprint comment unless switched off, and last one
    batch of commands.  In that batch the init command, with the selected
    config sets ([default] when none are given), is directly followed by
    the signal command, whose exit status is [0] when failures are ignored
    and the platform's status variable otherwise; the log dump follows
    unless [printLog] is off. *)
Theorem attach_effects_on_success (this : CloudFormationInit.t) (res : CfnResource)
    (opts : AttachInitOptions.t) (log log' : list effect) (r : BindResult) :
  CloudFormationInit.bind this (stack res) opts log = (Ok r, log') ->
  let ud := AttachInitOptions.userData opts in
  let p := AttachInitOptions.platform opts in
  let locator := "--region " +++ Aws_REGION +++ " --stack " +++ Aws_STACK_NAME
                 +++ " --resource " +++ logicalId res in
  let sets := String.concat "," (option_or (AttachInitOptions.configSets opts) ["default"]) in
  exists before after,
    attach this res opts log
    = (Ok tt,
       log'
       ++ [AddMetadata (resource res) "AWS::CloudFormation::Init" (configData r);
           AddToPolicy (AttachInitOptions.instanceRole opts)
             ["cloudformation:DescribeStackResource"; "cloudformation:SignalResource"]
             [Aws_STACK_ID]]
       ++ (if truthy (authData r)
           then [AddMetadata (resource res) "AWS::CloudFormation::Authentication"
                   (authData r)]
           else [])
       ++ (if option_or (AttachInitOptions.embedFingerprint opts) true
           then [AddCommands ud ["# fingerprint: " +++ fingerprint (configData r)]]
           else [])
       ++ [AddCommands ud
             (before
              ++ [initTool p +++ " -v " +++ locator +++ " -c " +++ sets;
                  signalTool p +++ " -e " +++ signalCode opts +++ " " +++ locator]
              ++ (if option_or (AttachInitOptions.printLog opts) true
                  then [logDump p] else [])
              ++ after)]) /\
    before = match p with WINDOWS => [] | LINUX => ["("; "  set +e"] end /\
    after = match p with WINDOWS => [] | LINUX => [")"] end.
Proof.
  intros Hbind ud p locator sets.
  exists (match p with WINDOWS => [] | LINUX => ["("; "  set +e"] end),
    (match p with WINDOWS => [] | LINUX => [")"] end).
  split; [|split; reflexivity].
  unfold attach, CloudFormationInit._attach. unfold mbind at 1. rewrite Hbind.
  fold fingerprint. unfold mbind, emit, ret, signalCode, ud, p, sets, locator.
  destruct (truthy (authData r));
    destruct (option_or (AttachInitOptions.embedFingerprint opts) true);
    destruct (AttachInitOptions.platform opts);
    destruct (option_or (AttachInitOptions.ignoreFailures opts) false);
    destruct (option_or (AttachInitOptions.printLog opts) true);
    simpl; rewrite <- ?app_assoc; reflexivity.
Qed.

End AttachFacts.

Lemma attach_is_all_or_nothing_witness :
  CloudFormationInit._attach "R" "S" "I" sample_stringify sample_digest
    registry_clash sample_resource sample_options []
  = (Throw (MergeArrayIntoNonArray [AString "a"] (VString "s")),
     snd (CloudFormationInit.bind registry_clash 0 sample_options [])) /\
  exists calls,
    snd (CloudFormationInit.bind registry_clash 0 sample_options []) = [] ++ calls /\
    forallb isElementBind calls = true.
Proof.
  apply (attach_is_all_or_nothing "R" "S" "I" sample_stringify sample_digest
           registry_clash sample_resource sample_options []).
  reflexivity.
Defined.

Lemma attach_effects_on_success_witness :
  exists before after,
    CloudFormationInit._attach "R" "S" "I" sample_stringify sample_digest
      registry_example sample_resource windows_options []
    = (Ok tt,
       snd (CloudFormationInit.bind registry_example 0 windows_options [])
       ++ [AddMetadata 7 "AWS::CloudFormation::Init" (configData example_rendered);
           AddToPolicy 1
             ["cloudformation:DescribeStackResource"; "cloudformation:SignalResource"]
             ["I"]]
       ++ []
       ++ []
       ++ [AddCommands 2
             (before
              ++ ["cfn-init.exe -v --region R --stack S --resource Instance -c a,b";
                  "cfn-signal.exe -e 0 --region R --stack S --resource Instance"]
              ++ []
              ++ after)]) /\
    before = [] /\ after = [].
Proof.
  apply (attach_effects_on_success "R" "S" "I" sample_stringify sample_digest
           registry_example sample_resource windows_options []
           (snd (CloudFormationInit.bind registry_example 0 windows_options []))
           example_rendered).
  reflexivity.
Defined.

(** ** The authentication fragment *)

Lemma reduce_all_undefined xs :
  (forall x, In x xs -> x = undefined) -> reduce_deepMerge xs = Ok undefined.
Proof.
  unfold reduce_deepMerge. induction xs as [|x xs IH]; intros Hall; [reflexivity|].
  simpl. rewrite (Hall x) by now left. unfold deepMerge. simpl.
  apply IH. intros y Hy. apply Hall. now right.
Qed.

Lemma resultsFrom_authentication ro es : forall i x,
  (forall e o, In e es -> authentication (element_bind e o) = undefined) ->
  In x (map authentication (resultsFrom ro i es)) -> x = undefined.
Proof.
  induction es as [|e es IH]; simpl; intros i x Hall; [tauto|].
  intros [<-|Hin].
  - apply Hall. now left.
  - apply (IH (S i)); [|exact Hin]. intros e' o He'. apply Hall. now right.
Qed.

Lemma groupResult_authentication c ty ro g :
  (forall e o, In e (InitConfig.elements c) -> authentication (element_bind e o) = undefined) ->
  groupResult c ty ro = Ok g -> InitConfig.opt_authentication g = undefined.
Proof.
  intros Hall Hg.
  destruct (groupResult_inv _ _ _ _ Hg) as [[_ ->]|[_ [cfg [auth [_ [Hauth ->]]]]]];
    [reflexivity|].
  simpl. rewrite reduce_all_undefined in Hauth; [congruence|].
  intros x. apply resultsFrom_authentication. intros e o He. apply Hall.
  unfold ofType in He. now apply filter_In in He as [He _].
Qed.

Lemma configResult_authentication c sc options r :
  (forall e o, In e (InitConfig.elements c) -> authentication (element_bind e o) = undefined) ->
  configResult c sc options = Ok r -> authentication r = undefined.
Proof.
  intros Hall. unfold configResult.
  destruct (groupResult c PACKAGE _) as [a0| |] eqn:H0; try discriminate.
  destruct (groupResult c GROUP _) as [a1| |] eqn:H1; try discriminate.
  destruct (groupResult c USER _) as [a2| |] eqn:H2; try discriminate.
  destruct (groupResult c SOURCE _) as [a3| |] eqn:H3; try discriminate.
  destruct (groupResult c FILE _) as [a4| |] eqn:H4; try discriminate.
  destruct (groupResult c COMMAND _) as [a5| |] eqn:H5; try discriminate.
  destruct (groupResult c SERVICE _) as [a6| |] eqn:H6; try discriminate.
  cbn [obind map].
  rewrite (groupResult_authentication _ _ _ _ Hall H0),
    (groupResult_authentication _ _ _ _ Hall H1),
    (groupResult_authentication _ _ _ _ Hall H2),
    (groupResult_authentication _ _ _ _ Hall H3),
    (groupResult_authentication _ _ _ _ Hall H4),
    (groupResult_authentication _ _ _ _ Hall H5),
    (groupResult_authentication _ _ _ _ Hall H6).
  intros [= <-]. reflexivity.
Qed.

Lemma registry_bind_authData this sc options log r log' :
  CloudFormationInit.bind this sc options log = (Ok r, log') ->
  exists bound : obj InitElementConfig,
    reduce_deepMerge (map authentication (Object_values bound)) = Ok (authData r) /\
    forall n b, In (n, b) bound ->
      exists c, In (n, c) (CloudFormationInit._configs this) /\
                configResult c sc options = Ok b.
Proof.
  unfold CloudFormationInit.bind, mapValuesM.
  destruct (_ || _); [discriminate|]. unfold mbind at 1.
  set (fn := fun c : InitConfig.t =>
               (do r <- InitConfig._bind c sc options; ret (Some r))%M).
  destruct (mapValuesM_from fn _ [] log) as [[bound| |] log1] eqn:Hmap; try discriminate.
  unfold mbind, lift, ret.
  destruct (reduce_deepMerge _) as [auth| |] eqn:Hauth; try discriminate.
  intros [= <- _]. exists bound. split; [exact Hauth|].
  assert (Hfn : forall c log0,
             fst (fn c log0) = let! b := configResult c sc options in Ok (Some b)).
  { intros c log0. unfold fn, mbind, ret.
    destruct (config_bind_run c sc options log0) as [m [_ [-> _]]].
    now destruct (configResult c sc options). }
  assert (Hnd : NoDup (keys bound)).
  { eapply mapValuesM_from_NoDup; [|exact Hmap]. constructor. }
  assert (Hnd0 : NoDup (keys (CloudFormationInit.nonEmptyConfigs this)))
    by apply mapValues_NoDup.
  intros n b Hin. apply In_obj_get in Hin; [|exact Hnd].
  pose proof (mapValuesM_from_get _ _ fn _ Hfn _ _ _ _ _ n Hnd0 Hmap) as Hk.
  destruct (obj_get n (CloudFormationInit.nonEmptyConfigs this)) as [c|] eqn:Hc;
    [|simpl in Hk; congruence].
  destruct Hk as [mapped [Hres Hout]].
  destruct (configResult c sc options) as [b'| |] eqn:Hcr; try discriminate.
  simpl in Hres. injection Hres as <-. assert (b' = b) by congruence. subst b'.
  apply obj_get_Some_In in Hc. unfold CloudFormationInit.nonEmptyConfigs in Hc.
  apply mapValues_In in Hc as [a [Ha Hfa]].
  destruct (InitConfig.isEmpty a); [discriminate|]. injection Hfa as ->.
  now exists c.
Qed.

Section Authentication.
Variables Aws_REGION Aws_STACK_NAME Aws_STACK_ID : string.
Variable JSON_stringify : value -> string.
Variable sha256_hex : string -> string.

Let attach := CloudFormationInit._attach Aws_REGION Aws_STACK_NAME Aws_STACK_ID
                JSON_stringify sha256_hex.

Lemma attach_without_authentication (this : CloudFormationInit.t) (res : CfnResource)
    (opts : AttachInitOptions.t) (log log' : list effect) (r : BindResult) :
  CloudFormationInit.bind this (stack res) opts log = (Ok r, log') ->
  truthy (authData r) = false ->
  exists delta,
    attach this res opts log = (Ok tt, log' ++ delta) /\
    forall h v, ~ In (AddMetadata h "AWS::CloudFormation::Authentication" v) delta.
Proof.
  intros Hbind Hfalsy.
  unfold attach, CloudFormationInit._attach. unfold mbind at 1. rewrite Hbind.
  unfold mbind, emit, ret. rewrite Hfalsy.
  destruct (option_or (AttachInitOptions.embedFingerprint opts) true);
    destruct (AttachInitOptions.platform opts);
    rewrite <- ?app_assoc; eexists; (split; [reflexivity|]);
    intros h v Hin; simpl in Hin; intuition discriminate.
Qed.

(** X12. When no element of any config contributes an authentication
    fragment, the rendering has none, and a successful [_attach] writes no
    [AWS::CloudFormation::Authentication] metadata. *)
Theorem no_authentication_unless_contributed (this : CloudFormationInit.t)
    (res : CfnResource) (opts : AttachInitOptions.t) (log log' : list effect)
    (r : BindResult) :
  (forall n c e o,
      In (n, c) (CloudFormationInit._configs this) ->
      In e (InitConfig.elements c) ->
      authentication (element_bind e o) = undefined) ->
  CloudFormationInit.bind this (stack res) opts log = (Ok r, log') ->
  authData r = undefined /\
  exists delta,
    attach this res opts log = (Ok tt, log' ++ delta) /\
    forall h v, ~ In (AddMetadata h "AWS::CloudFormation::Authentication" v) delta.
Proof.
  intros Hnone Hbind.
  assert (Hauth : authData r = undefined).
  { destruct (registry_bind_authData _ _ _ _ _ _ Hbind) as [bound [Hred Hbound]].
    rewrite reduce_all_undefined in Hred; [congruence|].
    intros x Hx. apply in_map_iff in Hx as [b [<- Hb]].
    unfold Object_values in Hb. apply in_map_iff in Hb as [[n b'] [Hsnd Hin]].
    simpl in Hsnd. subst b'.
    destruct (Hbound n b Hin) as [c [Hc Hres]].
    apply (configResult_authentication c (stack res) opts b); [|exact Hres].
    intros e o He. now apply (Hnone n c). }
  split; [exact Hauth|].
  destruct (attach_without_authentication this res opts log log' r Hbind)
    as [delta [Hrun Hdelta]]; [now rewrite Hauth|].
  now exists delta.
Qed.
End Authentication.

Lemma no_authentication_unless_contributed_witness :
  authData example_rendered = undefined /\
  exists delta,
    CloudFormationInit._attach "R" "S" "I" sample_stringify sample_digest
      registry_example sample_resource sample_options []
    = (Ok tt, snd (CloudFormationInit.bind registry_example 0 sample_options []) ++ delta) /\
    forall h v, ~ In (AddMetadata h "AWS::CloudFormation::Authentication" v) delta.
Proof.
  apply (no_authentication_unless_contributed "R" "S" "I" sample_stringify sample_digest
           registry_example sample_resource sample_options []
           (snd (CloudFormationInit.bind registry_example 0 sample_options []))
           example_rendered).
  - intros n c e o [[= <- <-]|[[= <- <-]|[]]] He; simpl in He.
    + destruct He as [<-|[]]. reflexivity.
    + destruct He.
  - reflexivity.
Defined.

(** ** deepMerge, key by key *)

(** The iteration for a key of the source sees what the target held under
    the key, and its result is what the merged document holds there. *)
Lemma mergeEntries_at_key es fields k v r :
  NoDup (keys es) ->
  obj_get k es = Some v ->
  mergeEntries es (VObject fields) = Ok r ->
  exists f1 f2 fields',
    obj_get k f1 = obj_get k fields /\
    mergeEntry deepMergeInto (VObject f1) k v = Ok (VObject f2) /\
    r = VObject fields' /\
    obj_get k fields' = obj_get k f2.
Proof.
  intros Hnd Hget Hrun.
  destruct (obj_get_split _ _ _ Hget) as [before [after [-> Hbefore]]].
  pose proof (NoDup_keys_split _ _ _ _ Hnd) as Hafter.
  rewrite mergeEntries_app in Hrun.
  destruct (mergeEntries before (VObject fields)) as [t1| |] eqn:H1; try discriminate.
  apply mergeEntries_object in H1 as [f1 [-> [Hkeep1 _]]].
  simpl in Hrun.
  destruct (mergeEntry deepMergeInto (VObject f1) k v) as [t2| |] eqn:H2; try discriminate.
  destruct (mergeEntry_object _ _ _ _ H2) as [f2 [-> _]].
  simpl in Hrun. apply mergeEntries_object in Hrun as [fields' [-> [Hkeep2 _]]].
  exists f1, f2, fields'. repeat split; auto.
Qed.

Lemma mergeEntry_keys fields k v fields' :
  mergeEntry deepMergeInto (VObject fields) k v = Ok (VObject fields') ->
  forall k', In k' (keys fields') <-> In k' (keys fields) \/ (k' = k /\ v <> undefined).
Proof.
  intros H k'.
  assert (Hcases : v = undefined \/ v <> undefined).
  { destruct v as [[| | | |]| |]; (now left) || (right; discriminate). }
  destruct Hcases as [->|Hv].
  - simpl in H. injection H as <-.
    split; [auto | intros [H|[_ H]]; [exact H | congruence]].
  - apply mergeEntry_Ok in H as [v' [_ [= ->]]]; [|exact Hv].
    rewrite keys_set_In. tauto.
Qed.

Lemma mergeEntries_keys es : forall fields fields',
  mergeEntries es (VObject fields) = Ok (VObject fields') ->
  (forall k, In k (keys fields) -> In k (keys fields')) /\
  (forall k, In k (keys fields') -> In k (keys fields) \/ In k (keys es)).
Proof.
  induction es as [|[k v] es IH]; intros fields fields'; simpl.
  - intros [= <-]. auto.
  - destruct (mergeEntry deepMergeInto (VObject fields) k v) as [t1| |] eqn:Hstep;
      try discriminate.
    destruct (mergeEntry_object _ _ _ _ Hstep) as [f1 [-> _]].
    pose proof (mergeEntry_keys _ _ _ _ Hstep) as Hk.
    simpl. intros Hrest. destruct (IH _ _ Hrest) as [Hin Hout]. split.
    + intros k' Hk'. apply Hin, Hk. now left.
    + intros k' Hk'. destruct (Hout k' Hk') as [H|H]; [|auto].
      apply Hk in H as [H|[-> _]]; auto.
Qed.

(** X13. A scalar of the source overwrites: when the source holds under
    [k] a value that is neither an array nor an object nor [undefined]
    ([null] included), the merged document holds that value under [k],
    whatever the target held there.  (An assignment to [__proto__] on a
    target without a property of that name is outside the model, so the
    merges considered here make none.) *)
Theorem scalar_of_source_overwrites (target src : list (string * value)) (k : string)
    (p : prim) (merged : value) :
  NoDup (keys src) ->
  obj_get k src = Some (VPrim p) ->
  p <> PUndefined ->
  deepMerge (VObject target) (VObject src) = Ok merged ->
  get_prop merged k = VPrim p.
Proof.
  intros Hnd Hget Hp Hmerge. rewrite deepMerge_objects in Hmerge.
  destruct (mergeEntries_at_key _ _ _ _ _ Hnd Hget Hmerge)
    as [f1 [f2 [fields' [_ [Hstep [-> Hk]]]]]].
  simpl. rewrite Hk.
  apply mergeEntry_Ok in Hstep as [v' [Hc [= ->]]]; [|intros [= ->]; congruence].
  rewrite combine_prim in Hc. injection Hc as <-.
  now rewrite obj_get_set, String.eqb_refl.
Qed.

Lemma fields_source_NoDup : NoDup (keys fields_source).
Proof. repeat constructor; simpl; intuition discriminate. Qed.

Lemma scalar_of_source_overwrites_witness :
  get_prop (VObject fields_merged) "mode" = VPrim (PString "000600").
Proof.
  apply (scalar_of_source_overwrites fields_target fields_source "mode" (PString "000600")).
  - exact fields_source_NoDup.
  - reflexivity.
  - discriminate.
  - reflexivity.
Defined.

(** X14. [deepMerge] leaves alone what the source does not mention: a key
    that the source lacks, or holds as [undefined], has in the merged
    document what it had in the target (an [undefined] of the source
    creates no key).  No key of the target is lost, and every key of the
    merged document is a key of the target or of the source. *)
Theorem keys_outside_source_untouched (target src : list (string * value))
    (merged : value) :
  NoDup (keys src) ->
  deepMerge (VObject target) (VObject src) = Ok merged ->
  exists fields',
    merged = VObject fields' /\
    (forall k, obj_get k src = None \/ obj_get k src = Some undefined ->
               obj_get k fields' = obj_get k target) /\
    (forall k, In k (keys target) -> In k (keys fields')) /\
    (forall k, In k (keys fields') -> In k (keys target) \/ In k (keys src)).
Proof.
  intros Hnd Hmerge. rewrite deepMerge_objects in Hmerge.
  destruct (mergeEntries_object _ _ _ Hmerge) as [fields' [-> [Hkeep _]]].
  exists fields'. split; [reflexivity|]. split; [|now apply mergeEntries_keys].
  intros k [Hnone|Hundef].
  - apply Hkeep. now apply obj_get_None.
  - destruct (mergeEntries_at_key _ _ _ _ _ Hnd Hundef Hmerge)
      as [f1 [f2 [fields2 [H1 [Hstep [[= <-] Hk]]]]]].
    simpl in Hstep. injection Hstep as <-. congruence.
Qed.

Lemma keys_outside_source_untouched_witness :
  exists fields',
    VObject fields_merged = VObject fields' /\
    (forall k, obj_get k fields_source = None \/ obj_get k fields_source = Some undefined ->
               obj_get k fields' = obj_get k fields_target) /\
    (forall k, In k (keys fields_target) -> In k (keys fields')) /\
    (forall k, In k (keys fields') -> In k (keys fields_target) \/ In k (keys fields_source)).
Proof.
  apply (keys_outside_source_untouched fields_target fields_source).
  - exact fields_source_NoDup.
  - reflexivity.
Defined.

(** X15. Objects are merged recursively.  Let [k] be a property of the
    target itself, or a name that no member of [Object.prototype] has (the
    lookup [target[k]] would find such a member otherwise).  When the
    source holds an object under [k], the merged document holds under [k]
    the merge of that object into what the target held there, or into a
    new empty object when the target held nothing, [undefined] or
    [null]. *)
Theorem nested_objects_merge_recursively (target src : list (string * value))
    (k : string) (entries : list (string * value)) (merged : value) :
  NoDup (keys src) ->
  In k (keys target) \/ inherited_name k = false ->
  obj_get k src = Some (VObject entries) ->
  deepMerge (VObject target) (VObject src) = Ok merged ->
  exists sub,
    deepMerge (nullish_or (get_prop (VObject target) k) (VObject [])) (VObject entries)
    = Ok sub /\
    get_prop merged k = sub.
Proof.
  intros Hnd _ Hget Hmerge. rewrite deepMerge_objects in Hmerge.
  destruct (mergeEntries_at_key _ _ _ _ _ Hnd Hget Hmerge)
    as [f1 [f2 [fields' [Hf1 [Hstep [-> Hk]]]]]].
  apply mergeEntry_Ok in Hstep as [sub [Hsub [= ->]]]; [|discriminate].
  rewrite Hf1, combine_object in Hsub.
  exists sub. split.
  - unfold deepMerge. simpl get_prop.
    assert (Hdef : is_nullish (nullish_or match obj_get k target with
                                          | Some v => v
                                          | None => undefined
                                          end (VObject [])) = false).
    { apply nullish_or_object_defined. }
    rewrite Hdef, deepMergeInto_object. exact Hsub.
  - simpl. now rewrite Hk, obj_get_set, String.eqb_refl.
Qed.

Lemma nested_objects_merge_recursively_witness :
  exists sub,
    deepMerge (nullish_or (get_prop (VObject fields_target) "env") (VObject []))
      (VObject [("B", VString "2")])
    = Ok sub /\
    get_prop (VObject fields_merged) "env" = sub.
Proof.
  apply (nested_objects_merge_recursively fields_target fields_source "env"
           [("B", VString "2")]).
  - exact fields_source_NoDup.
  - left. simpl. auto.
  - reflexivity.
  - reflexivity.
Defined.



(** X17. The merged document lists the properties of the target first, in
    their order, and then the properties that are new, in the order of the
    source; this holds when no name of the source is an array index and no
    value of the source is [undefined].  (A merge that writes through a
    member of [Object.prototype] is outside the model.) *)
Theorem merged_keys_target_first (target src : list (string * value)) (merged : value) :
  named_entries src ->
  deepMerge (VObject target) (VObject src) = Ok merged ->
  exists fields',
    merged = VObject fields' /\
    keys fields' = keys target ++ filter (fun k => negb (obj_has k target)) (keys src).
Proof.
  intros Hnamed Hmerge. rewrite deepMerge_objects in Hmerge.
  destruct (mergeEntries_spec _ _ _ Hnamed Hmerge) as [fields' [-> [Hkeys _]]].
  exists fields'. split; [reflexivity | exact Hkeys].
Qed.

Lemma merged_keys_target_first_witness :
  exists fields',
    frag_abc = VObject fields' /\
    keys fields' = keys [("k", VArray [AString "a"; AString "b"]);
                         ("m", VObject [("x", VPrim (PNumber 1)); ("y", VPrim (PNumber 2))])]
                   ++ filter (fun k => negb (obj_has k
                        [("k", VArray [AString "a"; AString "b"]);
                         ("m", VObject [("x", VPrim (PNumber 1)); ("y", VPrim (PNumber 2))])]))
                        (keys [("k", VArray [AString "a"; AString "c"]); ("n", VString "s")]).
Proof.
  apply (merged_keys_target_first
           [("k", VArray [AString "a"; AString "b"]);
            ("m", VObject [("x", VPrim (PNumber 1)); ("y", VPrim (PNumber 2))])]
           [("k", VArray [AString "a"; AString "c"]); ("n", VString "s")]).
  - split; [repeat constructor; simpl; intuition discriminate|].
    intros k v [[= <- <-]|[[= <- <-]|[]]]; (split; [reflexivity | discriminate]).
  - reflexivity.
Defined.

(** ** The fold over fragments *)

Lemma deepMerge_fragments acc x r :
  is_fragment acc = true -> is_fragment x = true ->
  deepMerge acc x = Ok r ->
  is_fragment r = true /\ (r = undefined <-> acc = undefined /\ x = undefined).
Proof.
  destruct acc as [[| | | |]|xs|a]; try discriminate;
    destruct x as [[| | | |]|ys|b]; try discriminate; intros _ _.
  - intros [= <-]. split; [reflexivity | tauto].
  - intros [= <-]. split; [reflexivity|]. split; [discriminate | intros [_ H]; discriminate H].
  - intros [= <-]. split; [reflexivity|]. split; [discriminate | intros [H _]; discriminate H].
  - rewrite deepMerge_objects. intros H.
    apply mergeEntries_object in H as [f [-> _]].
    split; [reflexivity|]. split; [discriminate | intros [H _]; discriminate H].
Qed.

Lemma reduce_from_fragments xs : forall acc r,
  is_fragment acc = true ->
  (forall x, In x xs -> is_fragment x = true) ->
  reduce_from acc xs = Ok r ->
  reduce_from acc (filter (fun x => negb (is_nullish x)) xs) = Ok r /\
  (r = undefined <-> acc = undefined /\ forall x, In x xs -> x = undefined).
Proof.
  induction xs as [|x xs IH]; intros acc r Hacc Hxs; simpl.
  - intros [= <-]. split; [reflexivity|]. split; [intros ->; tauto | tauto].
  - destruct (deepMerge acc x) as [acc'| |] eqn:Hstep; try discriminate. simpl.
    intros Hrest.
    destruct (deepMerge_fragments _ _ _ Hacc (Hxs x (or_introl eq_refl)) Hstep)
      as [Hacc' Hundef].
    destruct (IH acc' r Hacc' (fun y Hy => Hxs y (or_intror Hy)) Hrest) as [Hfilter Hr].
    split.
    + destruct (is_nullish x) eqn:Hx; simpl.
      * assert (x = undefined).
        { pose proof (Hxs x (or_introl eq_refl)) as Hf.
          destruct x as [[| | | |]| |]; try discriminate; reflexivity. }
        subst x. assert (acc' = acc).
        { destruct acc as [[| | | |]| |]; try discriminate; unfold deepMerge in Hstep;
            simpl in Hstep; congruence. }
        now subst acc'.
      * now rewrite Hstep.
    + rewrite Hr, Hundef. split.
      * intros [[-> ->] Hall]. split; [reflexivity|].
        intros y [<-|Hy]; [reflexivity | now apply Hall].
      * intros [-> Hall]. split; [split; [reflexivity|] |].
        -- apply Hall. now left.
        -- intros y Hy. apply Hall. now right.
Qed.

(** X18. The fold passes over absent fragments.  For a list of fragments,
    each absent or an object, folding the whole list gives what folding
    its objects alone gives, and the result is absent exactly when every
    fragment is. *)
Theorem reduce_skips_absent_fragments (xs : list value) (r : value) :
  (forall x, In x xs -> is_fragment x = true) ->
  reduce_deepMerge xs = Ok r ->
  reduce_deepMerge (filter (fun x => negb (is_nullish x)) xs) = Ok r /\
  (r = undefined <-> forall x, In x xs -> x = undefined).
Proof.
  intros Hxs Hrun. unfold reduce_deepMerge in *.
  destruct (reduce_from_fragments xs undefined r eq_refl Hxs Hrun) as [Hfilter Hr].
  split; [exact Hfilter|]. rewrite Hr. tauto.
Qed.

Lemma reduce_skips_absent_fragments_witness :
  reduce_deepMerge
    (filter (fun x => negb (is_nullish x)) [undefined; frag_a; undefined; frag_b; frag_c])
  = Ok frag_abc /\
  (frag_abc = undefined <->
   forall x, In x [undefined; frag_a; undefined; frag_b; frag_c] -> x = undefined).
Proof.
  apply (reduce_skips_absent_fragments [undefined; frag_a; undefined; frag_b; frag_c]).
  - intros x [<-|[<-|[<-|[<-|[<-|[]]]]]]; reflexivity.
  - reflexivity.
Defined.

(** ** Merging the same fragment again *)

Lemma unique_names_object fields :
  unique_names (VObject fields) = true <->
  NoDup (keys fields) /\ forall k v, In (k, v) fields -> unique_names v = true.
Proof.
  simpl. rewrite andb_true_iff, unique_NoDup. unfold keys.
  apply and_iff_compat_l.
  induction fields as [|[k v] fields IH].
  - split; [intros _ k v [] | reflexivity].
  - rewrite andb_true_iff, IH. split.
    + intros [Hv Hrest] k' v' [[= <- <-]|Hin]; [exact Hv | now apply (Hrest k')].
    + intros H. split; [apply (H k v); now left|].
      intros k' v' Hin. apply (H k'). now right.
Qed.

Lemma Set_fold_absorbed ys : forall set,
  (forall y, In y ys -> In y set) -> fold_left Set_add ys set = set.
Proof.
  induction ys as [|y ys IH]; intros set Hall; simpl; [reflexivity|].
  rewrite (Set_add_old y set) by (apply Hall; now left).
  apply IH. intros y' Hy'. apply Hall. now right.
Qed.

Lemma Array_from_Set_absorbs xs ys :
  Array_from_Set (Array_from_Set (xs ++ ys) ++ ys) = Array_from_Set (xs ++ ys).
Proof.
  rewrite Array_from_Set_app_l. unfold Array_from_Set.
  rewrite fold_left_app. apply Set_fold_absorbed.
  intros y Hy. apply Set_fold_In. right. apply in_or_app. now right.
Qed.

Lemma obj_replace_same {A : Type} (k : string) (v : A) (o : obj A) :
  obj_get k o = Some v -> obj_replace k v o = o.
Proof.
  induction o as [|[k' v'] o IH]; simpl; [reflexivity|].
  destruct (String.eqb_spec k k') as [->|Hne].
  - now intros [= ->].
  - intros H. now rewrite IH.
Qed.

Lemma obj_set_same {A : Type} (k : string) (v : A) (o : obj A) :
  obj_get k o = Some v -> obj_set k v o = o.
Proof.
  intros H. unfold obj_set, obj_has. rewrite H. now apply obj_replace_same.
Qed.

Lemma mergeEntries_absorbed es target :
  (forall k v, In (k, v) es -> mergeEntry deepMergeInto target k v = Ok target) ->
  mergeEntries es target = Ok target.
Proof.
  induction es as [|[k v] es IH]; intros Hall; simpl; [reflexivity|].
  rewrite (Hall k v) by now left. simpl. apply IH.
  intros k' v' Hin. apply Hall. now right.
Qed.

Lemma combine_array_form found ys v' :
  combine found (VArray ys) = Ok v' ->
  exists old, v' = VArray (Array_from_Set (old ++ ys)).
Proof.
  unfold combine. destruct (truthy _ && negb _); [discriminate|].
  destruct (spread _) as [old| |]; try discriminate.
  intros [= <-]. now exists old.
Qed.

Lemma mergeEntries_again n : forall y x m,
  esize y < n ->
  unique_names (VObject y) = true ->
  mergeEntries y x = Ok m ->
  mergeEntries y m = Ok m.
Proof.
  induction n as [|n IH]; intros y x m Hsize Hy Hrun; [lia|].
  destruct x as [p|xs|xf].
  - apply mergeEntries_non_object in Hrun as Hm; [|discriminate].
    destruct Hm as [-> _]. exact Hrun.
  - apply mergeEntries_non_object in Hrun as Hm; [|discriminate].
    destruct Hm as [-> _]. exact Hrun.
  - destruct (mergeEntries_object _ _ _ Hrun) as [mf [-> _]].
    apply unique_names_object in Hy as [Hnd Hvals].
    apply mergeEntries_absorbed. intros k v Hin.
    assert (Hget : obj_get k y = Some v) by now apply In_obj_get.
    destruct (mergeEntries_at_key _ _ _ _ _ Hnd Hget Hrun)
      as [f1 [f2 [mf' [Hf1 [Hstep [[= <-] Hk]]]]]].
    assert (Hv : v = undefined \/ v <> undefined).
    { destruct v as [[| | | |]| |]; (now left) || (right; discriminate). }
    destruct Hv as [->|Hv]; [reflexivity|].
    apply mergeEntry_Ok in Hstep as [v' [Hc [= ->]]]; [|exact Hv].
    rewrite obj_get_set, String.eqb_refl in Hk.
    rewrite mergeEntry_combine;
      [|exact Hv | apply own_lookup_cases; left; apply obj_get_In_keys; congruence].
    rewrite Hk.
    assert (Hagain : combine (Some v') v = Ok v').
    { destruct v as [q|ys|yes].
      - rewrite combine_prim in Hc. injection Hc as <-. reflexivity.
      - destruct (combine_array_form _ _ _ Hc) as [old ->].
        rewrite combine_array_array. now rewrite Array_from_Set_absorbs.
      - rewrite combine_object in Hc |- *.
        assert (Hdef : is_nullish v' = false).
        { eapply mergeEntries_defined; [|exact Hc].
          unfold targetOf. apply nullish_or_object_defined. }
        unfold targetOf at 1. unfold nullish_or. rewrite Hdef.
        apply (IH yes (targetOf (obj_get k f1)) v').
        + pose proof (esize_In _ _ _ Hin) as Hle. rewrite vsize_object in Hle. lia.
        + apply (Hvals k). exact Hin.
        + exact Hc. }
    rewrite Hagain. simpl. now rewrite (obj_set_same _ _ _ Hk).
Qed.



(** The set of a list, started from [set], is [set] followed by the first
    occurrences of the elements that [set] lacks. *)
Lemma Set_fold_first_occurrences xs : forall set,
  fold_left Set_add xs set
  = set ++ filter (fun y => negb (existsb (sameValueZero y) set)) (first_occurrences xs).
Proof.
  induction xs as [|x xs IH]; intros set; simpl; [now rewrite app_nil_r|].
  rewrite IH, filter_filter. unfold Set_add.
  destruct (existsb (sameValueZero x) set) eqn:E; simpl.
  - f_equal. apply filter_ext_in. intros y _.
    destruct (sameValueZero x y) eqn:Exy; simpl; [|reflexivity].
    apply sameValueZero_eq in Exy. subst y. now rewrite E.
  - rewrite <- app_assoc. simpl. do 2 f_equal. apply filter_ext_in. intros y _.
    rewrite existsb_app. simpl. rewrite orb_false_r, negb_orb, andb_comm. f_equal.
    f_equal. destruct (sameValueZero y x) eqn:Eyx, (sameValueZero x y) eqn:Exy;
      try reflexivity.
    + apply sameValueZero_eq in Eyx. subst y.
      assert (H : sameValueZero x x = true) by now apply sameValueZero_eq.
      congruence.
    + apply sameValueZero_eq in Exy. subst y.
      assert (H : sameValueZero x x = true) by now apply sameValueZero_eq.
      congruence.
Qed.

Lemma Array_from_Set_first_occurrences xs : Array_from_Set xs = first_occurrences xs.
Proof.
  unfold Array_from_Set. rewrite Set_fold_first_occurrences. simpl.
  induction (first_occurrences xs) as [|a l IH]; simpl; now rewrite ?IH.
Qed.



(** ** Registering an empty config *)

Lemma obj_insert_index_split {A : Type} (n : N) (k : string) (v : A) (o : obj A) :
  exists l1 l2, o = l1 ++ l2 /\ obj_insert_index n k v o = l1 ++ (k, v) :: l2.
Proof.
  induction o as [|[k0 v0] o IH]; simpl.
  - exists [], []. auto.
  - destruct (array_index k0) as [m|]; [destruct (m <? n)%N|].
    + destruct IH as [l1 [l2 [-> Hins]]].
      exists ((k0, v0) :: l1), l2. rewrite Hins. auto.
    + exists [], ((k0, v0) :: o). auto.
    + exists [], ((k0, v0) :: o). auto.
Qed.

Lemma obj_set_fresh_split {A : Type} (k : string) (v : A) (o : obj A) :
  ~ In k (keys o) ->
  exists l1 l2, o = l1 ++ l2 /\ obj_set k v o = l1 ++ (k, v) :: l2.
Proof.
  intros Hfresh. unfold obj_set. apply obj_has_false in Hfresh. rewrite Hfresh.
  destruct (array_index k) as [n|]; [apply obj_insert_index_split|].
  exists o, []. now rewrite app_nil_r.
Qed.

Lemma mapValues_skips_undefined {A B : Type} (fn : A -> option B) (l1 l2 : obj A)
    (k : string) (a : A) :
  fn a = None -> mapValues (l1 ++ (k, a) :: l2) fn = mapValues (l1 ++ l2) fn.
Proof.
  intros Hnone. unfold mapValues. rewrite !fold_left_app. simpl. now rewrite Hnone.
Qed.

(** X21. Registering a config without elements makes no difference to the
    rendering: after [addConfig] of an empty config under a new name,
    which is not the name of a member of [Object.prototype], [bind]
    returns the same document, the same authentication fragment and the
    same log as before. *)
Theorem empty_config_changes_no_rendering (this : CloudFormationInit.t)
    (configName : string) (c : InitConfig.t) (sc : handle)
    (options : AttachInitOptions.t) (log : list effect) :
  ~ In configName (keys (CloudFormationInit._configs this)) ->
  inherited_name configName = false ->
  InitConfig.isEmpty c = true ->
  fst (CloudFormationInit.addConfig configName c this) = Ok tt /\
  CloudFormationInit.bind (snd (CloudFormationInit.addConfig configName c this)) sc options log
  = CloudFormationInit.bind this sc options log.
Proof.
  intros Hfresh Hname Hempty. unfold CloudFormationInit.addConfig.
  rewrite (proj2 (obj_in_false _ _) (conj Hfresh Hname)).
  split; [reflexivity|]. simpl.
  assert (Hguard : obj_has "__proto__" (obj_set configName c (CloudFormationInit._configs this))
                   = obj_has "__proto__" (CloudFormationInit._configs this)).
  { rewrite obj_has_set. destruct (String.eqb "__proto__" configName) eqn:E; [|reflexivity].
    rewrite String.eqb_sym in E. apply proto_inherited in E. congruence. }
  assert (Hsame : CloudFormationInit.nonEmptyConfigs
                    {| CloudFormationInit._configSets := CloudFormationInit._configSets this;
                       CloudFormationInit._configs :=
                         obj_set configName c (CloudFormationInit._configs this) |}
                  = CloudFormationInit.nonEmptyConfigs this).
  { unfold CloudFormationInit.nonEmptyConfigs. simpl.
    destruct (obj_set_fresh_split configName c _ Hfresh) as [l1 [l2 [Hsplit ->]]].
    rewrite Hsplit. apply mapValues_skips_undefined. now rewrite Hempty. }
  unfold CloudFormationInit.bind, CloudFormationInit.renderedConfigSets.
  cbn [CloudFormationInit._configs CloudFormationInit._configSets].
  rewrite Hguard, Hsame. reflexivity.
Qed.

Lemma empty_config_changes_no_rendering_witness :
  fst (CloudFormationInit.addConfig "7" empty_config registry_example) = Ok tt /\
  CloudFormationInit.bind (snd (CloudFormationInit.addConfig "7" empty_config registry_example))
    0 sample_options []
  = (Ok example_rendered,
     [ElementBind (pkg_element "p1") (optionsAt (bindOptionsOf 0 sample_options) 0)]).
Proof.
  destruct (empty_config_changes_no_rendering registry_example "7" empty_config
              0 sample_options []) as [Hadd Hsame].
  - simpl. intros [H|[H|[]]]; discriminate H.
  - reflexivity.
  - reflexivity.
  - split; [exact Hadd|]. rewrite Hsame. reflexivity.
Defined.
